(** * Cryptoscanner: the analysis engine, embedded and checked against its specification

    The development follows the four analysers of the JavaScript sources, one
    module each, function by function:
    - [SupportResistanceAnalyzer]: pivots, clusters, support and resistance,
      psychological and volume levels, strength;
    - [ElliottWaveAnalyzer]: swings, significant swings, impulse and
      corrective waves, projections;
    - [SmartMoneyAnalyzer]: market structure, order blocks, fair value gaps,
      liquidity zones, bias;
    - [PatternAnalyzer]: triangles, head and shoulders, double tops, flags,
      candlesticks, harmonics.

    Numbers.  A JavaScript number is modelled by [num]: a rational, the two
    infinities, or NaN.  Division by zero, arithmetic on infinities,
    comparisons with NaN and the empty [Math.max] and [Math.min] behave as in
    the language.  The operations of [Num] are exact.  Where the result of
    the code depends on the rounding of doubles, in the round numbers of
    [findPsychologicalLevels], whose bounds, step, values and last iteration
    all do, every operation is followed by [Num.double], the rounding of
    IEEE 754 binary64 to the nearest double, ties to even, with subnormals
    and overflow to an infinity, and a decimal literal is the double it
    denotes ([lit]).  The sign of zero is not modelled.

    Faults.  Reading a property of [undefined] raises a TypeError.  A function
    that can do so returns an [outcome], and so does the one loop whose end
    depends on its numbers.

    Arrays.  An array is a list, of any length: [push] appends at the end,
    and a loop over indices is a fold over the list of its indices.  The
    limits of memory are not modelled. *)

From Stdlib Require Import String DecimalString QArith Qround Qabs Qpower Lqa ZArith Lia List.
From Stdlib Require Import Bool Arith.
From Stdlib Require Import Permutation Sorted.
Import ListNotations.
Local Open Scope Q_scope.

Set Implicit Arguments.

(* ===================================================================== *)
(** ** JavaScript numbers *)
(* ===================================================================== *)

Inductive num : Type :=
| Fin (q : Q)
| PInf
| NInf
| NaN.

Declare Scope num_scope.
Delimit Scope num_scope with num.
Bind Scope num_scope with num.

Module Num.

Definition of_Z (z : Z) : num := Fin (inject_Z z).
Definition of_nat (n : nat) : num := Fin (inject_Z (Z.of_nat n)).

(** Sign of a number that is not NaN: -1, 0 or 1. *)
Definition sgn (x : num) : Z :=
  match x with
  | Fin q => Z.sgn (Qnum q)
  | PInf => 1
  | NInf => (-1)
  | NaN => 0
  end.

Definition inf_of_sign (s : Z) : num :=
  match s with
  | Zpos _ => PInf
  | Zneg _ => NInf
  | Z0 => NaN
  end.

Definition neg (x : num) : num :=
  match x with
  | Fin q => Fin (- q)
  | PInf => NInf
  | NInf => PInf
  | NaN => NaN
  end.

Definition add (x y : num) : num :=
  match x, y with
  | NaN, _ | _, NaN => NaN
  | Fin a, Fin b => Fin (a + b)
  | PInf, NInf | NInf, PInf => NaN
  | PInf, _ | _, PInf => PInf
  | NInf, _ | _, NInf => NInf
  end.

Definition sub (x y : num) : num := add x (neg y).

Definition mul (x y : num) : num :=
  match x, y with
  | NaN, _ | _, NaN => NaN
  | Fin a, Fin b => Fin (a * b)
  | _, _ => inf_of_sign (sgn x * sgn y)
  end.

(** [x / y]: a finite number over zero is an infinity of the sign of the
    numerator, and 0/0 is NaN; nothing faults. *)
Definition div (x y : num) : num :=
  match x, y with
  | NaN, _ | _, NaN => NaN
  | Fin a, Fin b =>
      if Qeq_bool b 0 then inf_of_sign (sgn x) else Fin (a / b)
  | Fin _, _ => Fin 0
  | _, Fin b => inf_of_sign (sgn x * (if Qeq_bool b 0 then 1 else sgn y))
  | _, _ => NaN
  end.

Definition abs (x : num) : num :=
  match x with
  | Fin q => Fin (Qabs q)
  | PInf | NInf => PInf
  | NaN => NaN
  end.

(** Comparisons: every comparison with NaN is false. *)
Definition leb (x y : num) : bool :=
  match x, y with
  | NaN, _ | _, NaN => false
  | Fin a, Fin b => Qle_bool a b
  | NInf, _ => true
  | _, PInf => true
  | _, _ => false
  end.

Definition ltb (x y : num) : bool :=
  match x, y with
  | NaN, _ | _, NaN => false
  | Fin a, Fin b => negb (Qle_bool b a)
  | NInf, NInf => false
  | NInf, _ => true
  | PInf, _ => false
  | Fin _, PInf => true
  | Fin _, NInf => false
  end.

Definition geb (x y : num) : bool := leb y x.
Definition gtb (x y : num) : bool := ltb y x.

(** [x === y] on numbers. *)
Definition eqb (x y : num) : bool :=
  match x, y with
  | Fin a, Fin b => Qeq_bool a b
  | PInf, PInf => true
  | NInf, NInf => true
  | _, _ => false
  end.

(** [Math.max(a, b)] and [Math.min(a, b)]: NaN if either is NaN. *)
Definition max (x y : num) : num :=
  match x, y with
  | NaN, _ | _, NaN => NaN
  | _, _ => if ltb x y then y else x
  end.

Definition min (x y : num) : num :=
  match x, y with
  | NaN, _ | _, NaN => NaN
  | _, _ => if ltb y x then y else x
  end.

(** [Math.max(...xs)] is -Infinity on no argument, [Math.min(...xs)] is
    +Infinity. *)
Definition max_list (xs : list num) : num := fold_left max xs NInf.
Definition min_list (xs : list num) : num := fold_left min xs PInf.

Definition floor (x : num) : num :=
  match x with
  | Fin q => Fin (inject_Z (Qfloor q))
  | _ => x
  end.

(** [Math.round]: halves go up. *)
Definition round (x : num) : num :=
  match x with
  | Fin q => Fin (inject_Z (Qfloor (q + (1 # 2))))
  | _ => x
  end.

(** Truthiness of a number in a condition: 0 and NaN are falsy. *)
Definition truthy (x : num) : bool :=
  match x with
  | Fin q => negb (Qeq_bool q 0)
  | PInf | NInf => true
  | NaN => false
  end.

(** [xs.reduce((sum, p) => sum + p, 0)] *)
Definition sum (xs : list num) : num := fold_left add xs (Fin 0).

Definition is_finite (x : num) : bool :=
  match x with Fin _ => true | _ => false end.

(** *** Doubles *)

Definition pow2 (e : Z) : Q := Qpower 2 e.

(** The exponent [e] of a positive rational: [2^e <= q < 2^(e+1)]. *)
Definition binade (q : Q) : Z :=
  let e0 := (Z.log2 (Qnum q) - Z.log2 (Zpos (Qden q)))%Z in
  if Qle_bool (pow2 e0) q then e0 else (e0 - 1)%Z.

(** The nearest integer, the even one of two that are as near. *)
Definition nearest_even (y : Q) : Z :=
  let f := Qfloor y in
  match Qcompare (y - inject_Z f) (1 # 2) with
  | Lt => f
  | Gt => (f + 1)%Z
  | Eq => if Z.even f then f else (f + 1)%Z
  end.

(** The unit in the last place of the doubles around a positive rational:
    53 significant bits, and an exponent of -1022 at least (subnormals). *)
Definition ulp (q : Q) : Q := pow2 (Z.max (binade q) (-1022) - 52).

(** The double nearest to a positive rational, +Infinity from [2^1024]. *)
Definition binary64_pos (q : Q) : num :=
  let r := inject_Z (nearest_even (q / ulp q)) * ulp q in
  if Qle_bool (pow2 1024) r then PInf else Fin (Qred r).

Definition binary64 (q : Q) : num :=
  match Qcompare q 0 with
  | Eq => Fin 0
  | Gt => binary64_pos q
  | Lt => neg (binary64_pos (- q))
  end.

(** The double that holds the exact result of an operation. *)
Definition double (x : num) : num :=
  match x with
  | Fin q => binary64 q
  | _ => x
  end.

End Num.

Infix "+" := Num.add : num_scope.
Infix "-" := Num.sub : num_scope.
Infix "*" := Num.mul : num_scope.
Infix "/" := Num.div : num_scope.
Infix "<=?" := Num.leb : num_scope.
Infix "<?" := Num.ltb : num_scope.
Infix ">=?" := Num.geb : num_scope.
Infix ">?" := Num.gtb : num_scope.
Infix "=?" := Num.eqb : num_scope.

(** Decimal literals of the source: [dec n d] is the rational n/d. *)
Definition dec (n : Z) (d : positive) : num := Fin (n # d).

(** The double that the decimal literal n/d denotes: [lit 1 10] is the
    double 0.1, which is 3602879701896397 / 2^55. *)
Definition lit (n : Z) (d : positive) : num := Num.binary64 (n # d).

(* ===================================================================== *)
(** ** Outcomes of a call *)
(* ===================================================================== *)

Inductive outcome (A : Type) : Type :=
| Returns (a : A)
| Throws          (* a TypeError: a property of undefined was read *)
| Loops.          (* the call does not return *)

Arguments Returns {A} a.
Arguments Throws {A}.
Arguments Loops {A}.

Definition bind {A B} (m : outcome A) (k : A -> outcome B) : outcome B :=
  match m with
  | Returns a => k a
  | Throws => Throws
  | Loops => Loops
  end.

Declare Scope outcome_scope.
Delimit Scope outcome_scope with outcome.
Notation "x <- m ;; k" := (bind m (fun x => k))
  (at level 61, m at next level, right associativity) : outcome_scope.
Local Open Scope outcome_scope.

(** [a[i]] followed by a property read: a TypeError when [a[i]] is undefined. *)
Definition at_index {A} (a : list A) (i : nat) : outcome A :=
  match nth_error a i with
  | Some x => Returns x
  | None => Throws
  end.

(** [a[a.length - 1]] followed by a property read. *)
Definition at_last {A} (a : list A) : outcome A :=
  match a with
  | [] => Throws
  | _ => at_index a (length a - 1)
  end.

Fixpoint mapM {A B} (f : A -> outcome B) (l : list A) : outcome (list B) :=
  match l with
  | [] => Returns []
  | x :: t =>
      y <- f x ;;
      ys <- mapM f t ;;
      Returns (y :: ys)
  end.

Fixpoint foldM {A S} (f : S -> A -> outcome S) (l : list A) (s : S) : outcome S :=
  match l with
  | [] => Returns s
  | x :: t => s' <- f s x ;; foldM f t s'
  end.

(** [a.slice(from, to)] for non-negative bounds and [a.slice(-n)]. *)
Definition slice {A} (a : list A) (from to : nat) : list A :=
  firstn (to - from) (skipn from a).

Definition slice_last {A} (n : nat) (a : list A) : list A :=
  skipn (length a - n) a.

(** [a.every((x, idx) => p x idx)] *)
Fixpoint every_from {A} (p : A -> nat -> bool) (a : list A) (idx : nat) : bool :=
  match a with
  | [] => true
  | x :: t => p x idx && every_from p t (S idx)
  end.

Definition every_idx {A} (p : A -> nat -> bool) (a : list A) : bool :=
  every_from p a 0.

(** [a.sort(cmp)] with a comparator [(a, b) => key b - key a]: a stable
    insertion sort, descending in the key.  An element stays before the ones
    it does not compare strictly below, so ties (and NaN differences) keep
    their order. *)
Section Sort.
Variable A : Type.
Variable key : A -> num.

Fixpoint insert_desc (x : A) (l : list A) : list A :=
  match l with
  | [] => [x]
  | y :: t =>
      if (key y <? key x)%num then x :: y :: t else y :: insert_desc x t
  end.

Definition sort_desc (l : list A) : list A :=
  fold_left (fun acc x => insert_desc x acc) l [].

(** The same with the comparator [(a, b) => key a - key b]: ascending. *)
Fixpoint insert_asc (x : A) (l : list A) : list A :=
  match l with
  | [] => [x]
  | y :: t =>
      if (key x <? key y)%num then x :: y :: t else y :: insert_asc x t
  end.

Definition sort_asc (l : list A) : list A :=
  fold_left (fun acc x => insert_asc x acc) l [].
End Sort.

(* ===================================================================== *)
(** ** Candles *)
(* ===================================================================== *)

Record Candle : Type := mkCandle {
  c_time : num;
  c_open : num;
  c_high : num;
  c_low : num;
  c_close : num;
  c_volume : num
}.

Definition CandleSeries := list Candle.

(* ===================================================================== *)
(** ** SupportResistanceAnalyzer *)
(* ===================================================================== *)

Module SupportResistanceAnalyzer.

Local Open Scope num_scope.

(** The constructor's fields. *)
Definition minTouchCount : nat := 2.
Definition priceTolerancePercent : num := dec 5 10.
Definition volumeWeightFactor : num := dec 3 10.

Record PivotPoint : Type := mkPivot {
  pv_index : nat;
  pv_price : num;
  pv_time : num;
  pv_volume : num
}.

Record Pivots : Type := mkPivots {
  highs : list PivotPoint;
  lows : list PivotPoint
}.

Record Cluster : Type := mkCluster {
  avgPrice : num;
  points : list PivotPoint
}.

Inductive LevelType : Type := support | resistance | psychological | volume.

(** A level object.  The fields that only some producers set are optional:
    [None] is a property the object does not have. *)
Record Level : Type := mkLevel {
  lv_price : num;
  lv_touches : nat;
  lv_strength : num;
  lv_firstTouch : option num;
  lv_lastTouch : option num;
  lv_volume : option num;
  lv_type : LevelType;
  lv_isRecent : bool;
  lv_isRelevant : bool
}.

Record Levels : Type := mkLevels {
  lvs_support : list Level;
  lvs_resistance : list Level;
  lvs_pivotPoints : Pivots;
  lvs_keyLevels : list Level
}.

(** *** findPivotPoints *)

Definition lookback : nat := 5.

Definition pivotStep (data : CandleSeries) (acc : Pivots) (i : nat) : outcome Pivots :=
  let segment := slice data (i - lookback) (i + lookback + 1) in
  current <- at_index segment lookback ;;
  let isHigh :=
    every_idx (fun candle idx =>
                 Nat.eqb idx lookback || (c_high candle <=? c_high current)) segment in
  let highs' :=
    if isHigh
    then highs acc ++ [mkPivot i (c_high current) (c_time current) (c_volume current)]
    else highs acc in
  let isLow :=
    every_idx (fun candle idx =>
                 Nat.eqb idx lookback || (c_low candle >=? c_low current)) segment in
  let lows' :=
    if isLow
    then lows acc ++ [mkPivot i (c_low current) (c_time current) (c_volume current)]
    else lows acc in
  Returns (mkPivots highs' lows').

(** The loop runs for [i = lookback; i < data.length - lookback; i++]. *)
Definition findPivotPoints (data : CandleSeries) : outcome Pivots :=
  foldM (pivotStep data)
        (seq lookback (length data - lookback - lookback))
        (mkPivots [] []).

(** *** clusterPivotPoints *)

Definition tolerance : num := priceTolerancePercent / Fin 100.

(** The relative distance test of the inner loop. *)
Definition withinTolerance (price avg : num) : bool :=
  Num.abs (price - avg) / avg <=? tolerance.

(** The inner loop: the first cluster (in creation order) whose running mean
    is within the tolerance takes the pivot and has its mean recomputed;
    [None] when no cluster took it. *)
Fixpoint addToCluster (pivot : PivotPoint) (clusters : list Cluster)
  : option (list Cluster) :=
  match clusters with
  | [] => None
  | cluster :: rest =>
      if withinTolerance (pv_price pivot) (avgPrice cluster) then
        let pts := points cluster ++ [pivot] in
        Some (mkCluster (Num.sum (map pv_price pts) / Num.of_nat (length pts)) pts
                :: rest)
      else option_map (cons cluster) (addToCluster pivot rest)
  end.

Definition clusterStep (clusters : list Cluster) (pivot : PivotPoint) : list Cluster :=
  match addToCluster pivot clusters with
  | Some clusters' => clusters'
  | None => clusters ++ [mkCluster (pv_price pivot) [pivot]]
  end.

Definition clusterPivotPoints (pivots : list PivotPoint) : list Cluster :=
  fold_left clusterStep pivots [].

(** *** isRecentLevel, isRelevantLevel *)

(** [data.slice(-recentPeriod)] with
    [recentPeriod = Math.min(50, data.length * 0.2)]: the bound is truncated
    to an integer, and [slice(-0)] is the whole array. *)
Definition recentData (data : CandleSeries) : CandleSeries :=
  let recentPeriod := Nat.min 50 (length data / 5) in
  if Nat.eqb recentPeriod 0 then data else slice_last recentPeriod data.

(** Both tests read only the price of the level they are given. *)
Definition isRecentLevel (price : num) (data : CandleSeries) : bool :=
  existsb (fun candle =>
             let tolerance := dec 1 100 in
             (Num.abs (c_high candle - price) / price <=? tolerance)
             || (Num.abs (c_low candle - price) / price <=? tolerance))
          (recentData data).

Definition isRelevantLevel (price : num) (data : CandleSeries) : outcome bool :=
  last <- at_last data ;;
  let currentPrice := c_close last in
  let distanceRatio := Num.abs (price - currentPrice) / currentPrice in
  Returns (distanceRatio <=? dec 15 100).

(** *** identifySupportLevels, identifyResistanceLevels *)

Definition levelOfCluster (ty : LevelType) (ohlcData : CandleSeries)
           (cluster : Cluster) : outcome Level :=
  let pts := points cluster in
  let price := avgPrice cluster in
  let isRecent := isRecentLevel price ohlcData in
  isRelevant <- isRelevantLevel price ohlcData ;;
  Returns {| lv_price := price;
             lv_touches := length pts;
             lv_strength := Fin 0;
             lv_firstTouch := Some (Num.min_list (map pv_time pts));
             lv_lastTouch := Some (Num.max_list (map pv_time pts));
             lv_volume := Some (Num.sum (map pv_volume pts) / Num.of_nat (length pts));
             lv_type := ty;
             lv_isRecent := isRecent;
             lv_isRelevant := isRelevant |}.

(** The two functions of the source differ in the [type] they write and in
    nothing else. *)
Definition identifyLevels (ty : LevelType) (pivots : list PivotPoint)
           (ohlcData : CandleSeries) : outcome (list Level) :=
  let clustered := clusterPivotPoints pivots in
  levels <- mapM (levelOfCluster ty ohlcData)
                 (filter (fun cluster => minTouchCount <=? length (points cluster))%nat
                         clustered) ;;
  Returns (sort_desc lv_strength levels).

Definition identifySupportLevels := identifyLevels support.
Definition identifyResistanceLevels := identifyLevels resistance.

(** *** countTouches *)

Definition touchesLevel (level tolerance : num) (candle : Candle) : bool :=
  let highDiff := Num.abs (c_high candle - level) / level in
  let lowDiff := Num.abs (c_low candle - level) / level in
  let closeDiff := Num.abs (c_close candle - level) / level in
  (highDiff <=? tolerance) || (lowDiff <=? tolerance) || (closeDiff <=? tolerance).

Definition countTouches (level : num) (data : CandleSeries) : nat :=
  length (filter (touchesLevel level (dec 5 1000)) data).

(** *** generateRoundNumbers *)

(** The step chosen at the head of [generateRoundNumbers]; 0.01 and 0.1 are
    the doubles of these literals. *)
Definition roundStep (maxPrice : num) : num :=
  if maxPrice <? Fin 1 then lit 1 100
  else if maxPrice <? Fin 10 then lit 1 10
  else if maxPrice <? Fin 100 then Fin 1
  else if maxPrice <? Fin 1000 then Fin 10
  else Fin 100.

(** [for (price = start; price <= maxPrice; price += step)], the sum rounded
    to a double at every turn.  [Loops] when the iterations allowed are used
    up and the test still holds: so it is when the step is too small to
    change the price ([price + step] rounds back to [price]), or when
    [maxPrice] is +Infinity.  The test then never fails, and the call does
    not return. *)
Fixpoint roundLoop (fuel : nat) (price maxPrice step : num) : outcome (list num) :=
  if price <=? maxPrice then
    match fuel with
    | O => Loops
    | S fuel' =>
        rest <- roundLoop fuel' (Num.double (price + step)) maxPrice step ;;
        Returns (if price >? Fin 0 then price :: rest else rest)
    end
  else Returns [].

(** The iterations allowed to the loop between finite bounds: a sum that
    the rounding does not bring back to the price is at least half a step
    above it, so that a loop that goes on after twice the number of steps
    between the bounds no longer moves.  Between other bounds the test fails
    at once or never. *)
Definition roundFuel (start maxPrice step : num) : nat :=
  match start, maxPrice, step with
  | Fin s, Fin m, Fin t => Z.to_nat (Qfloor (2 * (m - s) / t)) + 1
  | _, _, _ => 0
  end.

Definition generateRoundNumbers (minPrice maxPrice : num) : outcome (list num) :=
  let step := roundStep maxPrice in
  let start := Num.double (Num.floor (Num.double (minPrice / step)) * step) in
  roundLoop (roundFuel start maxPrice step) start maxPrice step.

(** *** findPsychologicalLevels *)

Definition psychLevel (roundPrice : num) (touchCount : nat) : Level :=
  {| lv_price := roundPrice;
     lv_touches := touchCount;
     lv_strength := Num.of_nat touchCount * Fin 10;
     lv_firstTouch := None;
     lv_lastTouch := None;
     lv_volume := None;
     lv_type := psychological;
     lv_isRecent := true;
     lv_isRelevant := true |}.

Definition findPsychologicalLevels (data : CandleSeries) : outcome (list Level) :=
  last <- at_last data ;;
  let currentPrice := c_close last in
  let priceRange := Num.double (currentPrice * lit 2 10) in
  let minPrice := Num.double (currentPrice - priceRange) in
  let maxPrice := Num.double (currentPrice + priceRange) in
  roundNumbers <- generateRoundNumbers minPrice maxPrice ;;
  Returns
    (flat_map (fun roundPrice =>
                 let touchCount := countTouches roundPrice data in
                 if (2 <=? touchCount)%nat then [psychLevel roundPrice touchCount] else [])
              roundNumbers).

(** *** calculateVolumeProfile, findVolumeLevels *)

Record VolumeNode : Type := mkNode {
  vn_price : num;
  vn_volume : num;
  vn_binLow : num;
  vn_binHigh : num
}.

Definition binVolume (binLow binHigh : num) (totalVolume : num) (candle : Candle) : num :=
  if (c_low candle <=? binHigh) && (c_high candle >=? binLow) then
    let overlap := Num.min (c_high candle) binHigh - Num.max (c_low candle) binLow in
    let candleRange := c_high candle - c_low candle in
    let volumeRatio := if candleRange >? Fin 0 then overlap / candleRange else Fin 1 in
    totalVolume + c_volume candle * volumeRatio
  else totalVolume.

Definition calculateVolumeProfile (data : CandleSeries) (bins : nat) : list VolumeNode :=
  let priceRange := Num.max_list (map c_high data) - Num.min_list (map c_low data) in
  let binSize := priceRange / Num.of_nat bins in
  let minPrice := Num.min_list (map c_low data) in
  map (fun i =>
         let binLow := minPrice + (Num.of_nat i * binSize) in
         let binHigh := binLow + binSize in
         let binMid := (binLow + binHigh) / Fin 2 in
         let totalVolume := fold_left (binVolume binLow binHigh) data (Fin 0) in
         mkNode binMid totalVolume binLow binHigh)
      (seq 0 bins).

Definition volumeLevel (node : VolumeNode) (touchCount : nat) : Level :=
  {| lv_price := vn_price node;
     lv_touches := touchCount;
     lv_strength := vn_volume node / Fin 1000;
     lv_firstTouch := None;
     lv_lastTouch := None;
     lv_volume := Some (vn_volume node);
     lv_type := volume;
     lv_isRecent := true;
     lv_isRelevant := true |}.

Definition findVolumeLevels (data : CandleSeries) : outcome (list Level) :=
  let volumeProfile := calculateVolumeProfile data 50 in
  let sortedByVolume := sort_desc vn_volume volumeProfile in
  (* Math.floor(sortedByVolume.length * 0.1) *)
  node <- at_index sortedByVolume (length sortedByVolume / 10) ;;
  let highVolumeThreshold := vn_volume node in
  Returns
    (flat_map (fun node =>
                 if vn_volume node >=? highVolumeThreshold
                 then [volumeLevel node (countTouches (vn_price node) data)]
                 else [])
              volumeProfile).

(** *** calculateLevelStrength *)

(** Reading a property the object does not have gives [undefined], which
    arithmetic turns into NaN and a condition takes as false. *)
Definition prop_num (p : option num) : num :=
  match p with Some x => x | None => NaN end.

Definition prop_truthy (p : option num) : bool :=
  match p with Some x => Num.truthy x | None => false end.

Definition levelStrength (ohlcData : CandleSeries) (currentPrice : num)
           (level : Level) : num :=
  let strength := Fin 0 in
  let strength := strength + Num.of_nat (lv_touches level) * Fin 15 in
  let strength :=
    if prop_truthy (lv_volume level) then
      let avgVolume := Num.sum (map c_volume ohlcData) / Num.of_nat (length ohlcData) in
      let volumeRatio := prop_num (lv_volume level) / avgVolume in
      strength + volumeRatio * volumeWeightFactor * Fin 20
    else strength in
  let strength := if lv_isRecent level then strength + Fin 10 else strength in
  let distanceRatio := Num.abs (lv_price level - currentPrice) / currentPrice in
  let strength :=
    if distanceRatio <? dec 5 100 then strength + Fin 15
    else if distanceRatio <? dec 1 10 then strength + Fin 10
    else strength in
  let dataLength := Num.of_nat (length ohlcData) in
  let levelAge := dataLength - prop_num (lv_lastTouch level) in
  let ageFactor := Num.max (Fin 0) (Fin 1 - (levelAge / dataLength)) in
  let strength := strength + ageFactor * Fin 10 in
  let strength :=
    match lv_type level with psychological => strength + Fin 5 | _ => strength end in
  let strength :=
    match lv_type level with volume => strength + Fin 8 | _ => strength end in
  Num.round strength.

Definition set_strength (level : Level) (s : num) : Level :=
  {| lv_price := lv_price level;
     lv_touches := lv_touches level;
     lv_strength := s;
     lv_firstTouch := lv_firstTouch level;
     lv_lastTouch := lv_lastTouch level;
     lv_volume := lv_volume level;
     lv_type := lv_type level;
     lv_isRecent := lv_isRecent level;
     lv_isRelevant := lv_isRelevant level |}.

Definition calculateLevelStrength (levels : list Level) (ohlcData : CandleSeries)
  : outcome (list Level) :=
  last <- at_last ohlcData ;;
  let currentPrice := c_close last in
  Returns (map (fun level => set_strength level (levelStrength ohlcData currentPrice level))
               levels).

(** *** findLevels *)

Definition findLevels (ohlcData : CandleSeries) : outcome Levels :=
  pivots <- findPivotPoints ohlcData ;;
  supportLevels <- identifySupportLevels (lows pivots) ohlcData ;;
  resistanceLevels <- identifyResistanceLevels (highs pivots) ohlcData ;;
  psychLevels <- findPsychologicalLevels ohlcData ;;
  volumeLevels <- findVolumeLevels ohlcData ;;
  support <- calculateLevelStrength supportLevels ohlcData ;;
  resistance <- calculateLevelStrength resistanceLevels ohlcData ;;
  Returns {| lvs_support := support;
             lvs_resistance := resistance;
             lvs_pivotPoints := pivots;
             lvs_keyLevels := psychLevels ++ volumeLevels |}.

(** *** findNearestLevels, findLevelsInRange, getStrongestLevels *)

(** A level object with the [distance] property [findNearestLevels] adds. *)
Record NearLevel : Type := mkNear {
  nl_level : Level;
  nl_distance : num
}.

(** [count] is 3 when the caller leaves it out. *)
Definition findNearestLevels (price : num) (levels : list Level) (count : nat)
  : list NearLevel :=
  firstn count
         (sort_asc nl_distance
                   (map (fun level => mkNear level (Num.abs (lv_price level - price)))
                        levels)).

Definition findLevelsInRange (minPrice maxPrice : num) (levels : list Level)
  : list Level :=
  filter (fun level => (lv_price level >=? minPrice) && (lv_price level <=? maxPrice))
         levels.

(** [levels.sort(...)] sorts the array of the caller in place: the call
    returns the first [count] levels (5 when left out) and leaves the array
    sorted.  The pair is the returned array and the array of the caller after
    the call. *)
Definition getStrongestLevels (levels : list Level) (count : nat)
  : list Level * list Level :=
  let sorted := sort_desc lv_strength levels in
  (firstn count sorted, sorted).

End SupportResistanceAnalyzer.

(* ===================================================================== *)
(** ** ElliottWaveAnalyzer *)
(* ===================================================================== *)

Module ElliottWaveAnalyzer.

Local Open Scope num_scope.

Inductive SwingType : Type := high | low.

Definition SwingType_eqb (a b : SwingType) : bool :=
  match a, b with
  | high, high | low, low => true
  | _, _ => false
  end.

Record SwingPoint : Type := mkSwing {
  sw_index : nat;
  sw_price : num;
  sw_type : SwingType;
  sw_time : num
}.

Inductive Direction : Type := bullish | bearish.
Inductive StructureType : Type := impulse | corrective.

Definition Direction_eqb (a b : Direction) : bool :=
  match a, b with
  | bullish, bullish | bearish, bearish => true
  | _, _ => false
  end.

(** *** filterSignificantSwings *)

Definition minSwingSize : num := dec 2 100.

(** [filtered[filtered.length - 1]], when there is one. *)
Definition last_opt {A} (l : list A) : option A :=
  match l with
  | [] => None
  | x :: t => Some (List.last t x)
  end.

Definition filterStep (filtered : list SwingPoint) (current : SwingPoint)
  : list SwingPoint :=
  match last_opt filtered with
  | None => filtered ++ [current]
  | Some last =>
      let priceChange := Num.abs (sw_price current - sw_price last) / sw_price last in
      if (priceChange >=? minSwingSize)
         && negb (SwingType_eqb (sw_type current) (sw_type last))
      then filtered ++ [current]
      else if SwingType_eqb (sw_type current) (sw_type last) then
        if (SwingType_eqb (sw_type current) high && (sw_price current >? sw_price last))
           || (SwingType_eqb (sw_type current) low && (sw_price current <? sw_price last))
        then removelast filtered ++ [current]
        else filtered
      else filtered
  end.

Definition filterSignificantSwings (swings : list SwingPoint) : list SwingPoint :=
  fold_left filterStep swings [].

(** *** identifySwingPoints *)

Definition lookback : nat := 5.

Definition swingStep (data : CandleSeries) (swings : list SwingPoint) (i : nat)
  : outcome (list SwingPoint) :=
  let segment := slice data (i - lookback) (i + lookback + 1) in
  current <- at_index segment lookback ;;
  let swings :=
    if c_high current =? Num.max_list (map c_high segment)
    then swings ++ [mkSwing i (c_high current) high (c_time current)]
    else swings in
  let swings :=
    if c_low current =? Num.min_list (map c_low segment)
    then swings ++ [mkSwing i (c_low current) low (c_time current)]
    else swings in
  Returns swings.

(** The unfiltered swings of the loop of [identifySwingPoints]. *)
Definition rawSwingPoints (data : CandleSeries) : outcome (list SwingPoint) :=
  foldM (swingStep data) (seq lookback (length data - lookback - lookback)) [].

Definition identifySwingPoints (data : CandleSeries) : outcome (list SwingPoint) :=
  swings <- rawSwingPoints data ;;
  Returns (filterSignificantSwings swings).

(** *** validateElliottRules *)

Record Rules : Type := mkRules {
  score : num;
  details : list string
}.

Definition award (cond : bool) (points : num) (detail : string) (r : Rules) : Rules :=
  if cond then mkRules (score r + points) (details r ++ [detail]) else r.

(** [const [w1, w2, w3, w4, w5] = waves] followed by reads of every
    [wK.price]: a TypeError on fewer than five waves. *)
Definition validateElliottRules (waves : list SwingPoint) (direction : Direction)
  : outcome Rules :=
  match waves with
  | w1 :: w2 :: w3 :: w4 :: w5 :: _ =>
      let r := mkRules (Fin 0) [] in
      match direction with
      | bullish =>
          let r := award (sw_price w2 >? sw_price w1) (Fin 15)
                         "Wave 2 retracement valid" r in
          let wave1Length := sw_price w2 - sw_price w1 in
          let wave3Length := sw_price w4 - sw_price w3 in
          let wave5Length := sw_price w5 - sw_price w4 in
          let r := award ((wave3Length >=? wave1Length) && (wave3Length >=? wave5Length))
                         (Fin 20) "Wave 3 is not shortest" r in
          let r := award (sw_price w4 >? sw_price w2) (Fin 15)
                         "Wave 4 does not overlap wave 1" r in
          let ratio := wave3Length / wave1Length in
          let r := award ((ratio >=? dec 15 10) && (ratio <=? dec 17 10)) (Fin 10)
                         "Wave 3 shows proper extension" r in
          Returns r
      | bearish =>
          let r := award (sw_price w2 <? sw_price w1) (Fin 15)
                         "Wave 2 retracement valid" r in
          let wave1Length := sw_price w1 - sw_price w2 in
          let wave3Length := sw_price w3 - sw_price w4 in
          let wave5Length := sw_price w4 - sw_price w5 in
          let r := award ((wave3Length >=? wave1Length) && (wave3Length >=? wave5Length))
                         (Fin 20) "Wave 3 is not shortest" r in
          let r := award (sw_price w4 <? sw_price w2) (Fin 15)
                         "Wave 4 does not overlap wave 1" r in
          let ratio := wave3Length / wave1Length in
          let r := award ((ratio >=? dec 15 10) && (ratio <=? dec 17 10)) (Fin 10)
                         "Wave 3 shows proper extension" r in
          Returns r
      end
  | _ => Throws
  end.

(** *** calculateWaveRatios, isNearFibRatio, checkFibonacciRelationships *)

Record WaveRatios : Type := mkRatios {
  wave2Retracement : num;
  wave3Extension : num;
  wave4Retracement : num;
  wave5Ratio : num
}.

Definition calculateWaveRatios (waves : list SwingPoint) : outcome WaveRatios :=
  match waves with
  | w1 :: w2 :: w3 :: w4 :: w5 :: _ =>
      let wave1Length := Num.abs (sw_price w2 - sw_price w1) in
      let wave2Length := Num.abs (sw_price w3 - sw_price w2) in
      let wave3Length := Num.abs (sw_price w4 - sw_price w3) in
      let wave4Length := Num.abs (sw_price w5 - sw_price w4) in
      let wave5Length := Num.abs (sw_price w5 - sw_price w4) in
      Returns {| wave2Retracement := wave2Length / wave1Length;
                 wave3Extension := wave3Length / wave1Length;
                 wave4Retracement := wave4Length / wave3Length;
                 wave5Ratio := wave5Length / wave1Length |}
  | _ => Throws
  end.

Definition isNearFibRatio (value : num) (targets : list num) : bool :=
  existsb (fun target => Num.abs (value - target) <=? dec 1 10) targets.

(** The score of [checkFibonacciRelationships]; its formatted detail strings,
    which no caller reads, are left out. *)
Definition checkFibonacciRelationships (waves : list SwingPoint) : outcome num :=
  ratios <- calculateWaveRatios waves ;;
  let score := Fin 0 in
  let score :=
    if isNearFibRatio (wave2Retracement ratios) [dec 5 10; dec 618 1000; dec 786 1000]
    then score + Fin 10 else score in
  let score :=
    if isNearFibRatio (wave3Extension ratios) [dec 1618 1000; dec 2618 1000]
    then score + Fin 15 else score in
  let score :=
    if isNearFibRatio (wave4Retracement ratios) [dec 236 1000; dec 382 1000; dec 5 10]
    then score + Fin 10 else score in
  let score :=
    if isNearFibRatio (wave5Ratio ratios) [Fin 1; dec 618 1000]
    then score + Fin 10 else score in
  Returns score.

(** *** analyzeImpulseWave, analyzeCorrectiveWave *)

(** The object both analyses return; [{ isValid: false }] has no other
    property. *)
Record WaveCheck : Type := mkCheck {
  wc_isValid : bool;
  wc_direction : option Direction;
  wc_confidence : option num;
  wc_rules : list string
}.

Definition invalidCheck : WaveCheck := mkCheck false None None [].

Definition analyzeImpulseWave (waves : list SwingPoint) : outcome WaveCheck :=
  match waves with
  | [w1; w2; w3; w4; w5] =>
      let confidence := Fin 0 in
      let differ a b := negb (SwingType_eqb (sw_type a) (sw_type b)) in
      let same a b := SwingType_eqb (sw_type a) (sw_type b) in
      let alternationCorrect :=
        (differ w1 w2 && differ w2 w3 && differ w3 w4 && differ w4 w5)
        && (same w1 w3 && same w3 w5)
        && same w2 w4 in
      if negb alternationCorrect then Returns invalidCheck
      else
        let confidence := confidence + Fin 20 in
        let direction := match sw_type w1 with low => bullish | high => bearish end in
        rules <- validateElliottRules waves direction ;;
        let confidence := confidence + score rules in
        fibScore <- checkFibonacciRelationships waves ;;
        let confidence := confidence + fibScore in
        Returns {| wc_isValid := confidence >=? Fin 60;
                   wc_direction := Some direction;
                   wc_confidence := Some (Num.min confidence (Fin 95));
                   wc_rules := details rules |}
  | _ => Returns invalidCheck
  end.

Definition analyzeCorrectiveWave (waves : list SwingPoint) : WaveCheck :=
  match waves with
  | [wA; wB; wC] =>
      let confidence := Fin 0 in
      let alternationCorrect :=
        negb (SwingType_eqb (sw_type wA) (sw_type wB))
        && negb (SwingType_eqb (sw_type wB) (sw_type wC))
        && SwingType_eqb (sw_type wA) (sw_type wC) in
      if negb alternationCorrect then invalidCheck
      else
        let confidence := confidence + Fin 20 in
        let direction := match sw_type wA with high => bearish | low => bullish end in
        let waveALength := Num.abs (sw_price wB - sw_price wA) in
        let waveCLength := Num.abs (sw_price wC - sw_price wB) in
        let cToARatio := waveCLength / waveALength in
        let confidence :=
          if isNearFibRatio cToARatio [Fin 1; dec 1618 1000]
          then confidence + Fin 20 else confidence in
        let bRetracement := Num.abs (sw_price wB - sw_price wA) / waveALength in
        let confidence :=
          if isNearFibRatio bRetracement [dec 5 10; dec 618 1000; dec 786 1000]
          then confidence + Fin 15 else confidence in
        {| wc_isValid := confidence >=? Fin 40;
           wc_direction := Some direction;
           wc_confidence := Some (Num.min confidence (Fin 90));
           wc_rules := [] |}
  | _ => invalidCheck
  end.

(** *** identifyWaveStructure *)

Record Structure : Type := mkStructure {
  st_type : StructureType;
  st_waves : list SwingPoint;
  st_direction : option Direction;
  st_confidence : option num;
  st_startIndex : nat;
  st_endIndex : nat
}.

Definition conf_num (p : option num) : num :=
  match p with Some x => x | None => NaN end.

Definition impulseCandidates (swings : list SwingPoint) : outcome (list Structure) :=
  foldM (fun structures i =>
           let fiveWaves := slice swings i (i + 5) in
           impulseStructure <- analyzeImpulseWave fiveWaves ;;
           Returns (if wc_isValid impulseStructure
                    then structures ++
                         [mkStructure impulse fiveWaves (wc_direction impulseStructure)
                                      (wc_confidence impulseStructure) i (i + 4)]
                    else structures))
        (seq 0 (length swings + 1 - 5)) [].

Definition correctiveCandidates (swings : list SwingPoint) : list Structure :=
  flat_map (fun i =>
              let threeWaves := slice swings i (i + 3) in
              let correctiveStructure := analyzeCorrectiveWave threeWaves in
              if wc_isValid correctiveStructure
              then [mkStructure corrective threeWaves (wc_direction correctiveStructure)
                                (wc_confidence correctiveStructure) i (i + 2)]
              else [])
           (seq 0 (length swings + 1 - 3)).

Definition identifyWaveStructure (swings : list SwingPoint) : outcome (option Structure) :=
  if (length swings <? 5)%nat then Returns None
  else
    impulses <- impulseCandidates swings ;;
    let structures := impulses ++ correctiveCandidates swings in
    Returns (List.hd_error (sort_desc (fun s => conf_num (st_confidence s)) structures)).

(** *** determineCurrentWave *)

Definition string_of_nat (n : nat) : string :=
  DecimalString.NilZero.string_of_uint (Nat.to_uint n).

Definition determineCurrentWave (structure : option Structure) (ohlcData : CandleSeries)
  : outcome (option string) :=
  match structure with
  | None => Returns None
  | Some structure =>
      last <- at_last ohlcData ;;
      let currentPrice := c_close last in
      let waveCount := length (st_waves structure) in
      match st_type structure with
      | impulse =>
          if Nat.eqb waveCount 5 then
            lastWave <- at_last (st_waves structure) ;;
            let isDir d :=
              match st_direction structure with
              | Some d' => Direction_eqb d d'
              | None => false
              end in
            if isDir bullish && (currentPrice <? sw_price lastWave)
            then Returns (Some "A (corrective)"%string)
            else if isDir bearish && (currentPrice >? sw_price lastWave)
            then Returns (Some "A (corrective)"%string)
            else Returns (Some "5 (completing)"%string)
          else Returns (Some (string_of_nat waveCount ++ " (impulse)")%string)
      | corrective =>
          if (waveCount <=? 3)%nat then
            (* waveLabels[waveCount - 1] inside a template string *)
            let label :=
              match waveCount with
              | 1%nat => "A" | 2%nat => "B" | 3%nat => "C" | _ => "undefined"
              end%string in
            Returns (Some (label ++ " (corrective)")%string)
          else Returns (Some "C (completing)"%string)
      end
  end.

(** *** calculateWaveConfidence *)

Definition calculateWaveConfidence (structure : option Structure) : num :=
  match structure with
  | None => Fin 0
  | Some structure =>
      let confidence := conf_num (st_confidence structure) in
      let waveCount := length (st_waves structure) in
      let confidence :=
        match st_type structure with
        | impulse => if Nat.eqb waveCount 5 then confidence + Fin 10 else confidence
        | corrective => if Nat.eqb waveCount 3 then confidence + Fin 10 else confidence
        end in
      let confidence :=
        if (waveCount <? 3)%nat then confidence - Fin 20 else confidence in
      Num.max (Fin 0) (Num.min (Fin 95) confidence)
  end.

(** *** calculateWaveProjections *)

Record ImpulseProjections : Type := mkImpulseProj {
  wave5_equal : option num;
  wave5_618 : option num
}.

Record CorrectiveProjections : Type := mkCorrectiveProj {
  waveC_equal : option num;
  waveC_1618 : option num
}.

Record Projections : Type := mkProjections {
  pr_impulse : option ImpulseProjections;
  pr_corrective : option CorrectiveProjections
}.

Definition isDirection (structure : Structure) (d : Direction) : bool :=
  match st_direction structure with
  | Some d' => Direction_eqb d d'
  | None => false
  end.

Definition calculateImpulseProjections (structure : Structure) (currentPrice : num)
  : outcome ImpulseProjections :=
  let waves := st_waves structure in
  if (3 <=? length waves)%nat then
    w0 <- at_index waves 0 ;;
    w1 <- at_index waves 1 ;;
    let wave1Length := Num.abs (sw_price w1 - sw_price w0) in
    w2 <- at_index waves 2 ;;
    w4 <- at_index waves 4 ;;
    let equal :=
      if isDirection structure bullish
      then sw_price w4 + wave1Length
      else sw_price w4 - wave1Length in
    let wave1to3Range := Num.abs (sw_price w2 - sw_price w0) in
    let p618 :=
      if isDirection structure bullish
      then sw_price w4 + (wave1to3Range * dec 618 1000)
      else sw_price w4 - (wave1to3Range * dec 618 1000) in
    Returns (mkImpulseProj (Some equal) (Some p618))
  else Returns (mkImpulseProj None None).

Definition calculateCorrectiveProjections (structure : Structure) (currentPrice : num)
  : outcome CorrectiveProjections :=
  let waves := st_waves structure in
  if (2 <=? length waves)%nat then
    w0 <- at_index waves 0 ;;
    w1 <- at_index waves 1 ;;
    let waveALength := Num.abs (sw_price w1 - sw_price w0) in
    let equal :=
      if isDirection structure bearish
      then sw_price w1 - waveALength
      else sw_price w1 + waveALength in
    let p1618 :=
      if isDirection structure bearish
      then sw_price w1 - (waveALength * dec 1618 1000)
      else sw_price w1 + (waveALength * dec 1618 1000) in
    Returns (mkCorrectiveProj (Some equal) (Some p1618))
  else Returns (mkCorrectiveProj None None).

Definition calculateWaveProjections (structure : option Structure)
           (ohlcData : CandleSeries) : outcome (option Projections) :=
  match structure with
  | None => Returns None
  | Some structure =>
      last <- at_last ohlcData ;;
      let currentPrice := c_close last in
      match st_type structure with
      | impulse =>
          p <- calculateImpulseProjections structure currentPrice ;;
          Returns (Some (mkProjections (Some p) None))
      | corrective =>
          p <- calculateCorrectiveProjections structure currentPrice ;;
          Returns (Some (mkProjections None (Some p)))
      end
  end.

(** *** analyzeWave *)

(** The result object; the early return has no [projections] property, which
    is the outer [None] of [wr_projections]. *)
Record WaveResult : Type := mkWaveResult {
  wr_isValid : bool;
  wr_currentWave : option string;
  wr_confidence : num;
  wr_waveStructure : option Structure;
  wr_projections : option (option Projections)
}.

Definition analyzeWave (ohlcData : CandleSeries) : outcome WaveResult :=
  swingPoints <- identifySwingPoints ohlcData ;;
  if (length swingPoints <? 5)%nat then
    Returns {| wr_isValid := false;
               wr_currentWave := None;
               wr_confidence := Fin 0;
               wr_waveStructure := None;
               wr_projections := None |}
  else
    waveStructure <- identifyWaveStructure swingPoints ;;
    currentWave <- determineCurrentWave waveStructure ohlcData ;;
    let confidence := calculateWaveConfidence waveStructure in
    projections <- calculateWaveProjections waveStructure ohlcData ;;
    Returns {| wr_isValid := confidence >=? Fin 60;
               wr_currentWave := currentWave;
               wr_confidence := confidence;
               wr_waveStructure := waveStructure;
               wr_projections := Some projections |}.

End ElliottWaveAnalyzer.

(* ===================================================================== *)
(** ** SmartMoneyAnalyzer *)
(* ===================================================================== *)

Module SmartMoneyAnalyzer.

Local Open Scope num_scope.

(** The constructor's fields. *)
Definition orderBlockMinSize : num := dec 2 100.
Definition fvgMinSize : num := dec 5 1000.
Definition liquidityThreshold : num := dec 15 10.

(** The strings ['bullish'], ['bearish'] and ['neutral']. *)
Inductive Bias : Type := bullish | bearish | neutral.

Definition Bias_eqb (a b : Bias) : bool :=
  match a, b with
  | bullish, bullish | bearish, bearish | neutral, neutral => true
  | _, _ => false
  end.

Record Swing : Type := mkSwing {
  sw_index : nat;
  sw_price : num;
  sw_time : num;
  sw_volume : num
}.

(** *** findSwingHighs, findSwingLows *)

Definition swingHighStep (lookback : nat) (data : CandleSeries)
           (swings : list Swing) (i : nat) : outcome (list Swing) :=
  let segment := slice data (i - lookback) (i + lookback + 1) in
  current <- at_index segment lookback ;;
  Returns (if c_high current =? Num.max_list (map c_high segment)
           then swings ++ [mkSwing i (c_high current) (c_time current) (c_volume current)]
           else swings).

Definition swingLowStep (lookback : nat) (data : CandleSeries)
           (swings : list Swing) (i : nat) : outcome (list Swing) :=
  let segment := slice data (i - lookback) (i + lookback + 1) in
  current <- at_index segment lookback ;;
  Returns (if c_low current =? Num.min_list (map c_low segment)
           then swings ++ [mkSwing i (c_low current) (c_time current) (c_volume current)]
           else swings).

Definition findSwingHighsWith (lookback : nat) (data : CandleSeries)
  : outcome (list Swing) :=
  foldM (swingHighStep lookback data)
        (seq lookback (length data - lookback - lookback)) [].

Definition findSwingLowsWith (lookback : nat) (data : CandleSeries)
  : outcome (list Swing) :=
  foldM (swingLowStep lookback data)
        (seq lookback (length data - lookback - lookback)) [].

(** The calls of the analyzer leave [lookback] at its default, 5. *)
Definition findSwingHighs := findSwingHighsWith 5.
Definition findSwingLows := findSwingLowsWith 5.

(** *** detectBreakOfStructure, detectChangeOfCharacter *)

Record Break : Type := mkBreak {
  br_type : Bias;
  br_level : num;
  br_confirmed : bool
}.

Definition last_opt {A} (l : list A) : option A :=
  match l with
  | [] => None
  | x :: t => Some (List.last t x)
  end.

Definition detectBreakOfStructure (data : CandleSeries) (swingHighs swingLows : list Swing)
  : outcome (option Break) :=
  last <- at_last data ;;
  let currentPrice := c_close last in
  let bearishBreak :=
    match last_opt swingLows with
    | Some recentLow =>
        if currentPrice <? sw_price recentLow
        then Some (mkBreak bearish (sw_price recentLow) true)
        else None
    | None => None
    end in
  match last_opt swingHighs with
  | Some recentHigh =>
      if currentPrice >? sw_price recentHigh
      then Returns (Some (mkBreak bullish (sw_price recentHigh) true))
      else Returns bearishBreak
  | None => Returns bearishBreak
  end.

Definition detectChangeOfCharacter (data : CandleSeries) (swingHighs swingLows : list Swing)
  : outcome (option Break) :=
  if (length swingHighs <? 2)%nat || (length swingLows <? 2)%nat then Returns None
  else
    let lastTwoHighs := slice_last 2 swingHighs in
    let lastTwoLows := slice_last 2 swingLows in
    last <- at_last data ;;
    let currentPrice := c_close last in
    h0 <- at_index lastTwoHighs 0 ;;
    h1 <- at_index lastTwoHighs 1 ;;
    if (sw_price h1 <? sw_price h0) && (currentPrice >? sw_price h0)
    then Returns (Some (mkBreak bullish (sw_price h0) true))
    else
      l0 <- at_index lastTwoLows 0 ;;
      l1 <- at_index lastTwoLows 1 ;;
      if (sw_price l1 >? sw_price l0) && (currentPrice <? sw_price l0)
      then Returns (Some (mkBreak bearish (sw_price l0) true))
      else Returns None.

(** *** analyzeMarketStructure *)

Record MarketStructure : Type := mkStructure {
  trend : Bias;
  higherHighs : nat;
  higherLows : nat;
  lowerHighs : nat;
  lowerLows : nat;
  breakOfStructure : option Break;
  changeOfCharacter : option Break
}.

(** The number of [i >= 1] with [swings[i].price > swings[i - 1].price], and
    of the others. *)
Fixpoint countRises (swings : list Swing) : nat * nat :=
  match swings with
  | a :: (b :: _) as rest =>
      let '(up, down) := countRises rest in
      if sw_price b >? sw_price a then (S up, down) else (up, S down)
  | _ => (0, 0)%nat
  end.

Definition analyzeMarketStructure (data : CandleSeries) : outcome MarketStructure :=
  swingHighs <- findSwingHighs data ;;
  swingLows <- findSwingLows data ;;
  let '(higherHighs, lowerHighs) := countRises swingHighs in
  let '(higherLows, lowerLows) := countRises swingLows in
  let trend :=
    if (lowerHighs <? higherHighs)%nat && (lowerLows <? higherLows)%nat then bullish
    else if (higherHighs <? lowerHighs)%nat && (higherLows <? lowerLows)%nat then bearish
    else neutral in
  bos <- detectBreakOfStructure data swingHighs swingLows ;;
  choch <- detectChangeOfCharacter data swingHighs swingLows ;;
  Returns {| trend := trend;
             higherHighs := higherHighs;
             higherLows := higherLows;
             lowerHighs := lowerHighs;
             lowerLows := lowerLows;
             breakOfStructure := bos;
             changeOfCharacter := choch |}.

(** *** findOrderBlocks *)

Record OrderBlock : Type := mkOrderBlock {
  ob_type : Bias;
  ob_high : num;
  ob_low : num;
  ob_index : nat;
  ob_time : num;
  ob_volume : num;
  ob_strength : num;
  ob_tested : bool
}.

Definition isBullishOrderBlock (prev current next : Candle) (avgVolume : num) : bool :=
  let bodySize := c_close current - c_open current in
  let candleRange := c_high current - c_low current in
  let bodyRatio := bodySize / candleRange in
  (c_close current >? c_open current)
  && (bodyRatio >? dec 6 10)
  && (c_volume current >? avgVolume * dec 12 10)
  && (c_close next >? c_close current).

Definition isBearishOrderBlock (prev current next : Candle) (avgVolume : num) : bool :=
  let bodySize := c_open current - c_close current in
  let candleRange := c_high current - c_low current in
  let bodyRatio := bodySize / candleRange in
  (c_close current <? c_open current)
  && (bodyRatio >? dec 6 10)
  && (c_volume current >? avgVolume * dec 12 10)
  && (c_close next <? c_close current).

Definition calculateOrderBlockStrength (candle : Candle) (avgVolume : num) : num :=
  let volumeRatio := c_volume candle / avgVolume in
  let bodySize := Num.abs (c_close candle - c_open candle) in
  let candleRange := c_high candle - c_low candle in
  let bodyRatio := bodySize / candleRange in
  Num.round ((volumeRatio * Fin 30) + (bodyRatio * Fin 20)).

(** The test of one later candle in [markTestedOrderBlocks]. *)
Definition testsBlock (ob : OrderBlock) (candle : Candle) : bool :=
  match ob_type ob with
  | bullish => (c_low candle <=? ob_high ob) && (c_low candle >=? ob_low ob)
  | _ => (c_high candle >=? ob_low ob) && (c_high candle <=? ob_high ob)
  end.

Definition set_tested (ob : OrderBlock) (tested : bool) : OrderBlock :=
  {| ob_type := ob_type ob;
     ob_high := ob_high ob;
     ob_low := ob_low ob;
     ob_index := ob_index ob;
     ob_time := ob_time ob;
     ob_volume := ob_volume ob;
     ob_strength := ob_strength ob;
     ob_tested := tested |}.

(** The inner loop runs over [data[ob.index + 1 ..]] and stops at the first
    candle that passes the test. *)
Definition markTestedOrderBlocks (orderBlocks : list OrderBlock) (data : CandleSeries)
  : list OrderBlock :=
  map (fun ob => set_tested ob (existsb (testsBlock ob) (skipn (ob_index ob + 1) data)))
      orderBlocks.

Definition orderBlockStep (data : CandleSeries) (avgVolume : num)
           (orderBlocks : list OrderBlock) (i : nat) : outcome (list OrderBlock) :=
  prev <- at_index data (i - 1) ;;
  current <- at_index data i ;;
  next <- at_index data (i + 1) ;;
  let block ty :=
    mkOrderBlock ty (c_high current) (c_low current) i (c_time current)
                 (c_volume current) (calculateOrderBlockStrength current avgVolume)
                 false in
  let orderBlocks :=
    if isBullishOrderBlock prev current next avgVolume
    then orderBlocks ++ [block bullish] else orderBlocks in
  let orderBlocks :=
    if isBearishOrderBlock prev current next avgVolume
    then orderBlocks ++ [block bearish] else orderBlocks in
  Returns orderBlocks.

(** The blocks of the loop of [findOrderBlocks], before they are marked. *)
Definition rawOrderBlocks (data : CandleSeries) : outcome (list OrderBlock) :=
  let avgVolume := Num.sum (map c_volume data) / Num.of_nat (length data) in
  foldM (orderBlockStep data avgVolume) (seq 1 (length data - 1 - 1)) [].

Definition findOrderBlocks (data : CandleSeries) : outcome (list OrderBlock) :=
  orderBlocks <- rawOrderBlocks data ;;
  Returns (markTestedOrderBlocks orderBlocks data).

(** *** findFairValueGaps *)

Record FairValueGap : Type := mkGap {
  fvg_type : Bias;
  fvg_high : num;
  fvg_low : num;
  fvg_index : nat;
  fvg_time : num;
  fvg_size : num;
  fvg_filled : bool
}.

Definition fillsGap (fvg : FairValueGap) (candle : Candle) : bool :=
  match fvg_type fvg with
  | bullish => (c_low candle <=? fvg_high fvg) && (c_low candle >=? fvg_low fvg)
  | _ => (c_high candle >=? fvg_low fvg) && (c_high candle <=? fvg_high fvg)
  end.

Definition set_filled (fvg : FairValueGap) (filled : bool) : FairValueGap :=
  {| fvg_type := fvg_type fvg;
     fvg_high := fvg_high fvg;
     fvg_low := fvg_low fvg;
     fvg_index := fvg_index fvg;
     fvg_time := fvg_time fvg;
     fvg_size := fvg_size fvg;
     fvg_filled := filled |}.

Definition markFilledFVGs (fvgs : list FairValueGap) (data : CandleSeries)
  : list FairValueGap :=
  map (fun fvg => set_filled fvg (existsb (fillsGap fvg) (skipn (fvg_index fvg + 1) data)))
      fvgs.

Definition gapStep (data : CandleSeries) (fvgs : list FairValueGap) (i : nat)
  : outcome (list FairValueGap) :=
  prev <- at_index data (i - 1) ;;
  current <- at_index data i ;;
  next <- at_index data (i + 1) ;;
  let fvgs :=
    if c_high prev <? c_low next then
      let gapSize := (c_low next - c_high prev) / c_high prev in
      if gapSize >=? fvgMinSize
      then fvgs ++ [mkGap bullish (c_low next) (c_high prev) i (c_time current)
                          gapSize false]
      else fvgs
    else fvgs in
  let fvgs :=
    if c_low prev >? c_high next then
      let gapSize := (c_low prev - c_high next) / c_high next in
      if gapSize >=? fvgMinSize
      then fvgs ++ [mkGap bearish (c_low prev) (c_high next) i (c_time current)
                          gapSize false]
      else fvgs
    else fvgs in
  Returns fvgs.

Definition findFairValueGaps (data : CandleSeries) : outcome (list FairValueGap) :=
  fvgs <- foldM (gapStep data) (seq 1 (length data - 1 - 1)) [] ;;
  Returns (markFilledFVGs fvgs data).

(** *** findEqualLevels, findLiquidityZones *)

Inductive ZoneType : Type := sell_side | buy_side.

Record LiquidityZone : Type := mkZone {
  lz_type : ZoneType;
  lz_level : num;
  lz_count : nat;
  lz_strength : num;
  lz_swept : bool
}.

Definition equalTolerance : num := dec 5 1000.

Fixpoint addToGroup (swing : Swing) (groups : list (list Swing))
  : option (list (list Swing)) :=
  match groups with
  | [] => None
  | group :: rest =>
      let avgPrice := Num.sum (map sw_price group) / Num.of_nat (length group) in
      let priceDiff := Num.abs (sw_price swing - avgPrice) / avgPrice in
      if priceDiff <=? equalTolerance
      then Some ((group ++ [swing]) :: rest)
      else option_map (cons group) (addToGroup swing rest)
  end.

Definition findEqualLevels (swings : list Swing) : list (list Swing) :=
  let groups :=
    fold_left (fun groups swing =>
                 match addToGroup swing groups with
                 | Some groups' => groups'
                 | None => groups ++ [[swing]]
                 end) swings [] in
  filter (fun group => (2 <=? length group)%nat) groups.

Definition zonesOf (ty : ZoneType) (groups : list (list Swing)) : outcome (list LiquidityZone) :=
  foldM (fun zones group =>
           if (2 <=? length group)%nat then
             first <- at_index group 0 ;;
             Returns (zones ++ [mkZone ty (sw_price first) (length group)
                                       (Num.of_nat (length group) * Fin 15) false])
           else Returns zones)
        groups [].

Definition set_swept (zone : LiquidityZone) (swept : bool) : LiquidityZone :=
  {| lz_type := lz_type zone;
     lz_level := lz_level zone;
     lz_count := lz_count zone;
     lz_strength := lz_strength zone;
     lz_swept := swept |}.

Definition markSweptLiquidity (liquidityZones : list LiquidityZone) (data : CandleSeries)
  : outcome (list LiquidityZone) :=
  last <- at_last data ;;
  let currentPrice := c_close last in
  Returns
    (map (fun zone =>
            set_swept zone
              (match lz_type zone with
               | sell_side => currentPrice >? lz_level zone
               | buy_side => currentPrice <? lz_level zone
               end))
         liquidityZones).

Definition findLiquidityZones (data : CandleSeries) : outcome (list LiquidityZone) :=
  swingHighs <- findSwingHighs data ;;
  swingLows <- findSwingLows data ;;
  sellSide <- zonesOf sell_side (findEqualLevels swingHighs) ;;
  buySide <- zonesOf buy_side (findEqualLevels swingLows) ;;
  markSweptLiquidity (sellSide ++ buySide) data.

(** *** determineBias, calculateConfidence, identifyKeyLevels *)

Inductive KeyLevelType : Type := order_block | fair_value_gap | liquidity.

Record KeyLevel : Type := mkKeyLevel {
  kl_price : num;
  kl_type : KeyLevelType;
  kl_direction : Bias;
  kl_strength : num
}.

Record Analysis : Type := mkAnalysis {
  an_bias : Bias;
  an_confidence : nat;
  an_orderBlocks : list OrderBlock;
  an_fairValueGaps : list FairValueGap;
  an_liquidityZones : list LiquidityZone;
  an_marketStructure : MarketStructure;
  an_keyLevels : list KeyLevel
}.

Definition breakScores (b : option Break) (points : nat) : nat * nat :=
  match b with
  | Some br => match br_type br with bullish => (points, 0) | _ => (0, points) end%nat
  | None => (0, 0)%nat
  end.

Definition determineBias (marketStructure : MarketStructure)
           (orderBlocks : list OrderBlock) (fairValueGaps : list FairValueGap) : Bias :=
  let add2 (a b : nat * nat) := (fst a + fst b, snd a + snd b)%nat in
  let s :=
    match trend marketStructure with
    | bullish => (30, 0) | bearish => (0, 30) | neutral => (0, 0)
    end%nat in
  let s := add2 s (breakScores (breakOfStructure marketStructure) 25) in
  let s := add2 s (breakScores (changeOfCharacter marketStructure) 20) in
  let s :=
    fold_left (fun s ob =>
                 match ob_type ob, ob_tested ob with
                 | bullish, false => add2 s (10, 0)%nat
                 | bearish, false => add2 s (0, 10)%nat
                 | _, _ => s
                 end)
              (slice_last 3 orderBlocks) s in
  let s :=
    fold_left (fun s fvg =>
                 match fvg_type fvg with
                 | bullish => add2 s (5, 0)%nat
                 | _ => add2 s (0, 5)%nat
                 end)
              (filter (fun fvg => negb (fvg_filled fvg)) fairValueGaps) s in
  let '(bullishScore, bearishScore) := s in
  if (bearishScore + 10 <? bullishScore)%nat then bullish
  else if (bullishScore + 10 <? bearishScore)%nat then bearish
  else neutral.

Definition calculateConfidence (marketStructure : MarketStructure)
           (orderBlocks : list OrderBlock) (fairValueGaps : list FairValueGap)
           (liquidityZones : list LiquidityZone) : nat :=
  let present {A} (o : option A) := match o with Some _ => true | None => false end in
  let confidence := 0%nat in
  let confidence :=
    if negb (Bias_eqb (trend marketStructure) neutral)
    then (confidence + 20)%nat else confidence in
  let confidence :=
    if present (breakOfStructure marketStructure)
    then (confidence + 25)%nat else confidence in
  let confidence :=
    if present (changeOfCharacter marketStructure)
    then (confidence + 20)%nat else confidence in
  let validOrderBlocks := filter (fun ob => ob_strength ob >? Fin 30) orderBlocks in
  let confidence := (confidence + Nat.min (length validOrderBlocks * 10) 30)%nat in
  let significantFVGs := filter (fun fvg => fvg_size fvg >? dec 1 100) fairValueGaps in
  let confidence := (confidence + Nat.min (length significantFVGs * 5) 15)%nat in
  let activeLiquidity := filter (fun lz => negb (lz_swept lz)) liquidityZones in
  let confidence := (confidence + Nat.min (length activeLiquidity * 5) 10)%nat in
  Nat.min confidence 95.

Definition identifyKeyLevels (orderBlocks : list OrderBlock)
           (fairValueGaps : list FairValueGap) (liquidityZones : list LiquidityZone)
  : list KeyLevel :=
  let untestedOBs :=
    filter (fun ob => negb (ob_tested ob) && (ob_strength ob >? Fin 30)) orderBlocks in
  let unfilledFVGs := filter (fun fvg => negb (fvg_filled fvg)) fairValueGaps in
  let unsweptLiquidity := filter (fun lz => negb (lz_swept lz)) liquidityZones in
  let keyLevels :=
    map (fun ob =>
           mkKeyLevel (match ob_type ob with bullish => ob_low ob | _ => ob_high ob end)
                      order_block (ob_type ob) (ob_strength ob))
        untestedOBs
    ++ map (fun fvg =>
              mkKeyLevel ((fvg_high fvg + fvg_low fvg) / Fin 2)
                         fair_value_gap (fvg_type fvg) (fvg_size fvg * Fin 1000))
           unfilledFVGs
    ++ map (fun lz =>
              mkKeyLevel (lz_level lz) liquidity
                         (match lz_type lz with buy_side => bullish | sell_side => bearish end)
                         (lz_strength lz))
           unsweptLiquidity in
  sort_desc kl_strength keyLevels.

(** *** analyze *)

Definition analyze (ohlcData : CandleSeries) : outcome Analysis :=
  marketStructure <- analyzeMarketStructure ohlcData ;;
  orderBlocks <- findOrderBlocks ohlcData ;;
  fairValueGaps <- findFairValueGaps ohlcData ;;
  liquidityZones <- findLiquidityZones ohlcData ;;
  let bias := determineBias marketStructure orderBlocks fairValueGaps in
  let confidence :=
    calculateConfidence marketStructure orderBlocks fairValueGaps liquidityZones in
  let keyLevels := identifyKeyLevels orderBlocks fairValueGaps liquidityZones in
  Returns {| an_bias := bias;
             an_confidence := confidence;
             an_orderBlocks := orderBlocks;
             an_fairValueGaps := fairValueGaps;
             an_liquidityZones := liquidityZones;
             an_marketStructure := marketStructure;
             an_keyLevels := keyLevels |}.

End SmartMoneyAnalyzer.

(* ===================================================================== *)
(** ** PatternAnalyzer *)
(* ===================================================================== *)

Module PatternAnalyzer.

Local Open Scope num_scope.

Inductive Side : Type := long | short | neutral.
Inductive PeakType : Type := high | low.

Record Pattern : Type := mkPattern {
  name : string;
  direction : Side;
  confidence : nat;
  breakoutConfirmed : bool;
  entry : num;
  target : num
}.

(** A peak or trough; [findSwingPoints] adds the [type] property. *)
Record Peak : Type := mkPeak {
  pk_index : nat;
  pk_value : num;
  pk_type : option PeakType
}.

(** An element of an array of numbers read in arithmetic: NaN past the end. *)
Definition num_at (a : list num) (i : nat) : num := nth i a NaN.

Definition num_last (a : list num) : num :=
  match a with
  | [] => NaN
  | _ => num_at a (length a - 1)
  end.

(** [a.slice(0, -n)] *)
Definition drop_last {A} (n : nat) (a : list A) : list A :=
  firstn (length a - n) a.

(** *** findPeaks, findTroughs, findSwingPoints *)

Definition findPeaks (data : list num) : list Peak :=
  flat_map (fun i =>
              if (num_at data i >? num_at data (i - 1))
                 && (num_at data i >? num_at data (i + 1))
              then [mkPeak i (num_at data i) None] else [])
           (seq 1 (length data - 1 - 1)).

Definition findTroughs (data : list num) : list Peak :=
  flat_map (fun i =>
              if (num_at data i <? num_at data (i - 1))
                 && (num_at data i <? num_at data (i + 1))
              then [mkPeak i (num_at data i) None] else [])
           (seq 1 (length data - 1 - 1)).

(** [combined.sort((a, b) => a.index - b.index)]: stable, ascending. *)
Fixpoint insert_by_index (x : Peak) (l : list Peak) : list Peak :=
  match l with
  | [] => [x]
  | y :: t =>
      if (pk_index x <? pk_index y)%nat then x :: y :: t else y :: insert_by_index x t
  end.

Definition sort_by_index (l : list Peak) : list Peak :=
  fold_left (fun acc x => insert_by_index x acc) l [].

Definition findSwingPoints (data : CandleSeries) : list Peak :=
  let highs := findPeaks (map c_high data) in
  let lows := findTroughs (map c_low data) in
  sort_by_index
    (map (fun h => mkPeak (pk_index h) (pk_value h) (Some high)) highs
     ++ map (fun l => mkPeak (pk_index l) (pk_value l) (Some low)) lows).

(** *** Trend lines *)

Definition isHorizontalResistance (peaks : list Peak) : bool :=
  if (length peaks <? 2)%nat then false
  else
    let tolerance := dec 2 100 in
    let avgPrice := Num.sum (map pk_value peaks) / Num.of_nat (length peaks) in
    forallb (fun p => Num.abs (pk_value p - avgPrice) / avgPrice <? tolerance) peaks.

Definition isHorizontalSupport (troughs : list Peak) : bool :=
  if (length troughs <? 2)%nat then false
  else
    let tolerance := dec 2 100 in
    let avgPrice := Num.sum (map pk_value troughs) / Num.of_nat (length troughs) in
    forallb (fun t => Num.abs (pk_value t - avgPrice) / avgPrice <? tolerance) troughs.

(** No [i >= 1] has [f (a[i], a[i - 1])]: the early [return false] of the
    loops of [isRisingSupport] and [isFallingResistance]. *)
Fixpoint noStep (bad : num -> num -> bool) (a : list Peak) : bool :=
  match a with
  | x :: (y :: _) as rest => negb (bad (pk_value y) (pk_value x)) && noStep bad rest
  | _ => true
  end.

Definition isRisingSupport (troughs : list Peak) : bool :=
  if (length troughs <? 2)%nat then false else noStep Num.leb troughs.

Definition isFallingResistance (peaks : list Peak) : bool :=
  if (length peaks <? 2)%nat then false else noStep Num.geb peaks.

(** *** Breakouts and targets *)

Definition checkBreakout (data : CandleSeries) : bool :=
  let recent := slice_last 5 data in
  let volume := map c_volume recent in
  let avgVolume := Num.sum volume / Num.of_nat (length volume) in
  let lastVolume := num_last volume in
  lastVolume >? avgVolume * dec 15 10.

Definition determineBreakoutDirection (data : CandleSeries) : Side :=
  let recent := slice_last 10 data in
  let closes := map c_close recent in
  if num_last closes >? num_at closes 0 then long else short.

Definition calculatePatternHeight (data : CandleSeries) : num :=
  let recent := slice_last 20 data in
  Num.max_list (map c_high recent) - Num.min_list (map c_low recent).

Inductive TriangleType : Type := ascending | descending | symmetrical.

Definition calculateTriangleTarget (data : CandleSeries) (type : TriangleType)
  : outcome num :=
  last <- at_last data ;;
  let currentPrice := c_close last in
  let height := calculatePatternHeight data in
  Returns (match type with
           | ascending => currentPrice + height
           | descending => currentPrice - height
           | symmetrical => currentPrice + (height * dec 618 1000)
           end).

(** *** detectTrianglePatterns *)

Definition detectTrianglePatterns (data : CandleSeries) : outcome (list Pattern) :=
  let highs := findPeaks (map c_high data) in
  let lows := findTroughs (map c_low data) in
  if (2 <=? length highs)%nat && (2 <=? length lows)%nat then
    let recentHighs := slice_last 3 highs in
    let recentLows := slice_last 3 lows in
    p1 <- (if isHorizontalResistance recentHighs && isRisingSupport recentLows then
             last <- at_last data ;;
             t <- calculateTriangleTarget data ascending ;;
             Returns [mkPattern "Ascending Triangle" long 75 (checkBreakout data)
                                (c_close last) t]
           else Returns []) ;;
    p2 <- (if isHorizontalSupport recentLows && isFallingResistance recentHighs then
             last <- at_last data ;;
             t <- calculateTriangleTarget data descending ;;
             Returns [mkPattern "Descending Triangle" short 75 (checkBreakout data)
                                (c_close last) t]
           else Returns []) ;;
    p3 <- (if isFallingResistance recentHighs && isRisingSupport recentLows then
             let breakoutDirection := determineBreakoutDirection data in
             last <- at_last data ;;
             t <- calculateTriangleTarget data symmetrical ;;
             Returns [mkPattern "Symmetrical Triangle" breakoutDirection 70
                                (checkBreakout data) (c_close last) t]
           else Returns []) ;;
    Returns (p1 ++ p2 ++ p3)
  else Returns [].

(** *** detectHeadAndShoulders *)

Inductive HSType : Type := hs_bearish | hs_bullish.

Definition isHeadAndShouldersPattern (points : list Peak) (type : HSType) : bool :=
  match points with
  | [lft; head; rgt] =>
      let close :=
        Num.abs (pk_value lft - pk_value rgt) / pk_value lft <? dec 5 100 in
      match type with
      | hs_bearish =>
          (pk_value head >? pk_value lft) && (pk_value head >? pk_value rgt) && close
      | hs_bullish =>
          (pk_value head <? pk_value lft) && (pk_value head <? pk_value rgt) && close
      end
  | _ => false
  end.

Inductive BreakSide : Type := down | up.

Definition checkNecklineBreak (data : CandleSeries) (direction : BreakSide) : bool :=
  let recent := slice_last 10 data in
  let closes := map c_close recent in
  match direction with
  | down => num_last closes <? Num.min_list (drop_last 1 closes)
  | up => num_last closes >? Num.max_list (drop_last 1 closes)
  end.

Definition calculateHSTarget (data : CandleSeries) (points : list Peak) : outcome num :=
  last <- at_last data ;;
  let currentPrice := c_close last in
  p1 <- at_index points 1 ;;
  p0 <- at_index points 0 ;;
  p2 <- at_index points 2 ;;
  let height := Num.abs (pk_value p1 - Num.min (pk_value p0) (pk_value p2)) in
  Returns (if pk_value p1 >? pk_value p0
           then currentPrice - height else currentPrice + height).

Definition detectHeadAndShoulders (data : CandleSeries) : outcome (list Pattern) :=
  let peaks := findPeaks (map c_high data) in
  if (3 <=? length peaks)%nat then
    let lastThreePeaks := slice_last 3 peaks in
    p1 <- (if isHeadAndShouldersPattern lastThreePeaks hs_bearish then
             last <- at_last data ;;
             t <- calculateHSTarget data lastThreePeaks ;;
             Returns [mkPattern "Head and Shoulders" short 80
                                (checkNecklineBreak data down) (c_close last) t]
           else Returns []) ;;
    let troughs := findTroughs (map c_low data) in
    p2 <- (if (3 <=? length troughs)%nat then
             let lastThreeTroughs := slice_last 3 troughs in
             if isHeadAndShouldersPattern lastThreeTroughs hs_bullish then
               last <- at_last data ;;
               t <- calculateHSTarget data lastThreeTroughs ;;
               Returns [mkPattern "Inverse Head and Shoulders" long 80
                                  (checkNecklineBreak data up) (c_close last) t]
             else Returns []
           else Returns []) ;;
    Returns (p1 ++ p2)
  else Returns [].

(** *** detectDoubleTopBottom *)

Definition isDoublePattern (points : list Peak) : bool :=
  match points with
  | [a; b] => Num.abs (pk_value a - pk_value b) / pk_value a <? dec 3 100
  | _ => false
  end.

Definition checkSupportBreak (data : CandleSeries) : outcome bool :=
  let recent := slice_last 10 data in
  let lows := map c_low recent in
  let support := Num.min_list (drop_last 2 lows) in
  last <- at_last data ;;
  Returns (c_close last <? support).

Definition checkResistanceBreak (data : CandleSeries) : outcome bool :=
  let recent := slice_last 10 data in
  let highs := map c_high recent in
  let resistance := Num.max_list (drop_last 2 highs) in
  last <- at_last data ;;
  Returns (c_close last >? resistance).

Definition calculateDoubleTopTarget (data : CandleSeries) (peaks : list Peak)
  : outcome num :=
  last <- at_last data ;;
  let currentPrice := c_close last in
  p0 <- at_index peaks 0 ;;
  let height := pk_value p0 - Num.min_list (map c_low (slice_last 20 data)) in
  Returns (currentPrice - height).

Definition calculateDoubleBottomTarget (data : CandleSeries) (troughs : list Peak)
  : outcome num :=
  last <- at_last data ;;
  let currentPrice := c_close last in
  t0 <- at_index troughs 0 ;;
  let height := Num.max_list (map c_high (slice_last 20 data)) - pk_value t0 in
  Returns (currentPrice + height).

Definition detectDoubleTopBottom (data : CandleSeries) : outcome (list Pattern) :=
  let peaks := findPeaks (map c_high data) in
  let troughs := findTroughs (map c_low data) in
  p1 <- (if (2 <=? length peaks)%nat then
           let lastTwoPeaks := slice_last 2 peaks in
           if isDoublePattern lastTwoPeaks then
             b <- checkSupportBreak data ;;
             last <- at_last data ;;
             t <- calculateDoubleTopTarget data lastTwoPeaks ;;
             Returns [mkPattern "Double Top" short 75 b (c_close last) t]
           else Returns []
         else Returns []) ;;
  p2 <- (if (2 <=? length troughs)%nat then
           let lastTwoTroughs := slice_last 2 troughs in
           if isDoublePattern lastTwoTroughs then
             b <- checkResistanceBreak data ;;
             last <- at_last data ;;
             t <- calculateDoubleBottomTarget data lastTwoTroughs ;;
             Returns [mkPattern "Double Bottom" long 75 b (c_close last) t]
           else Returns []
         else Returns []) ;;
  Returns (p1 ++ p2).

(** *** detectFlagPatterns *)

(** The two trends both flag tests compute, after the length guard. *)
Definition flagTrends (data : CandleSeries) : outcome (num * num) :=
  let firstHalf := slice data 0 (length data / 2) in
  let secondHalf := skipn (length data / 2) data in
  f_last <- at_last firstHalf ;;
  f_0 <- at_index firstHalf 0 ;;
  let firstTrend := (c_close f_last - c_close f_0) / c_close f_0 in
  s_last <- at_last secondHalf ;;
  s_0 <- at_index secondHalf 0 ;;
  let secondTrend := Num.abs ((c_close s_last - c_close s_0) / c_close s_0) in
  Returns (firstTrend, secondTrend).

Definition isBullFlag (data : CandleSeries) : outcome bool :=
  if (length data <? 10)%nat then Returns false
  else
    t <- flagTrends data ;;
    Returns ((fst t >? dec 5 100) && (snd t <? dec 2 100)).

Definition isBearFlag (data : CandleSeries) : outcome bool :=
  if (length data <? 10)%nat then Returns false
  else
    t <- flagTrends data ;;
    Returns ((fst t <? Num.neg (dec 5 100)) && (snd t <? dec 2 100)).

Definition checkFlagBreakout (data : CandleSeries) : bool :=
  let volume := map c_volume data in
  let avgVolume := Num.sum volume / Num.of_nat (length volume) in
  let lastVolume := num_last volume in
  lastVolume >? avgVolume * dec 13 10.

Inductive FlagType : Type := bull | bear.

Definition calculateFlagTarget (data : CandleSeries) (type : FlagType) : outcome num :=
  last <- at_last data ;;
  let currentPrice := c_close last in
  let flagHeight := calculatePatternHeight (slice_last 10 data) in
  Returns (match type with
           | bull => currentPrice + flagHeight
           | bear => currentPrice - flagHeight
           end).

Definition detectFlagPatterns (data : CandleSeries) : outcome (list Pattern) :=
  let recentData := slice_last 20 data in
  isBull <- isBullFlag recentData ;;
  p1 <- (if isBull then
           last <- at_last data ;;
           t <- calculateFlagTarget data bull ;;
           Returns [mkPattern "Bull Flag" long 70 (checkFlagBreakout recentData)
                              (c_close last) t]
         else Returns []) ;;
  isBear <- isBearFlag recentData ;;
  p2 <- (if isBear then
           last <- at_last data ;;
           t <- calculateFlagTarget data bear ;;
           Returns [mkPattern "Bear Flag" short 70 (checkFlagBreakout recentData)
                              (c_close last) t]
         else Returns []) ;;
  Returns (p1 ++ p2).

(** *** detectCandlestickPatterns *)

Definition isBullishEngulfing (prev curr : Candle) : bool :=
  (c_close prev <? c_open prev)
  && (c_close curr >? c_open curr)
  && (c_open curr <? c_close prev)
  && (c_close curr >? c_open prev).

Definition isBearishEngulfing (prev curr : Candle) : bool :=
  (c_close prev >? c_open prev)
  && (c_close curr <? c_open curr)
  && (c_open curr >? c_close prev)
  && (c_close curr <? c_open prev).

(** The ratio [isDoji] compares with 0.1. *)
Definition dojiRatio (candle : Candle) : num :=
  let bodySize := Num.abs (c_close candle - c_open candle) in
  let totalRange := c_high candle - c_low candle in
  bodySize / totalRange.

Definition isDoji (candle : Candle) : bool := dojiRatio candle <? dec 1 10.

Definition detectCandlestickPatterns (data : CandleSeries) : outcome (list Pattern) :=
  let recent := slice_last 5 data in
  p1 <- (if (2 <=? length recent)%nat then
           prev <- at_index recent (length recent - 2) ;;
           curr <- at_index recent (length recent - 1) ;;
           let bullishE :=
             if isBullishEngulfing prev curr
             then [mkPattern "Bullish Engulfing" long 65 true (c_close curr)
                             (c_close curr * dec 102 100)]
             else [] in
           let bearishE :=
             if isBearishEngulfing prev curr
             then [mkPattern "Bearish Engulfing" short 65 true (c_close curr)
                             (c_close curr * dec 98 100)]
             else [] in
           Returns (bullishE ++ bearishE)
         else Returns []) ;;
  (* isDoji(recent[recent.length - 1]) reads the candle's properties *)
  lastCandle <- at_last recent ;;
  let p2 :=
    if isDoji lastCandle
    then [mkPattern "Doji" neutral 60 false (c_close lastCandle) (c_close lastCandle)]
    else [] in
  Returns (p1 ++ p2).

(** *** detectHarmonicPatterns *)

(** [const [X, A, B, C, D] = swings] after the guard [swings.length < 5]. *)
Definition isGartleyPattern (swings : list Peak) : bool :=
  match swings with
  | X :: A :: B :: C :: D :: _ =>
      let XA := Num.abs (pk_value A - pk_value X) in
      let AB := Num.abs (pk_value B - pk_value A) in
      let BC := Num.abs (pk_value C - pk_value B) in
      let CD := Num.abs (pk_value D - pk_value C) in
      let ratio1 := AB / XA in
      let ratio2 := BC / AB in
      let ratio3 := CD / BC in
      (ratio1 >=? dec 58 100) && (ratio1 <=? dec 68 100)
      && (ratio2 >=? dec 38 100) && (ratio2 <=? dec 48 100)
      && (ratio3 >=? dec 125 100) && (ratio3 <=? dec 135 100)
  | _ => false
  end.

Definition isButterflyPattern (swings : list Peak) : bool :=
  match swings with
  | X :: A :: B :: C :: D :: _ =>
      let XA := Num.abs (pk_value A - pk_value X) in
      let AB := Num.abs (pk_value B - pk_value A) in
      let BC := Num.abs (pk_value C - pk_value B) in
      let XD := Num.abs (pk_value D - pk_value X) in
      let ratio1 := AB / XA in
      let ratio2 := BC / AB in
      let ratio3 := XD / XA in
      (ratio1 >=? dec 75 100) && (ratio1 <=? dec 85 100)
      && (ratio2 >=? dec 38 100) && (ratio2 <=? dec 48 100)
      && (ratio3 >=? dec 125 100) && (ratio3 <=? dec 135 100)
  | _ => false
  end.

Definition is_low (p : Peak) : bool :=
  match pk_type p with Some low => true | _ => false end.

Definition getHarmonicDirection (swings : list Peak) : outcome Side :=
  lastSwing <- at_last swings ;;
  Returns (if is_low lastSwing then long else short).

Definition checkHarmonicCompletion (swings : list Peak) : bool :=
  (5 <=? length swings)%nat.

Definition calculateHarmonicTarget (swings : list Peak) : outcome num :=
  match swings with
  | X :: A :: B :: C :: D :: _ =>
      let XA := Num.abs (pk_value A - pk_value X) in
      Returns (if is_low D
               then pk_value D + (XA * dec 618 1000)
               else pk_value D - (XA * dec 618 1000))
  | _ => Throws
  end.

Definition detectHarmonicPatterns (data : CandleSeries) : outcome (list Pattern) :=
  let swings := findSwingPoints data in
  if (5 <=? length swings)%nat then
    let lastFive := slice_last 5 swings in
    p1 <- (if isGartleyPattern lastFive then
             d <- getHarmonicDirection lastFive ;;
             last <- at_last data ;;
             t <- calculateHarmonicTarget lastFive ;;
             Returns [mkPattern "Gartley" d 80 (checkHarmonicCompletion lastFive)
                                (c_close last) t]
           else Returns []) ;;
    p2 <- (if isButterflyPattern lastFive then
             d <- getHarmonicDirection lastFive ;;
             last <- at_last data ;;
             t <- calculateHarmonicTarget lastFive ;;
             Returns [mkPattern "Butterfly" d 75 (checkHarmonicCompletion lastFive)
                                (c_close last) t]
           else Returns []) ;;
    Returns (p1 ++ p2)
  else Returns [].

(** *** detectPatterns *)

Definition detectPatterns (ohlcData : CandleSeries) : outcome (list Pattern) :=
  triangles <- detectTrianglePatterns ohlcData ;;
  headAndShoulders <- detectHeadAndShoulders ohlcData ;;
  doubles <- detectDoubleTopBottom ohlcData ;;
  flags <- detectFlagPatterns ohlcData ;;
  candlesticks <- detectCandlestickPatterns ohlcData ;;
  harmonics <- detectHarmonicPatterns ohlcData ;;
  Returns (filter (fun p => (60 <=? confidence p)%nat)
                  (triangles ++ headAndShoulders ++ doubles ++ flags
                   ++ candlesticks ++ harmonics)).

End PatternAnalyzer.

(* ===================================================================== *)
(** ** App: the signal composer *)
(* ===================================================================== *)

(** The pure functions of the [App] component.  What an [await] brings in
    (the klines of the exchange) is a parameter of the function that uses
    it; logging, the clock and the state of the component are left out. *)
Module App.

Local Open Scope num_scope.

(** The strings ['bullish'], ['bearish'] and ['neutral'] of the BTC trend. *)
Inductive Trend : Type := bullish | bearish | neutral.

(** *** calculateEMA *)

Fixpoint emaFrom (k prev : num) (rest : list num) : list num :=
  match rest with
  | [] => []
  | x :: t =>
      let e := x * k + prev * (Fin 1 - k) in
      e :: emaFrom k e t
  end.

(** [ema = [data[0]]] holds [undefined], here [None], when [data] is empty. *)
Definition calculateEMA (data : list num) (period : nat) : list (option num) :=
  let k := Fin 2 / (Num.of_nat period + Fin 1) in
  match data with
  | [] => [None]
  | d0 :: rest => Some d0 :: map Some (emaFrom k d0 rest)
  end.

(** [ema[ema.length - 1]] read in a comparison: [undefined] compares as NaN. *)
Definition lastEMA (ema : list (option num)) : num :=
  match List.last ema None with
  | Some x => x
  | None => NaN
  end.

(** [analyzeBTCTrend], from the closes of the klines [getKlines] resolves to. *)
Definition analyzeBTCTrend (closes : list num) : Trend :=
  let ema20 := calculateEMA closes 20 in
  let ema50 := calculateEMA closes 50 in
  if lastEMA ema20 >? lastEMA ema50 then bullish
  else if lastEMA ema20 <? lastEMA ema50 then bearish
  else neutral.

(** *** calculateATR *)

Definition trueRange (prev current : Candle) : num :=
  let high := c_high current in
  let low := c_low current in
  let prevClose := c_close prev in
  Num.max_list [high - low; Num.abs (high - prevClose); Num.abs (low - prevClose)].

(** The loop [for (i = 1; i < ohlcData.length; i++)] over the candle [i] and
    the one before it. *)
Fixpoint trueRanges (ohlcData : CandleSeries) : list num :=
  match ohlcData with
  | prev :: (current :: _) as rest => trueRange prev current :: trueRanges rest
  | _ => []
  end.

(** [period] is 14 when the caller leaves it out; [slice(-0)] is the whole
    array. *)
Definition calculateATR (ohlcData : CandleSeries) (period : nat) : num :=
  if (length ohlcData <? period)%nat then Fin 0
  else
    let recent :=
      if Nat.eqb period 0 then trueRanges ohlcData
      else slice_last period (trueRanges ohlcData) in
    Num.sum recent / Num.of_nat period.

(** *** calculateTradingLevels *)

(** A level object where a number is expected: [ToNumber] of a plain object
    is NaN. *)
Definition object_to_number (level : SupportResistanceAnalyzer.Level) : num := NaN.

(** What [a[i] || number] can be: the object [a[i]], which is truthy, or the
    number. *)
Inductive target : Type :=
| TargetLevel (level : SupportResistanceAnalyzer.Level)
| TargetPrice (price : num).

Definition orPrice (levels : list SupportResistanceAnalyzer.Level) (i : nat)
           (price : num) : target :=
  match nth_error levels i with
  | Some level => TargetLevel level
  | None => TargetPrice price
  end.

Definition target_to_number (t : target) : num :=
  match t with
  | TargetLevel level => object_to_number level
  | TargetPrice price => price
  end.

(** [parseFloat(x.toFixed(f))] on a number: the nearest multiple of [10^-f],
    halves away from zero; a number of magnitude [10^21] or more, an infinity
    and NaN come back as they are. *)
Definition toFixedParsed (f : nat) (x : num) : num :=
  match x with
  | Fin q =>
      if Qle_bool (inject_Z (10 ^ 21)) (Qabs q) then Fin q
      else
        let scale := inject_Z (10 ^ Z.of_nat f) in
        let n := Qfloor (Qabs q * scale + (1 # 2)) in
        Fin ((if Qle_bool 0 q then 1 else - (1)) * (inject_Z n / scale))%Q
  | _ => x
  end.

(** [t.toFixed(6)]: a plain object has no [toFixed], the call raises a
    TypeError. *)
Definition targetFixed (t : target) : outcome num :=
  match t with
  | TargetLevel _ => Throws
  | TargetPrice price => Returns (toFixedParsed 6 price)
  end.

Record TradingLevels : Type := mkTradingLevels {
  entry : num;
  stopLoss : num;
  takeProfit1 : num;
  takeProfit2 : num;
  takeProfit3 : num;
  riskReward : num
}.

(** [srLevels] is the object [findLevels] returns.  It has no [ohlcData]
    property, so [srLevels.ohlcData || []] is the empty array; the filters
    compare a level object with the price. *)
Definition calculateTradingLevels (currentPrice : num) (signal : PatternAnalyzer.Side)
           (srLevels : SupportResistanceAnalyzer.Levels)
           (smcAnalysis : SmartMoneyAnalyzer.Analysis) : outcome TradingLevels :=
  let atr := calculateATR [] 14 in
  let below :=
    sort_desc object_to_number
              (filter (fun s => object_to_number s <? currentPrice)
                      (SupportResistanceAnalyzer.lvs_support srLevels)) in
  let above :=
    sort_asc object_to_number
             (filter (fun r => object_to_number r >? currentPrice)
                     (SupportResistanceAnalyzer.lvs_resistance srLevels)) in
  let entry := currentPrice in
  let '(stopLoss, takeProfit1, takeProfit2, takeProfit3) :=
    match signal with
    | PatternAnalyzer.long =>
        (match nth_error below 0 with
         | Some supportBelow =>
             Num.min (object_to_number supportBelow * dec 995 1000) (currentPrice - atr)
         | None => currentPrice - atr
         end,
         orPrice above 0 (currentPrice + (atr * Fin 2)),
         orPrice above 1 (currentPrice + (atr * Fin 3)),
         orPrice above 2 (currentPrice + (atr * Fin 4)))
    | _ =>
        (match nth_error above 0 with
         | Some resistanceAbove =>
             Num.max (object_to_number resistanceAbove * dec 1005 1000) (currentPrice + atr)
         | None => currentPrice + atr
         end,
         orPrice below 0 (currentPrice - (atr * Fin 2)),
         orPrice below 1 (currentPrice - (atr * Fin 3)),
         orPrice below 2 (currentPrice - (atr * Fin 4)))
    end in
  tp1 <- targetFixed takeProfit1 ;;
  tp2 <- targetFixed takeProfit2 ;;
  tp3 <- targetFixed takeProfit3 ;;
  Returns {| entry := toFixedParsed 6 entry;
             stopLoss := toFixedParsed 6 stopLoss;
             takeProfit1 := tp1;
             takeProfit2 := tp2;
             takeProfit3 := tp3;
             riskReward :=
               toFixedParsed 2 (Num.abs (target_to_number takeProfit1 - entry)
                                / Num.abs (entry - stopLoss)) |}.

(** *** analyzeSymbol *)

(** The filter of [analyzeSymbol] on the detected patterns. *)
Definition isValidPattern (p : PatternAnalyzer.Pattern) : bool :=
  (70 <=? PatternAnalyzer.confidence p)%nat && PatternAnalyzer.breakoutConfirmed p.

Definition combinedConfidence (primaryPattern : PatternAnalyzer.Pattern)
           (elliottWave : ElliottWaveAnalyzer.WaveResult)
           (smcAnalysis : SmartMoneyAnalyzer.Analysis) : num :=
  Num.min (Fin 95)
          (Num.round
             ((Num.of_nat (PatternAnalyzer.confidence primaryPattern) * dec 4 10)
              + (ElliottWaveAnalyzer.wr_confidence elliottWave * dec 3 10)
              + (Num.of_nat (SmartMoneyAnalyzer.an_confidence smcAnalysis) * dec 3 10))).

Record SignalAnalysis : Type := mkSignalAnalysis {
  sa_signal : PatternAnalyzer.Side;
  sa_confidence : num;
  sa_patterns : list PatternAnalyzer.Pattern;
  sa_elliottWave : ElliottWaveAnalyzer.WaveResult;
  sa_supportResistance : SupportResistanceAnalyzer.Levels;
  sa_smartMoney : SmartMoneyAnalyzer.Analysis;
  sa_levels : TradingLevels
}.

(** [analyzeSymbol], from the candles the klines of the symbol map to.  The
    result is [null] when no signal is made.  The properties that only copy
    the symbol, the configuration and the fetched timeframes, and the text of
    [reason], are left out of the result. *)
Definition analyzeSymbol (ohlcData : CandleSeries) (btcTrend : Trend)
  : outcome (option SignalAnalysis) :=
  patterns <- PatternAnalyzer.detectPatterns ohlcData ;;
  let validPatterns := filter isValidPattern patterns in
  match validPatterns with
  | [] => Returns None
  | primaryPattern :: _ =>
      elliottWave <- ElliottWaveAnalyzer.analyzeWave ohlcData ;;
      if negb (ElliottWaveAnalyzer.wr_isValid elliottWave) then Returns None
      else
        srLevels <- SupportResistanceAnalyzer.findLevels ohlcData ;;
        smcAnalysis <- SmartMoneyAnalyzer.analyze ohlcData ;;
        let signal := PatternAnalyzer.direction primaryPattern in
        match btcTrend, signal with
        | bearish, PatternAnalyzer.long => Returns None
        | bullish, PatternAnalyzer.short => Returns None
        | _, _ =>
            last <- at_last ohlcData ;;
            let currentPrice := c_close last in
            levels <- calculateTradingLevels currentPrice signal srLevels smcAnalysis ;;
            Returns (Some {| sa_signal := signal;
                             sa_confidence :=
                               combinedConfidence primaryPattern elliottWave smcAnalysis;
                             sa_patterns := validPatterns;
                             sa_elliottWave := elliottWave;
                             sa_supportResistance := srLevels;
                             sa_smartMoney := smcAnalysis;
                             sa_levels := levels |})
        end
  end.

End App.

(* ===================================================================== *)
(** * Vocabulary of the properties *)
(* ===================================================================== *)

Module Vocabulary.

Local Open Scope num_scope.

(** Order on numbers as propositions. *)
Definition le (x y : num) : Prop := (x <=? y) = true.
Definition lt (x y : num) : Prop := (x <? y) = true.

(** A candle from integers, at time [t]. *)
Definition candle (t : nat) (o h l c v : Z) : Candle :=
  mkCandle (Num.of_nat t) (Num.of_Z o) (Num.of_Z h) (Num.of_Z l) (Num.of_Z c)
           (Num.of_Z v).

(** *** Clusters *)

(** The cluster a pivot founds: the pivot alone, at its own price. *)
Definition singleton (p : SupportResistanceAnalyzer.PivotPoint)
  : SupportResistanceAnalyzer.Cluster :=
  SupportResistanceAnalyzer.mkCluster (SupportResistanceAnalyzer.pv_price p) [p].

(** Every price is outside the tolerance of each price before it, the
    distance being taken relative to the earlier price as in the clusterer. *)
Definition separated (prices : list num) : Prop :=
  ForallOrdPairs
    (fun earlier later => SupportResistanceAnalyzer.withinTolerance later earlier = false)
    prices.

(** One pivot per cluster, priced at the mean of the cluster. *)
Definition meansOf (ps : list SupportResistanceAnalyzer.PivotPoint)
           (clusters : list SupportResistanceAnalyzer.Cluster) : Prop :=
  map SupportResistanceAnalyzer.pv_price ps
  = map SupportResistanceAnalyzer.avgPrice clusters.

Definition pivot (i : nat) (price : Z) : SupportResistanceAnalyzer.PivotPoint :=
  SupportResistanceAnalyzer.mkPivot i (Num.of_Z price) (Num.of_nat i) (Fin 1000).

(** 1006 founds a second cluster (0.6% from 1000), then 1004 joins the first
    (0.4% from 1000) and moves its mean to 1002, which is 0.4% from 1006. *)
Definition driftingPivots : list SupportResistanceAnalyzer.PivotPoint :=
  [pivot 5 1000; pivot 9 1006; pivot 14 1004].

(** Here the second cluster is founded at 1010, and the means 1002 and 1010
    stay 0.8% apart. *)
Definition settledPivots : list SupportResistanceAnalyzer.PivotPoint :=
  [pivot 5 1000; pivot 9 1010; pivot 14 1004].

(** The pivots a second pass is given: the means of the first. *)
Definition meanPivots (clusters : list SupportResistanceAnalyzer.Cluster)
  : list SupportResistanceAnalyzer.PivotPoint :=
  map (fun c => SupportResistanceAnalyzer.mkPivot
                  0 (SupportResistanceAnalyzer.avgPrice c) (Fin 0) (Fin 0))
      clusters.

(** *** Levels *)

(** A list of strengths is in descending order. *)
Fixpoint descending (strengths : list num) : Prop :=
  match strengths with
  | a :: (b :: _) as t => le b a /\ descending t
  | _ => True
  end.

(** Three candles: too few for any window. *)
Definition threeCandles : CandleSeries :=
  [candle 1 10 12 9 11 100; candle 2 11 14 10 13 120; candle 3 13 13 8 9 90].

(** One candle from 100 to 200 that closes at 150. *)
Definition oneCandleSeries : CandleSeries := [candle 0 150 200 100 150 1000].

(** Forty candles, numbered by their time, with equal volumes and lows at
    300 but for five dips: to 100 at the candles 5 and 11, and to 150 at the
    candles 17, 23 and 29.  Every candle is 10 high and closes in its
    middle. *)
Definition dipAt (i : nat) : Z :=
  if Nat.eqb i 5 || Nat.eqb i 11 then 100
  else if Nat.eqb i 17 || Nat.eqb i 23 || Nat.eqb i 29 then 150
  else 300.

Definition twoSupportsSeries : CandleSeries :=
  map (fun i =>
         let l := dipAt i in
         candle i (l + 5) (l + 10) l (l + 5) 1000)
      (seq 0 40).

(** A candle that does not move: its high equals its low. *)
Definition flatCandle : Candle := candle 0 100 100 100 100 10.

(** *** Psychological levels *)

(** The step [generateRoundNumbers] selects when [findPsychologicalLevels]
    calls it: the call passes the upper bound of the range of 20% around
    the latest close. *)
Definition selectedStep (data : CandleSeries) : outcome num :=
  last <- at_last data ;;
  let currentPrice := c_close last in
  let priceRange := Num.double (currentPrice * lit 2 10) in
  let maxPrice := Num.double (currentPrice + priceRange) in
  Returns (SupportResistanceAnalyzer.roundStep maxPrice).

(** The upper bound [maxPrice] that [findPsychologicalLevels] computes from
    a close: [close + close * 0.2], each operation rounded to a double. *)
Definition upperBound (close : num) : num :=
  Num.double (close + Num.double (close * lit 2 10)).

(** A series whose latest close is a price from 0 to 10^9: the range of
    20% around it then holds four million round numbers at most. *)
Definition closesInRange (data : CandleSeries) : Prop :=
  exists last c,
    at_last data = Returns last /\ c_close last = Fin c
    /\ (0 <= c)%Q /\ (c <= 1000000000)%Q.

(** The step read off the magnitude of a price itself. *)
Definition stepOfPrice (price : num) : num :=
  if price <? Fin 1 then lit 1 100
  else if price <? Fin 10 then lit 1 10
  else if price <? Fin 100 then Fin 1
  else if price <? Fin 1000 then Fin 10
  else Fin 100.

(** A series of one candle that closes at the given price. *)
Definition closingAt (price : num) : CandleSeries :=
  [mkCandle (Fin 0) price price price price (Fin 1000)].

(** The first pass over [driftingPivots] and the second pass over its means. *)
Definition driftingFirst : list SupportResistanceAnalyzer.Cluster :=
  SupportResistanceAnalyzer.clusterPivotPoints driftingPivots.

Definition driftingSecond : list SupportResistanceAnalyzer.Cluster :=
  SupportResistanceAnalyzer.clusterPivotPoints (meanPivots driftingFirst).

(** *** Elliott waves *)

(** No two neighbours of a swing list have the same kind. *)
Fixpoint alternates (l : list ElliottWaveAnalyzer.SwingPoint) : Prop :=
  match l with
  | a :: (b :: _) as t =>
      ElliottWaveAnalyzer.sw_type a <> ElliottWaveAnalyzer.sw_type b /\ alternates t
  | _ => True
  end.

(** The +20 of rule 2 was given: the rule's detail line is in the result. *)
Definition bonusAwarded (r : ElliottWaveAnalyzer.Rules) : Prop :=
  In "Wave 3 is not shortest"%string (ElliottWaveAnalyzer.details r).

(** The lengths of waves 1, 3 and 5 as [validateElliottRules] computes them,
    positive in the direction of the impulse. *)
Definition waveLengths (d : ElliottWaveAnalyzer.Direction)
           (waves : list ElliottWaveAnalyzer.SwingPoint) : num * num * num :=
  let p := ElliottWaveAnalyzer.sw_price in
  match waves with
  | w1 :: w2 :: w3 :: w4 :: w5 :: _ =>
      match d with
      | ElliottWaveAnalyzer.bullish => (p w2 - p w1, p w4 - p w3, p w5 - p w4)
      | ElliottWaveAnalyzer.bearish => (p w1 - p w2, p w3 - p w4, p w4 - p w5)
      end
  | _ => (NaN, NaN, NaN)
  end.

(** The same three legs measured without sign. *)
Definition absWaveLengths (waves : list ElliottWaveAnalyzer.SwingPoint)
  : num * num * num :=
  let p := ElliottWaveAnalyzer.sw_price in
  match waves with
  | w1 :: w2 :: w3 :: w4 :: w5 :: _ =>
      (Num.abs (p w2 - p w1), Num.abs (p w4 - p w3), Num.abs (p w5 - p w4))
  | _ => (NaN, NaN, NaN)
  end.

(** Wave 3 is the shortest of the three: strictly below both others. *)
Definition wave3Shortest (lengths : num * num * num) : Prop :=
  let '(l1, l3, l5) := lengths in lt l3 l1 /\ lt l3 l5.

(** Wave 3 is the longest of the three, ties included. *)
Definition wave3Longest (lengths : num * num * num) : Prop :=
  let '(l1, l3, l5) := lengths in le l1 l3 /\ le l5 l3.

Definition swing (i : nat) (price : Z) (ty : ElliottWaveAnalyzer.SwingType)
  : ElliottWaveAnalyzer.SwingPoint :=
  ElliottWaveAnalyzer.mkSwing i (Num.of_Z price) ty (Num.of_nat i).

(** A rising impulse 100, 120, 110, 125, 118: wave 1 spans 20, wave 3 spans
    15 and the last leg 7, so wave 3 is not the shortest. *)
Definition bullishWaves : list ElliottWaveAnalyzer.SwingPoint :=
  [swing 0 100 ElliottWaveAnalyzer.low; swing 1 120 ElliottWaveAnalyzer.high;
   swing 2 110 ElliottWaveAnalyzer.low; swing 3 125 ElliottWaveAnalyzer.high;
   swing 4 118 ElliottWaveAnalyzer.low].

(** Its mirror image, falling. *)
Definition bearishWaves : list ElliottWaveAnalyzer.SwingPoint :=
  [swing 0 125 ElliottWaveAnalyzer.high; swing 1 105 ElliottWaveAnalyzer.low;
   swing 2 115 ElliottWaveAnalyzer.high; swing 3 100 ElliottWaveAnalyzer.low;
   swing 4 107 ElliottWaveAnalyzer.high].

(** Thirteen candles around one peak and one trough. *)
Definition peakSeries : CandleSeries :=
  map (fun i =>
         let h := (100 + 10 * Z.of_nat (Nat.min i (12 - i)))%Z in
         candle i (h - 5) h (h - 8) (h - 2) 1000)
      (seq 0 13).

(** A structure is a five-wave impulse or a three-wave correction. *)
Definition wellShaped (s : ElliottWaveAnalyzer.Structure) : Prop :=
  (ElliottWaveAnalyzer.st_type s = ElliottWaveAnalyzer.impulse
   /\ length (ElliottWaveAnalyzer.st_waves s) = 5%nat)
  \/ (ElliottWaveAnalyzer.st_type s = ElliottWaveAnalyzer.corrective
      /\ length (ElliottWaveAnalyzer.st_waves s) = 3%nat).

(** The result [analyzeWave] returns on too few swings. *)
Definition invalidWaveResult : ElliottWaveAnalyzer.WaveResult :=
  {| ElliottWaveAnalyzer.wr_isValid := false;
     ElliottWaveAnalyzer.wr_currentWave := None;
     ElliottWaveAnalyzer.wr_confidence := Fin 0;
     ElliottWaveAnalyzer.wr_waveStructure := None;
     ElliottWaveAnalyzer.wr_projections := None |}.

(** *** Order blocks *)

(** [x] lies in the band [lo, hi]. *)
Definition inBand (lo hi x : num) : Prop := le lo x /\ le x hi.

(** The test of the code: the low of the candle is in the band of a bullish
    block, the high of the candle in the band of a bearish one. *)
Definition entersBand (ob : SmartMoneyAnalyzer.OrderBlock) (c : Candle) : Prop :=
  (SmartMoneyAnalyzer.ob_type ob = SmartMoneyAnalyzer.bullish
   /\ inBand (SmartMoneyAnalyzer.ob_low ob) (SmartMoneyAnalyzer.ob_high ob) (c_low c))
  \/ (SmartMoneyAnalyzer.ob_type ob = SmartMoneyAnalyzer.bearish
      /\ inBand (SmartMoneyAnalyzer.ob_low ob) (SmartMoneyAnalyzer.ob_high ob) (c_high c)).

(** The price range [low, high] of the candle meets the band of the block. *)
Definition rangeRevisits (ob : SmartMoneyAnalyzer.OrderBlock) (c : Candle) : Prop :=
  le (c_low c) (SmartMoneyAnalyzer.ob_high ob)
  /\ le (SmartMoneyAnalyzer.ob_low ob) (c_high c).

(** A quiet candle, a strong rising candle on ten times the volume with the
    band [100, 110], and a candle that closes higher and whose range
    [95, 115] covers the whole band. *)
Definition engulfedBlockSeries : CandleSeries :=
  [candle 0 100 100 100 100 100;
   candle 1 100 110 100 110 1000;
   candle 2 105 115 95 115 100].

(** *** Numbers up to the value *)

(** The same number: two rationals of equal value, or the same infinity, or
    NaN on both sides. *)
Definition same (x y : num) : Prop :=
  match x, y with
  | Fin a, Fin b => (a == b)%Q
  | PInf, PInf | NInf, NInf | NaN, NaN => True
  | _, _ => False
  end.

(** Records read as tuples of their properties. *)
Definition pivotFields (p : SupportResistanceAnalyzer.PivotPoint)
  : nat * num * num * num :=
  (SupportResistanceAnalyzer.pv_index p, SupportResistanceAnalyzer.pv_price p,
   SupportResistanceAnalyzer.pv_time p, SupportResistanceAnalyzer.pv_volume p).

Definition swingFields (s : SmartMoneyAnalyzer.Swing) : nat * num * num * num :=
  (SmartMoneyAnalyzer.sw_index s, SmartMoneyAnalyzer.sw_price s,
   SmartMoneyAnalyzer.sw_time s, SmartMoneyAnalyzer.sw_volume s).

(** *** Clusters and their means *)

(** The cluster has a member, and its [avgPrice] is the price of its only
    member or the arithmetic mean of the prices of its members. *)
Definition carriesMean (c : SupportResistanceAnalyzer.Cluster) : Prop :=
  match SupportResistanceAnalyzer.points c with
  | [] => False
  | [p] => SupportResistanceAnalyzer.avgPrice c = SupportResistanceAnalyzer.pv_price p
  | pts =>
      SupportResistanceAnalyzer.avgPrice c
      = (Num.sum (map SupportResistanceAnalyzer.pv_price pts)
         / Num.of_nat (length pts))%num
  end.

(** *** Ranked levels *)

(** A list of numbers in ascending order. *)
Fixpoint ascending (xs : list num) : Prop :=
  match xs with
  | a :: (b :: _) as t => le a b /\ ascending t
  | _ => True
  end.

(** Order of two elements by a numeric key. *)
Definition keyGe {A : Type} (key : A -> num) (a b : A) : Prop :=
  Num.leb (key b) (key a) = true.
Definition keyLe {A : Type} (key : A -> num) (a b : A) : Prop :=
  Num.leb (key a) (key b) = true.

(** A level that only its price, touches and strength tell from others. *)
Definition plainLevel (price : Z) (touches : nat) (strength : Z)
  : SupportResistanceAnalyzer.Level :=
  SupportResistanceAnalyzer.mkLevel
    (Num.of_Z price) touches (Num.of_Z strength) (Some (Fin 0)) (Some (Fin 0))
    (Some (Fin 1000)) SupportResistanceAnalyzer.support false true.

Definition threeLevels : list SupportResistanceAnalyzer.Level :=
  [plainLevel 100 2 39; plainLevel 150 3 58; plainLevel 120 2 41].

(** *** Scored wave structures *)

(** What [identifyWaveStructure] collects: a five-swing impulse with a
    confidence from 60 to 95, or a three-swing correction with confidence 40. *)
Definition scored (s : ElliottWaveAnalyzer.Structure) : Prop :=
  match ElliottWaveAnalyzer.st_type s with
  | ElliottWaveAnalyzer.impulse =>
      length (ElliottWaveAnalyzer.st_waves s) = 5%nat
      /\ exists x, ElliottWaveAnalyzer.st_confidence s = Some x
                   /\ inBand (Fin 60) (Fin 95) x
  | ElliottWaveAnalyzer.corrective =>
      length (ElliottWaveAnalyzer.st_waves s) = 3%nat
      /\ ElliottWaveAnalyzer.st_confidence s = Some (Fin 40)
  end.

(** *** Fair value gaps *)

(** A gap as [findFairValueGaps] records it at its index: between the high of
    the candle before and the low of the candle after when bullish, between
    the high of the candle after and the low of the candle before when
    bearish. *)
Definition gapBetween (data : CandleSeries) (g : SmartMoneyAnalyzer.FairValueGap)
  : Prop :=
  exists prev next,
    nth_error data (SmartMoneyAnalyzer.fvg_index g - 1) = Some prev
    /\ nth_error data (SmartMoneyAnalyzer.fvg_index g + 1) = Some next
    /\ (1 <= SmartMoneyAnalyzer.fvg_index g)%nat
    /\ le SmartMoneyAnalyzer.fvgMinSize (SmartMoneyAnalyzer.fvg_size g)
    /\ lt (SmartMoneyAnalyzer.fvg_low g) (SmartMoneyAnalyzer.fvg_high g)
    /\ match SmartMoneyAnalyzer.fvg_type g with
       | SmartMoneyAnalyzer.bullish =>
           SmartMoneyAnalyzer.fvg_high g = c_low next
           /\ SmartMoneyAnalyzer.fvg_low g = c_high prev
       | SmartMoneyAnalyzer.bearish =>
           SmartMoneyAnalyzer.fvg_high g = c_low prev
           /\ SmartMoneyAnalyzer.fvg_low g = c_high next
       | SmartMoneyAnalyzer.neutral => False
       end.

(** Three candles with a gap between the high of the first and the low of
    the third. *)
Definition gapSeries : CandleSeries :=
  [candle 0 95 100 90 98 100;
   candle 1 100 112 99 110 100;
   candle 2 111 120 110 118 100].

(** *** The patterns of the catalogue *)

(** The names [detectPatterns] can report, each with the directions and the
    confidence it is reported with. *)
Definition knownShapes : list (string * PatternAnalyzer.Side * nat) :=
  [("Ascending Triangle", PatternAnalyzer.long, 75%nat);
   ("Descending Triangle", PatternAnalyzer.short, 75%nat);
   ("Symmetrical Triangle", PatternAnalyzer.long, 70%nat);
   ("Symmetrical Triangle", PatternAnalyzer.short, 70%nat);
   ("Head and Shoulders", PatternAnalyzer.short, 80%nat);
   ("Inverse Head and Shoulders", PatternAnalyzer.long, 80%nat);
   ("Double Top", PatternAnalyzer.short, 75%nat);
   ("Double Bottom", PatternAnalyzer.long, 75%nat);
   ("Bull Flag", PatternAnalyzer.long, 70%nat);
   ("Bear Flag", PatternAnalyzer.short, 70%nat);
   ("Bullish Engulfing", PatternAnalyzer.long, 65%nat);
   ("Bearish Engulfing", PatternAnalyzer.short, 65%nat);
   ("Doji", PatternAnalyzer.neutral, 60%nat);
   ("Gartley", PatternAnalyzer.long, 80%nat);
   ("Gartley", PatternAnalyzer.short, 80%nat);
   ("Butterfly", PatternAnalyzer.long, 75%nat);
   ("Butterfly", PatternAnalyzer.short, 75%nat)]%string.

(** The candlestick patterns come confirmed (the engulfings) or not (the
    doji) whatever the candles; the others carry the result of a test. *)
Definition fixedConfirmation (p : PatternAnalyzer.Pattern) : Prop :=
  match PatternAnalyzer.confidence p with
  | 65%nat => PatternAnalyzer.breakoutConfirmed p = true
  | 60%nat => PatternAnalyzer.breakoutConfirmed p = false
  | _ => True
  end.

(** A pattern of the catalogue, entered at the given close. *)
Definition catalogued (close : num) (p : PatternAnalyzer.Pattern) : Prop :=
  PatternAnalyzer.entry p = close
  /\ In (PatternAnalyzer.name p, PatternAnalyzer.direction p,
         PatternAnalyzer.confidence p) knownShapes
  /\ fixedConfirmation p.

(** Two candles, the second engulfing the first. *)
Definition engulfingSeries : CandleSeries :=
  [candle 0 100 101 94 95 100;
   candle 1 94 102 93 101 100].

(** *** Signals *)

(** Trading levels that are all at the price, rounded to six decimals, with
    no risk to reward ratio. *)
Definition flatLevels (price : num) (levels : App.TradingLevels) : Prop :=
  App.entry levels = App.toFixedParsed 6 price
  /\ same (App.stopLoss levels) (App.entry levels)
  /\ same (App.takeProfit1 levels) (App.entry levels)
  /\ same (App.takeProfit2 levels) (App.entry levels)
  /\ same (App.takeProfit3 levels) (App.entry levels)
  /\ App.riskReward levels = NaN.

(** The signal goes with the trend of BTC, or the trend is neutral. *)
Definition alignedWith (btcTrend : App.Trend) (signal : PatternAnalyzer.Side) : Prop :=
  match btcTrend with
  | App.bullish => signal = PatternAnalyzer.long
  | App.bearish => signal = PatternAnalyzer.short
  | App.neutral => signal = PatternAnalyzer.long \/ signal = PatternAnalyzer.short
  end.

(** A series that makes a signal: five swings that pass as an impulse, two
    equal troughs, and a rise at the end above the highs before it. *)
Definition signalPrices : list Z :=
  [120; 116; 112; 108; 104; 100;
   104; 108; 112; 116; 120; 124;
   122; 120; 118; 116; 114; 112;
   118; 124; 130; 136; 142; 148;
   142; 136; 130; 124; 118; 112;
   120; 128; 136; 144; 152]%Z.

Definition signalSeries : CandleSeries :=
  map (fun ip => candle (fst ip) (snd ip) (snd ip + 1) (snd ip - 1) (snd ip) 1000)
      (combine (seq 0 35) signalPrices).

(** A series whose last close rises above the earlier of two falling swing
    highs. *)
Definition chochPrices : list Z :=
  [130; 134; 138; 142; 146; 150;
   145; 140; 135; 130; 125; 120;
   123; 126; 129; 132; 135; 138;
   133; 128; 123; 118; 113; 108;
   118; 128; 138; 148; 158]%Z.

Definition chochSeries : CandleSeries :=
  map (fun ip => candle (fst ip) (snd ip) (snd ip + 1) (snd ip - 1) (snd ip) 1000)
      (combine (seq 0 29) chochPrices).

(** *** Candles of an exchange *)

(** A candle whose six numbers are finite and whose volume is not negative. *)
Definition finiteCandle (c : Candle) : Prop :=
  exists t o h l cl v : Q,
    c = mkCandle (Fin t) (Fin o) (Fin h) (Fin l) (Fin cl) (Fin v) /\ (0 <= v)%Q.

(** *** Liquidity zones *)

(** A zone made from two or more swings of nearly the same price: its level
    is the price of one of the swing highs (sell side) or swing lows (buy
    side), and it is swept when the close is beyond the level. *)
Definition zoneFrom (highs lows : list SmartMoneyAnalyzer.Swing) (close : num)
           (z : SmartMoneyAnalyzer.LiquidityZone) : Prop :=
  (2 <= SmartMoneyAnalyzer.lz_count z)%nat
  /\ SmartMoneyAnalyzer.lz_strength z
     = (Num.of_nat (SmartMoneyAnalyzer.lz_count z) * Fin 15)%num
  /\ match SmartMoneyAnalyzer.lz_type z with
     | SmartMoneyAnalyzer.sell_side =>
         (exists s, In s highs
                    /\ SmartMoneyAnalyzer.lz_level z = SmartMoneyAnalyzer.sw_price s)
         /\ SmartMoneyAnalyzer.lz_swept z = (close >? SmartMoneyAnalyzer.lz_level z)%num
     | SmartMoneyAnalyzer.buy_side =>
         (exists s, In s lows
                    /\ SmartMoneyAnalyzer.lz_level z = SmartMoneyAnalyzer.sw_price s)
         /\ SmartMoneyAnalyzer.lz_swept z = (close <? SmartMoneyAnalyzer.lz_level z)%num
     end.

(** The number of swings in a list of groups. *)
Definition groupTotal (groups : list (list SmartMoneyAnalyzer.Swing)) : nat :=
  list_sum (map (@length SmartMoneyAnalyzer.Swing) groups).

(** The zone is of the given side. *)
Definition zoneIs (ty : SmartMoneyAnalyzer.ZoneType)
           (z : SmartMoneyAnalyzer.LiquidityZone) : bool :=
  match SmartMoneyAnalyzer.lz_type z, ty with
  | SmartMoneyAnalyzer.sell_side, SmartMoneyAnalyzer.sell_side
  | SmartMoneyAnalyzer.buy_side, SmartMoneyAnalyzer.buy_side => true
  | _, _ => false
  end.

(** The number of swings all the zones of a side stand for. *)
Definition zoneSwings (ty : SmartMoneyAnalyzer.ZoneType)
           (zones : list SmartMoneyAnalyzer.LiquidityZone) : nat :=
  list_sum (map SmartMoneyAnalyzer.lz_count (filter (zoneIs ty) zones)).

(** *** Swings *)

(** [l] is what is left of [m] when some of its elements are dropped. *)
Inductive subsequence {A : Type} : list A -> list A -> Prop :=
| sub_nil : subsequence [] []
| sub_skip (x : A) (l m : list A) : subsequence l m -> subsequence l (x :: m)
| sub_keep (x : A) (l m : list A) : subsequence l m -> subsequence (x :: l) (x :: m).

(** The order of two swings by their index. *)
Definition indexLe (a b : ElliottWaveAnalyzer.SwingPoint) : Prop :=
  (ElliottWaveAnalyzer.sw_index a <= ElliottWaveAnalyzer.sw_index b)%nat.

(** *** Pivots *)

(** The candle [c] at index [i] has a full window of five candles on each
    side, and every other candle of the window passes [test] against it. *)
Definition windowPivot (test : Candle -> Candle -> bool) (data : CandleSeries)
           (i : nat) (c : Candle) : Prop :=
  nth_error data i = Some c
  /\ (5 <= i)%nat /\ (i + 5 < length data)%nat
  /\ forall j cj, j <> i -> (i - 5 <= j <= i + 5)%nat ->
                  nth_error data j = Some cj -> test cj c = true.

Definition notHigher (cj c : Candle) : bool := c_high cj <=? c_high c.
Definition notLower (cj c : Candle) : bool := c_low cj >=? c_low c.

(** The pivot object made from the candle [c] at index [i]. *)
Definition pivotAt (price : Candle -> num) (i : nat) (c : Candle)
  : SupportResistanceAnalyzer.PivotPoint :=
  SupportResistanceAnalyzer.mkPivot i (price c) (c_time c) (c_volume c).

(** A swing of [identifySwingPoints]: a high (low) at the index of a candle
    whose high (low) no candle of the window exceeds (undercuts), with that
    candle's price and time. *)
Definition swingAt (data : CandleSeries) (s : ElliottWaveAnalyzer.SwingPoint) : Prop :=
  exists c,
    ElliottWaveAnalyzer.sw_time s = c_time c
    /\ match ElliottWaveAnalyzer.sw_type s with
       | ElliottWaveAnalyzer.high =>
           windowPivot notHigher data (ElliottWaveAnalyzer.sw_index s) c
           /\ ElliottWaveAnalyzer.sw_price s = c_high c
       | ElliottWaveAnalyzer.low =>
           windowPivot notLower data (ElliottWaveAnalyzer.sw_index s) c
           /\ ElliottWaveAnalyzer.sw_price s = c_low c
       end.

End Vocabulary.

(* ===================================================================== *)
(** * Properties *)
(* ===================================================================== *)

Unset Implicit Arguments.

(** ** Numbers and outcomes *)

Section NumFacts.

Local Open Scope num_scope.

Lemma ltb_Fin (a b : Q) : (Fin a <? Fin b) = true <-> (a < b)%Q.
Proof.
  simpl. rewrite negb_true_iff. split; intro H.
  - apply Qnot_le_lt. intro L. apply Qle_bool_iff in L. congruence.
  - destruct (Qle_bool b a) eqn:E; [|reflexivity].
    apply Qle_bool_iff in E. exfalso. apply (Qlt_not_le _ _ H E).
Qed.

Lemma leb_Fin (a b : Q) : (Fin a <=? Fin b) = true <-> (a <= b)%Q.
Proof. simpl. apply Qle_bool_iff. Qed.

Lemma ltb_Fin_false (a b : Q) : (Fin a <? Fin b) = false <-> (b <= a)%Q.
Proof.
  simpl. rewrite negb_false_iff. apply Qle_bool_iff.
Qed.

Lemma leb_Fin_false (a b : Q) : (Fin a <=? Fin b) = false <-> (b < a)%Q.
Proof.
  split; intro H.
  - apply Qnot_le_lt. intro L. apply leb_Fin in L. congruence.
  - destruct (Fin a <=? Fin b) eqn:E; [|reflexivity].
    apply leb_Fin in E. exfalso. apply (Qlt_not_le _ _ H E).
Qed.

Lemma leb_not_gtb (x y : num) : (x <=? y) = true -> (y <? x) = false.
Proof.
  destruct x, y; simpl; try reflexivity; try discriminate.
  intros ->. reflexivity.
Qed.

Lemma ltb_irrefl (x : num) : (x <? x) = false.
Proof.
  destruct x; try reflexivity. apply ltb_Fin_false. apply Qle_refl.
Qed.

End NumFacts.

(* ===================================================================== *)
(** ** The rounding of doubles *)
(* ===================================================================== *)

Section Doubles.

Lemma pow2_pos (e : Z) : 0 < Num.pow2 e.
Proof. apply Qpower_0_lt. reflexivity. Qed.

Lemma pow2_minus (a b : Z) : Num.pow2 (a - b) == Num.pow2 a / Num.pow2 b.
Proof. apply Qpower_minus. intro H. discriminate H. Qed.

Lemma pow2_of_Z (n : Z) : (0 <= n)%Z -> Num.pow2 n == inject_Z (2 ^ n).
Proof. intro H. symmetry. apply (Zpower_Qpower 2 n H). Qed.

(** [binade] is not above the exponent of its argument. *)
Lemma binade_le (x : Q) : 0 < x -> Num.pow2 (Num.binade x) <= x.
Proof.
  intro Hx. unfold Num.binade.
  destruct (Qle_bool _ x) eqn:E; [apply Qle_bool_iff in E; exact E|].
  clear E. destruct x as [n d]. simpl Qnum. simpl Qden.
  assert (Hn : (0 < n)%Z) by (unfold Qlt in Hx; simpl in Hx; lia).
  pose proof (Z.log2_spec n Hn) as [Ha _].
  pose proof (Z.log2_spec (Zpos d) eq_refl) as [_ Hb].
  pose proof (Z.log2_nonneg n) as Ha0.
  pose proof (Z.log2_nonneg (Zpos d)) as Hb0.
  set (a := Z.log2 n) in *. set (b := Z.log2 (Zpos d)) in *.
  replace (a - b - 1)%Z with (a - Z.succ b)%Z by lia.
  rewrite pow2_minus, !pow2_of_Z by lia.
  assert (HA : (0 < 2 ^ a)%Z) by (apply Z.pow_pos_nonneg; lia).
  assert (HB : (0 < 2 ^ Z.succ b)%Z) by (apply Z.pow_pos_nonneg; lia).
  apply Qle_shift_div_r; [change 0 with (inject_Z 0); rewrite <- Zlt_Qlt; exact HB|].
  unfold Qle, Qmult, inject_Z. simpl. nia.
Qed.

(** And it is not below it. *)
Lemma binade_lt (x : Q) : 0 < x -> x < Num.pow2 (Num.binade x + 1).
Proof.
  intro Hx. unfold Num.binade.
  destruct x as [n d]. simpl Qnum. simpl Qden.
  assert (Hn : (0 < n)%Z) by (unfold Qlt in Hx; simpl in Hx; lia).
  pose proof (Z.log2_spec n Hn) as [_ Ha].
  pose proof (Z.log2_spec (Zpos d) eq_refl) as [Hb _].
  pose proof (Z.log2_nonneg n) as Ha0.
  pose proof (Z.log2_nonneg (Zpos d)) as Hb0.
  set (a := Z.log2 n) in *. set (b := Z.log2 (Zpos d)) in *.
  destruct (Qle_bool _ (n # d)) eqn:E.
  - replace (a - b + 1)%Z with (Z.succ a - b)%Z by lia.
    rewrite pow2_minus, !pow2_of_Z by lia.
    assert (HA : (0 < 2 ^ Z.succ a)%Z) by (apply Z.pow_pos_nonneg; lia).
    assert (HB : (0 < 2 ^ b)%Z) by (apply Z.pow_pos_nonneg; lia).
    apply Qlt_shift_div_l; [change 0 with (inject_Z 0); rewrite <- Zlt_Qlt; exact HB|].
    unfold Qlt, Qmult, inject_Z. simpl. nia.
  - replace (a - b - 1 + 1)%Z with (a - b)%Z by lia.
    apply Qnot_le_lt. intro L. apply Qle_bool_iff in L. congruence.
Qed.

Lemma nearest_even_bounds (y : Q) :
  y - (1 # 2) <= inject_Z (Num.nearest_even y) <= y + (1 # 2).
Proof.
  unfold Num.nearest_even.
  pose proof (Qfloor_le y) as Hl. pose proof (Qlt_floor y) as Hu.
  rewrite inject_Z_plus in Hu. change (inject_Z 1) with 1 in Hu.
  destruct (Qcompare _ _) eqn:E.
  - apply Qeq_alt in E.
    destruct (Z.even _); [|rewrite inject_Z_plus; change (inject_Z 1) with 1]; lra.
  - apply Qlt_alt in E. lra.
  - apply Qgt_alt in E. rewrite inject_Z_plus. change (inject_Z 1) with 1. lra.
Qed.

Lemma nearest_even_nonneg (y : Q) : 0 <= y -> (0 <= Num.nearest_even y)%Z.
Proof.
  intro Hy. unfold Num.nearest_even.
  assert (Hf : (0 <= Qfloor y)%Z).
  { change 0%Z with (Qfloor 0). apply Qfloor_resp_le. exact Hy. }
  destruct (Qcompare _ _); [destruct (Z.even _)| |]; lia.
Qed.

Lemma ulp_pos (x : Q) : 0 < Num.ulp x.
Proof. apply pow2_pos. Qed.

(** The unit in the last place is at most [2^-52] of the number, but for
    the subnormals, where it is [2^-1074]. *)
Lemma ulp_le (x : Q) :
  0 < x -> Num.ulp x <= x * Num.pow2 (-52) + Num.pow2 (-1074).
Proof.
  intro Hx. unfold Num.ulp.
  pose proof (pow2_pos (-52)) as H52. pose proof (pow2_pos (-1074)) as H1074.
  destruct (Z.max_spec (Num.binade x) (-1022)) as [[_ ->]|[_ ->]].
  - change (-1022 - 52)%Z with (-1074)%Z. nra.
  - replace (Num.binade x - 52)%Z with (Num.binade x + -52)%Z by lia.
    unfold Num.pow2 at 1. rewrite Qpower_plus by (intro H; discriminate H).
    fold (Num.pow2 (Num.binade x)). fold (Num.pow2 (-52)).
    pose proof (binade_le x Hx). nra.
Qed.

(** The double of a positive number is within half a unit in the last
    place. *)
Lemma binary64_pos_spec (x : Q) :
  0 < x ->
  exists r : Q,
    x - Num.ulp x * (1 # 2) <= r <= x + Num.ulp x * (1 # 2) /\ 0 <= r
    /\ Num.binary64_pos x
       = (if Qle_bool (Num.pow2 1024) r then PInf else Fin (Qred r)).
Proof.
  intro Hx. unfold Num.binary64_pos. cbv zeta.
  pose proof (ulp_pos x) as Hu.
  set (m := Num.nearest_even (x / Num.ulp x)).
  exists (inject_Z m * Num.ulp x). split; [|split; [|reflexivity]].
  - pose proof (nearest_even_bounds (x / Num.ulp x)) as [Hl Hh]. fold m in Hl, Hh.
    assert (E : x / Num.ulp x * Num.ulp x == x).
    { field. intro H0. rewrite H0 in Hu. apply (Qlt_irrefl 0 Hu). }
    apply Qmult_le_compat_r with (z := Num.ulp x) in Hl; [|lra].
    apply Qmult_le_compat_r with (z := Num.ulp x) in Hh; [|lra].
    revert Hl Hh E. generalize (x / Num.ulp x). generalize (inject_Z m) (Num.ulp x).
    intros z u y Hl Hh E. split; lra.
  - apply Qmult_le_0_compat; [|lra].
    change 0 with (inject_Z 0). rewrite <- Zle_Qle.
    apply nearest_even_nonneg. apply Qle_shift_div_l; lra.
Qed.

(** What [binary64] returns: an infinity only on overflow, and otherwise a
    number of the sign of its argument and within [h] of it, half a unit in
    the last place. *)
Lemma binary64_spec (x : Q) :
  (Num.binary64 x = PInf
   /\ 2 * Num.pow2 1024 <= 2 * x + (x * Num.pow2 (-52) + Num.pow2 (-1074)))
  \/ (Num.binary64 x = NInf
      /\ 2 * x - (- x * Num.pow2 (-52) + Num.pow2 (-1074)) <= - (2 * Num.pow2 1024))
  \/ exists r h : Q,
       Num.binary64 x = Fin r /\ 0 <= h
       /\ 2 * h <= Qabs x * Num.pow2 (-52) + Num.pow2 (-1074)
       /\ x - h <= r <= x + h /\ (0 <= x -> 0 <= r) /\ (x <= 0 -> r <= 0).
Proof.
  pose proof (pow2_pos (-52)) as H52. pose proof (pow2_pos (-1074)) as H1074.
  unfold Num.binary64. destruct (Qcompare x 0) eqn:E.
  - apply Qeq_alt in E. right. right. exists 0, 0.
    pose proof (Qabs_nonneg x).
    split; [reflexivity|]. split; [lra|]. split; [nra|]. split; [lra|]. split; lra.
  - apply Qlt_alt in E.
    assert (Hx : 0 < - x) by lra.
    destruct (binary64_pos_spec (- x) Hx) as (r & [Hl Hh] & Hr & ->).
    pose proof (ulp_le (- x) Hx) as Hu. pose proof (ulp_pos (- x)) as Hu0.
    destruct (Qle_bool _ r) eqn:B.
    + apply Qle_bool_iff in B. right. left. split; [reflexivity|]. lra.
    + right. right. exists (- Qred r), (Num.ulp (- x) * (1 # 2)). simpl Num.neg.
      pose proof (Qred_correct r) as Er. rewrite (Qabs_neg x) by lra.
      split; [reflexivity|]. split; [lra|]. split; [lra|]. split; [lra|]. split; lra.
  - apply Qgt_alt in E.
    destruct (binary64_pos_spec x E) as (r & [Hl Hh] & Hr & ->).
    pose proof (ulp_le x E) as Hu. pose proof (ulp_pos x) as Hu0.
    destruct (Qle_bool _ r) eqn:B.
    + apply Qle_bool_iff in B. left. split; [reflexivity|]. lra.
    + right. right. exists (Qred r), (Num.ulp x * (1 # 2)).
      pose proof (Qred_correct r) as Er. rewrite (Qabs_pos x) by lra.
      split; [reflexivity|]. split; [lra|]. split; [lra|]. split; [lra|]. split; lra.
Qed.

Lemma pow2_52 : Num.pow2 (-52) == 1 # 4503599627370496.
Proof. reflexivity. Qed.

Lemma pow2_1074_small : Num.pow2 (-1074) <= 1 # 1000000000.
Proof. apply Qle_bool_iff. vm_compute. reflexivity. Qed.

Lemma pow2_1024_large : 2000000000000000000 <= Num.pow2 1024.
Proof. apply Qle_bool_iff. vm_compute. reflexivity. Qed.

(** The same with the constants written out, [2^-52] for the relative error
    and a bound of [10^-9] on the absolute error of subnormals: the double
    of a number that is not negative is +Infinity only from [10^18] ... *)
Lemma binary64_nonneg (x : Q) :
  0 <= x ->
  (Num.binary64 x = PInf /\ 1000000000000000000 <= x)
  \/ exists r h : Q,
       Num.binary64 x = Fin r /\ 0 <= r /\ 0 <= h
       /\ 2 * h <= x * (1 # 4503599627370496) + (1 # 1000000000)
       /\ x - h <= r <= x + h.
Proof.
  intro Hx.
  pose proof pow2_1074_small as HS. pose proof pow2_1024_large as HL.
  pose proof (pow2_pos (-1074)) as H1074.
  destruct (binary64_spec x) as [[E H]|[[E H]|(r & h & E & Hh & H2 & Hr & Hs & _)]];
    rewrite pow2_52 in *.
  - left. split; [exact E|]. lra.
  - exfalso. pose proof (pow2_pos 1024). lra.
  - right. exists r, h. rewrite (Qabs_pos x Hx) in H2.
    split; [exact E|]. split; [auto|]. split; [exact Hh|]. split; [lra|exact Hr].
Qed.

(** ... and that of a number that is not positive is -Infinity only from
    [-10^18]. *)
Lemma binary64_nonpos (x : Q) :
  x <= 0 ->
  (Num.binary64 x = NInf /\ x <= - 1000000000000000000)
  \/ exists r h : Q,
       Num.binary64 x = Fin r /\ r <= 0 /\ 0 <= h
       /\ 2 * h <= - x * (1 # 4503599627370496) + (1 # 1000000000)
       /\ x - h <= r <= x + h.
Proof.
  intro Hx.
  pose proof pow2_1074_small as HS. pose proof pow2_1024_large as HL.
  pose proof (pow2_pos (-1074)) as H1074.
  destruct (binary64_spec x) as [[E H]|[[E H]|(r & h & E & Hh & H2 & Hr & _ & Hs)]];
    rewrite pow2_52 in *.
  - exfalso. lra.
  - left. split; [exact E|]. lra.
  - right. exists r, h. rewrite (Qabs_neg x Hx) in H2.
    split; [exact E|]. split; [auto|]. split; [exact Hh|]. split; [lra|exact Hr].
Qed.

(** Ties go to the even neighbour: [2^53 + 1] rounds down to [2^53] and
    [2^53 + 3] up to [2^53 + 4]; half the least subnormal rounds to 0 and
    three halves of it to twice it; the largest double is [2^1024 - 2^971],
    and the number half way from it to [2^1024] overflows. *)
Lemma binary64_ties :
  Num.binary64 9007199254740993 = Fin 9007199254740992
  /\ Num.binary64 9007199254740995 = Fin 9007199254740996
  /\ Num.binary64 (Num.pow2 (-1075)) = Fin 0
  /\ Num.binary64 (3 * Num.pow2 (-1075)) = Fin (Qred (Num.pow2 (-1073)))
  /\ Num.binary64 (Num.pow2 1024 - Num.pow2 971) = Fin (Qred (Num.pow2 1024 - Num.pow2 971))
  /\ Num.binary64 (Num.pow2 1024 - Num.pow2 970) = PInf.
Proof. repeat split; vm_compute; reflexivity. Qed.

(** The doubles of the literals of the round numbers. *)
Lemma lit_values :
  lit 1 100 = Fin (5764607523034235 # 576460752303423488)
  /\ lit 1 10 = Fin (3602879701896397 # 36028797018963968)
  /\ lit 2 10 = Fin (3602879701896397 # 18014398509481984).
Proof. repeat split; vm_compute; reflexivity. Qed.

End Doubles.

Lemma Returns_inj {A} (a b : A) : Returns a = Returns b -> a = b.
Proof. intro H. injection H as ->. reflexivity. Qed.

Lemma bind_Returns {A B} (m : outcome A) (k : A -> outcome B) (b : B) :
  bind m k = Returns b -> exists a, m = Returns a /\ k a = Returns b.
Proof. destruct m; simpl; intro H; try discriminate. eauto. Qed.

Section OutcomeFacts.

Context {A B : Type}.

Lemma mapM_In (f : A -> outcome B) (l : list A) (ys : list B) :
  mapM f l = Returns ys ->
  forall y, In y ys -> exists x, In x l /\ f x = Returns y.
Proof.
  revert ys. induction l as [|x t IH]; simpl; intros ys H y Hy.
  - injection H as <-. contradiction.
  - apply bind_Returns in H. destruct H as (y0 & Hx & H).
    apply bind_Returns in H. destruct H as (ys0 & Ht & H).
    injection H as <-. destruct Hy as [<-|Hy].
    + exists x. auto.
    + destruct (IH _ Ht _ Hy) as (x' & Hin & Hf). exists x'. auto.
Qed.

Lemma mapM_length (f : A -> outcome B) (l : list A) (ys : list B) :
  mapM f l = Returns ys -> length ys = length l.
Proof.
  revert ys. induction l as [|x t IH]; simpl; intros ys H.
  - injection H as <-. reflexivity.
  - apply bind_Returns in H. destruct H as (y0 & Hx & H).
    apply bind_Returns in H. destruct H as (ys0 & Ht & H).
    injection H as <-. simpl. f_equal. eauto.
Qed.

(** An invariant of the accumulator of a loop. *)
Lemma foldM_invariant {S : Type} (P : S -> Prop) (f : S -> A -> outcome S)
      (l : list A) :
  (forall s x s', P s -> In x l -> f s x = Returns s' -> P s') ->
  forall s s', P s -> foldM f l s = Returns s' -> P s'.
Proof.
  induction l as [|x t IH]; simpl; intros Hf s s' Hs H.
  - injection H as <-. exact Hs.
  - apply bind_Returns in H. destruct H as (s1 & H1 & H).
    apply (IH (fun s0 y s0' P0 Hy => Hf s0 y s0' P0 (or_intror Hy)) s1 s'); auto.
    apply (Hf s x s1); auto.
Qed.

End OutcomeFacts.

Lemma at_last_nonempty {A} (a : list A) :
  a <> [] -> exists x, at_last a = Returns x.
Proof.
  destruct a as [|x t]; [congruence|]. intros _. unfold at_last, at_index.
  destruct (nth_error (x :: t) (length (x :: t) - 1)) eqn:E; eauto.
  apply nth_error_None in E. simpl in E. lia.
Qed.

(** Sorting keeps the elements. *)
Section SortFacts.

Context {A : Type} (key : A -> num).

Lemma insert_desc_In (x y : A) (l : list A) :
  In y (insert_desc key x l) <-> y = x \/ In y l.
Proof.
  induction l as [|z t IH]; simpl.
  - intuition.
  - destruct (Num.ltb (key z) (key x)); simpl; [intuition|].
    rewrite IH. intuition.
Qed.

Lemma insert_desc_length (x : A) (l : list A) :
  length (insert_desc key x l) = S (length l).
Proof.
  induction l as [|z t IH]; simpl; [reflexivity|].
  destruct (Num.ltb (key z) (key x)); simpl; [reflexivity|]. now rewrite IH.
Qed.

Lemma sort_desc_acc_In (l acc : list A) (y : A) :
  In y (fold_left (fun acc x => insert_desc key x acc) l acc) <-> In y acc \/ In y l.
Proof.
  revert acc. induction l as [|x t IH]; simpl; intro acc.
  - intuition.
  - rewrite IH, insert_desc_In. intuition.
Qed.

Lemma sort_desc_In (l : list A) (y : A) : In y (sort_desc key l) <-> In y l.
Proof. unfold sort_desc. rewrite sort_desc_acc_In. simpl. intuition. Qed.

Lemma sort_desc_acc_length (l acc : list A) :
  length (fold_left (fun acc x => insert_desc key x acc) l acc) = (length acc + length l)%nat.
Proof.
  revert acc. induction l as [|x t IH]; simpl; intro acc; [lia|].
  rewrite IH, insert_desc_length. lia.
Qed.

Lemma sort_desc_length (l : list A) : length (sort_desc key l) = length l.
Proof. unfold sort_desc. now rewrite sort_desc_acc_length. Qed.

End SortFacts.

(* ===================================================================== *)
(** ** Series too short for a window (C2) *)
(* ===================================================================== *)

(** C2. A candle series with fewer than [2 * lookback + 1] candles, that is
    fewer than 11 with the lookback of 5, has no pivot: [findPivotPoints]
    returns empty [highs] and [lows], and the swing extractors
    [findSwingHighs], [findSwingLows] and [identifySwingPoints] return the
    empty list. *)
Theorem short_series_no_pivots_no_swings (data : CandleSeries) :
  (length data < 2 * SupportResistanceAnalyzer.lookback + 1)%nat ->
  SupportResistanceAnalyzer.findPivotPoints data
    = Returns (SupportResistanceAnalyzer.mkPivots [] [])
  /\ SmartMoneyAnalyzer.findSwingHighs data = Returns []
  /\ SmartMoneyAnalyzer.findSwingLows data = Returns []
  /\ ElliottWaveAnalyzer.identifySwingPoints data = Returns [].
Proof.
  unfold SupportResistanceAnalyzer.lookback. intro H.
  assert (E : (length data - 5 - 5 = 0)%nat) by lia.
  unfold SupportResistanceAnalyzer.findPivotPoints,
    SmartMoneyAnalyzer.findSwingHighs, SmartMoneyAnalyzer.findSwingHighsWith,
    SmartMoneyAnalyzer.findSwingLows, SmartMoneyAnalyzer.findSwingLowsWith,
    ElliottWaveAnalyzer.identifySwingPoints, ElliottWaveAnalyzer.rawSwingPoints,
    SupportResistanceAnalyzer.lookback, ElliottWaveAnalyzer.lookback.
  rewrite E. simpl. auto.
Qed.

Lemma short_series_no_pivots_no_swings_witness :
  SupportResistanceAnalyzer.findPivotPoints Vocabulary.threeCandles
    = Returns (SupportResistanceAnalyzer.mkPivots [] [])
  /\ SmartMoneyAnalyzer.findSwingHighs Vocabulary.threeCandles = Returns []
  /\ SmartMoneyAnalyzer.findSwingLows Vocabulary.threeCandles = Returns []
  /\ ElliottWaveAnalyzer.identifySwingPoints Vocabulary.threeCandles = Returns [].
Proof.
  apply (short_series_no_pivots_no_swings Vocabulary.threeCandles).
  unfold SupportResistanceAnalyzer.lookback. simpl. lia.
Defined.

(* ===================================================================== *)
(** ** Significant swings alternate (C10) *)
(* ===================================================================== *)

Section Alternation.

Import ElliottWaveAnalyzer Vocabulary.

Lemma SwingType_eqb_eq (a b : SwingType) : SwingType_eqb a b = true <-> a = b.
Proof. destruct a, b; simpl; split; congruence. Qed.

Lemma SwingType_eqb_neq (a b : SwingType) : SwingType_eqb a b = false <-> a <> b.
Proof. destruct a, b; simpl; split; congruence. Qed.

Lemma last_opt_cons {A} (x y : A) (l : list A) :
  last_opt (x :: y :: l) = last_opt (y :: l).
Proof.
  unfold last_opt. f_equal. revert x y.
  induction l as [|z t IH]; intros x y; [reflexivity|].
  change (List.last (y :: z :: t) x) with (List.last (z :: t) x).
  change (List.last (z :: t) y) with (match t with [] => z | _ => List.last t y end).
  destruct t as [|z' t']; [reflexivity|].
  rewrite (IH x z). symmetry. apply (IH y z).
Qed.

Lemma alternates_push (l : list SwingPoint) (c : SwingPoint) :
  alternates l ->
  (forall x, last_opt l = Some x -> sw_type x <> sw_type c) ->
  alternates (l ++ [c]).
Proof.
  induction l as [|a [|b t] IH]; intros Hl Hlast.
  - exact I.
  - simpl. split; [|exact I]. apply Hlast. reflexivity.
  - destruct Hl as [Hab Ht]. change ((a :: b :: t) ++ [c]) with (a :: (b :: t) ++ [c]).
    change ((b :: t) ++ [c]) with (b :: t ++ [c]) in *.
    split; [exact Hab|]. apply IH; [exact Ht|].
    intros x Hx. apply Hlast. rewrite last_opt_cons. exact Hx.
Qed.

Lemma alternates_replace_last (l : list SwingPoint) (x c : SwingPoint) :
  alternates l ->
  last_opt l = Some x ->
  sw_type c = sw_type x ->
  alternates (removelast l ++ [c]).
Proof.
  induction l as [|a [|b t] IH]; intros Hl Hlast Hc.
  - discriminate.
  - exact I.
  - destruct Hl as [Hab Ht]. rewrite last_opt_cons in Hlast.
    specialize (IH Ht Hlast Hc).
    change (removelast (a :: b :: t)) with (a :: removelast (b :: t)).
    destruct t as [|b' t'].
    + simpl. simpl in Hlast. injection Hlast as <-. split; [congruence|exact I].
    + change (removelast (b :: b' :: t')) with (b :: removelast (b' :: t')) in *.
      simpl. simpl in IH. split; [exact Hab|exact IH].
Qed.

Lemma filterStep_alternates (filtered : list SwingPoint) (current : SwingPoint) :
  alternates filtered -> alternates (filterStep filtered current).
Proof.
  intro H. unfold filterStep. destruct (last_opt filtered) as [last|] eqn:El.
  - destruct (SwingType_eqb (sw_type current) (sw_type last)) eqn:Et.
    + rewrite andb_false_r. apply SwingType_eqb_eq in Et.
      match goal with |- alternates (if ?b then _ else _) => destruct b end.
      * now apply alternates_replace_last with last.
      * exact H.
    + apply SwingType_eqb_neq in Et. simpl negb. rewrite andb_true_r.
      match goal with |- alternates (if ?b then _ else _) => destruct b end.
      * apply alternates_push; [exact H|]. intros x Hx. congruence.
      * exact H.
  - apply alternates_push; [exact H|]. intros x Hx. congruence.
Qed.

Lemma fold_filterStep_alternates (swings filtered : list SwingPoint) :
  alternates filtered -> alternates (fold_left filterStep swings filtered).
Proof.
  revert filtered. induction swings as [|c t IH]; simpl; intros filtered H.
  - exact H.
  - apply IH. now apply filterStep_alternates.
Qed.

(** C10. For every input swing list, the output of [filterSignificantSwings]
    strictly alternates in kind: no two consecutive kept swings are both
    highs or both lows. *)
Theorem filterSignificantSwings_alternates (swings : list SwingPoint) :
  alternates (filterSignificantSwings swings).
Proof. apply fold_filterStep_alternates. exact I. Qed.

End Alternation.

(* ===================================================================== *)
(** ** Too few significant swings (C9) *)
(* ===================================================================== *)

(** C9. When the significant-swing list of a candle series has fewer than 5
    entries, [analyzeWave] returns a result with [isValid = false],
    confidence 0, and null [currentWave] and [waveStructure]. *)
Theorem analyzeWave_few_swings (data : CandleSeries)
        (swings : list ElliottWaveAnalyzer.SwingPoint) :
  ElliottWaveAnalyzer.identifySwingPoints data = Returns swings ->
  (length swings < 5)%nat ->
  ElliottWaveAnalyzer.analyzeWave data = Returns Vocabulary.invalidWaveResult.
Proof.
  intros Hs Hlen. unfold ElliottWaveAnalyzer.analyzeWave. rewrite Hs. simpl.
  apply Nat.ltb_lt in Hlen. rewrite Hlen. reflexivity.
Qed.

Lemma analyzeWave_few_swings_witness :
  ElliottWaveAnalyzer.analyzeWave Vocabulary.peakSeries
  = Returns Vocabulary.invalidWaveResult.
Proof.
  eapply (analyzeWave_few_swings Vocabulary.peakSeries).
  - vm_compute. reflexivity.
  - simpl. lia.
Defined.

(* ===================================================================== *)
(** ** Rule 2 of the impulse score (C5) *)
(* ===================================================================== *)

Section ImpulseRules.

Import ElliottWaveAnalyzer Vocabulary.

Lemma award_details (cond : bool) (points : num) (detail : string) (r : Rules) :
  details (award cond points detail r)
  = if cond then details r ++ [detail] else details r.
Proof. destruct cond; reflexivity. Qed.

(** What the code tests: the +20 is given exactly when wave 3 is at least as
    long as wave 1 and as wave 5, that is when it is the longest. *)
Lemma validateElliottRules_bonus_iff (waves : list SwingPoint) (d : Direction)
      (r : Rules) :
  validateElliottRules waves d = Returns r ->
  bonusAwarded r <-> wave3Longest (waveLengths d waves).
Proof.
  destruct waves as [|w1 [|w2 [|w3 [|w4 [|w5 rest]]]]]; try discriminate.
  unfold validateElliottRules, bonusAwarded, wave3Longest, waveLengths, le, Num.geb.
  destruct d; intro H; injection H as <-;
    rewrite !award_details; simpl details;
    repeat match goal with
           | |- context [if ?b then _ else _] =>
               let E := fresh "E" in destruct b eqn:E
           end;
    simpl; rewrite ?andb_true_iff, ?andb_false_iff in *;
    intuition (try discriminate; try congruence).
Qed.

(** One half of the rule holds: a wave 3 that gets the +20 is not the
    shortest. *)
Lemma validateElliottRules_bonus_not_shortest (waves : list SwingPoint)
      (d : Direction) (r : Rules) :
  validateElliottRules waves d = Returns r ->
  bonusAwarded r -> ~ wave3Shortest (waveLengths d waves).
Proof.
  intros H Hb. apply (validateElliottRules_bonus_iff waves d r H) in Hb.
  unfold wave3Longest, wave3Shortest, le, lt in *.
  destruct (waveLengths d waves) as [[l1 l3] l5].
  destruct Hb as [H1 _]. intros [H3 _].
  apply leb_not_gtb in H1. congruence.
Qed.

(** C5. The +20 of impulse scoring should be given exactly when wave 3 is
    not the shortest of waves 1, 3 and 5.  On the rising impulse
    100, 120, 110, 125, 118 and on its falling mirror image wave 3 is not
    the shortest (the last leg is shorter, signed or not), and the code
    gives no bonus: it asks wave 3 to be the longest. *)
Theorem wave3_not_shortest_bonus_missed :
  (exists r,
      validateElliottRules bullishWaves bullish = Returns r
      /\ ~ bonusAwarded r
      /\ score r = Fin 30%Q
      /\ ~ wave3Shortest (waveLengths bullish bullishWaves)
      /\ ~ wave3Shortest (absWaveLengths bullishWaves))
  /\ (exists r,
         validateElliottRules bearishWaves bearish = Returns r
         /\ ~ bonusAwarded r
         /\ score r = Fin 30%Q
         /\ ~ wave3Shortest (waveLengths bearish bearishWaves)
         /\ ~ wave3Shortest (absWaveLengths bearishWaves))
  /\ (exists c1 c2,
         analyzeImpulseWave bullishWaves = Returns c1
         /\ wc_direction c1 = Some bullish
         /\ ~ In "Wave 3 is not shortest"%string (wc_rules c1)
         /\ analyzeImpulseWave bearishWaves = Returns c2
         /\ wc_direction c2 = Some bearish
         /\ ~ In "Wave 3 is not shortest"%string (wc_rules c2)).
Proof.
  split; [|split].
  - eexists. split; [vm_compute; reflexivity|].
    repeat split.
    + unfold bonusAwarded. simpl. intuition discriminate.
    + vm_compute. intros [_ H]. discriminate.
    + vm_compute. intros [_ H]. discriminate.
  - eexists. split; [vm_compute; reflexivity|].
    repeat split.
    + unfold bonusAwarded. simpl. intuition discriminate.
    + vm_compute. intros [_ H]. discriminate.
    + vm_compute. intros [_ H]. discriminate.
  - eexists. eexists. split; [vm_compute; reflexivity|].
    split; [reflexivity|]. split; [simpl; intuition discriminate|].
    split; [vm_compute; reflexivity|].
    split; [reflexivity|]. simpl; intuition discriminate.
Qed.

End ImpulseRules.

(* ===================================================================== *)
(** ** Tested order blocks (C7) *)
(* ===================================================================== *)

Lemma In_skipn_nth_error {A} (l : list A) (n : nat) (x : A) :
  In x (skipn n l) <-> exists i, (n <= i)%nat /\ nth_error l i = Some x.
Proof.
  revert n. induction l as [|a t IH]; intro n.
  - rewrite skipn_nil. split; [contradiction|].
    intros (i & _ & H). destruct i; discriminate.
  - destruct n as [|n].
    + simpl skipn. split.
      * intro H. apply In_nth_error in H. destruct H as (i & H).
        exists i. split; [lia|exact H].
      * intros (i & _ & H). eapply nth_error_In; eauto.
    + simpl skipn. rewrite IH. split.
      * intros (i & Hi & H). exists (S i). split; [lia|exact H].
      * intros (i & Hi & H). destruct i as [|i]; [lia|].
        exists i. split; [lia|exact H].
Qed.

Section OrderBlocks.

Import SmartMoneyAnalyzer Vocabulary.

(** The loop of [findOrderBlocks] only makes bullish and bearish blocks. *)
Lemma rawOrderBlocks_types (data : CandleSeries) (obs : list OrderBlock) :
  rawOrderBlocks data = Returns obs ->
  forall ob, In ob obs -> ob_type ob = bullish \/ ob_type ob = bearish.
Proof.
  unfold rawOrderBlocks.
  apply (foldM_invariant
           (fun obs => forall ob, In ob obs -> ob_type ob = bullish \/ ob_type ob = bearish)).
  - intros s i s' Hs _ Hstep. unfold orderBlockStep in Hstep.
    apply bind_Returns in Hstep. destruct Hstep as (prev & _ & Hstep).
    apply bind_Returns in Hstep. destruct Hstep as (current & _ & Hstep).
    apply bind_Returns in Hstep. destruct Hstep as (next & _ & Hstep).
    injection Hstep as <-. intros ob Hob.
    repeat match type of Hob with
           | In _ (if ?b then _ else _) => destruct b
           | In _ (_ ++ _) => apply in_app_or in Hob; destruct Hob as [Hob|Hob]
           | In _ [_] => destruct Hob as [<-|[]]
           end; auto.
  - intros ob [].
Qed.

Lemma testsBlock_entersBand (ob : OrderBlock) (c : Candle) :
  ob_type ob = bullish \/ ob_type ob = bearish ->
  testsBlock ob c = true <-> entersBand ob c.
Proof.
  unfold testsBlock, entersBand, inBand, le, Num.geb.
  intros [E|E]; rewrite E, andb_true_iff; intuition congruence.
Qed.

(** What the test of [markTestedOrderBlocks] decides.  A block returned by
    [findOrderBlocks] is marked tested exactly when some later candle has its
    low (bullish block) or its high (bearish block) in [low, high]: the test
    [candle.low >= ob.low] (and [candle.high <= ob.high]) bounds the far side
    of the candle too. *)
Lemma order_block_tested_iff (data : CandleSeries) (obs : list OrderBlock)
        (ob : OrderBlock) :
  findOrderBlocks data = Returns obs ->
  In ob obs ->
  ob_tested ob = true
  <-> exists i c, (ob_index ob < i)%nat /\ nth_error data i = Some c /\ entersBand ob c.
Proof.
  intros Hf Hin. unfold findOrderBlocks in Hf.
  apply bind_Returns in Hf. destruct Hf as (raw & Hraw & Hf).
  injection Hf as <-. unfold markTestedOrderBlocks in Hin.
  apply in_map_iff in Hin. destruct Hin as (ob0 & <- & Hin0).
  pose proof (rawOrderBlocks_types data raw Hraw ob0 Hin0) as Hty.
  simpl ob_tested. simpl ob_index. rewrite existsb_exists. split.
  - intros (c & Hc & Ht). apply In_skipn_nth_error in Hc.
    destruct Hc as (i & Hi & Hnth). exists i, c. split; [lia|]. split; [exact Hnth|].
    apply testsBlock_entersBand in Ht; [|exact Hty].
    unfold entersBand in *. simpl. exact Ht.
  - intros (i & c & Hi & Hnth & He). exists c. split.
    + apply In_skipn_nth_error. exists i. split; [lia|exact Hnth].
    + apply testsBlock_entersBand; [exact Hty|]. exact He.
Qed.

Lemma order_block_tested_iff_witness :
  exists obs ob,
    findOrderBlocks engulfedBlockSeries = Returns obs
    /\ In ob obs
    /\ (ob_tested ob = true
        <-> exists i c, (ob_index ob < i)%nat
                        /\ nth_error engulfedBlockSeries i = Some c /\ entersBand ob c).
Proof.
  eexists. eexists.
  assert (Hf : findOrderBlocks engulfedBlockSeries
               = Returns [mkOrderBlock bullish (Fin 110) (Fin 100) 1 (Fin 1)
                                       (Fin 1000) (Fin 95) false])
    by (vm_compute; reflexivity).
  split; [exact Hf|]. split; [left; reflexivity|].
  apply (order_block_tested_iff engulfedBlockSeries _ _ Hf). left. reflexivity.
Defined.

(** C7.  A block should be marked tested exactly when the price range of
    some later candle revisits its band [low, high], the return of price to
    the block that the comments of [markTestedOrderBlocks] describe.  The
    code does not do so: in [engulfedBlockSeries] the candle after the
    bullish block of band [100, 110] opens at 105, inside the band, and
    trades from 95 to 115, across the whole band, and the block is returned
    with [tested = false], because the test [candle.low >= ob.low] rejects
    the low of 95. *)
Theorem order_block_revisited_not_tested :
  exists obs ob c,
    findOrderBlocks engulfedBlockSeries = Returns obs
    /\ In ob obs
    /\ (ob_index ob < 2)%nat
    /\ nth_error engulfedBlockSeries 2 = Some c
    /\ rangeRevisits ob c
    /\ inBand (ob_low ob) (ob_high ob) (c_open c)
    /\ ob_tested ob = false.
Proof.
  eexists. eexists. eexists.
  split; [vm_compute; reflexivity|].
  split; [left; reflexivity|].
  split; [simpl; lia|].
  split; [reflexivity|].
  split; [split; vm_compute; reflexivity|].
  split; [split; vm_compute; reflexivity|reflexivity].
Qed.

End OrderBlocks.

(* ===================================================================== *)
(** ** Re-clustering cluster means (C1) *)
(* ===================================================================== *)

Section OrdPairs.

Context {A : Type} (R : A -> A -> Prop).

Lemma FOP_middle (l1 l2 : list A) (x : A) :
  ForallOrdPairs R (l1 ++ x :: l2) -> Forall (fun a => R a x) l1.
Proof.
  induction l1 as [|a t IH]; simpl; intro H; [constructor|].
  inversion H as [|? ? Ha Ht]; subst. constructor.
  - rewrite Forall_forall in Ha. apply Ha. apply in_or_app. right. left. reflexivity.
  - apply IH. exact Ht.
Qed.

Lemma FOP_snoc (l : list A) (x : A) :
  ForallOrdPairs R l -> Forall (fun a => R a x) l -> ForallOrdPairs R (l ++ [x]).
Proof.
  induction l as [|a t IH]; simpl; intros Hl Hx.
  - constructor; constructor.
  - inversion Hl as [|? ? Ha Ht]; subst. inversion Hx as [|? ? Hax Htx]; subst.
    constructor.
    + apply Forall_app. split; [exact Ha|]. constructor; [exact Hax|constructor].
    + apply IH; assumption.
Qed.

End OrdPairs.

Section Clustering.

Import SupportResistanceAnalyzer Vocabulary.

Lemma addToCluster_length (p : PivotPoint) (cs cs' : list Cluster) :
  addToCluster p cs = Some cs' -> length cs' = length cs.
Proof.
  revert cs'. induction cs as [|c t IH]; simpl; intros cs' H; [discriminate|].
  destruct (withinTolerance (pv_price p) (avgPrice c)).
  - injection H as <-. reflexivity.
  - destruct (addToCluster p t) as [t'|]; [|discriminate].
    injection H as <-. simpl. f_equal. apply IH. reflexivity.
Qed.

Lemma clusterStep_length (cs : list Cluster) (p : PivotPoint) :
  (length (clusterStep cs p) <= S (length cs))%nat.
Proof.
  unfold clusterStep. destruct (addToCluster p cs) as [cs'|] eqn:E.
  - apply addToCluster_length in E. lia.
  - rewrite length_app. simpl. lia.
Qed.

Lemma fold_clusterStep_length (ps : list PivotPoint) (cs : list Cluster) :
  (length (fold_left clusterStep ps cs) <= length cs + length ps)%nat.
Proof.
  revert cs. induction ps as [|p t IH]; simpl; intro cs; [lia|].
  specialize (IH (clusterStep cs p)). pose proof (clusterStep_length cs p). lia.
Qed.

(** A pivot founds a cluster among singletons exactly when it is outside the
    tolerance of each of them. *)
Lemma addToCluster_singletons (p : PivotPoint) (done : list PivotPoint) :
  addToCluster p (map singleton done) = None
  <-> Forall (fun d => withinTolerance (pv_price p) (pv_price d) = false) done.
Proof.
  induction done as [|d t IH]; simpl.
  - split; [constructor|reflexivity].
  - destruct (withinTolerance (pv_price p) (pv_price d)) eqn:E.
    + split; [discriminate|]. intro H. inversion H; congruence.
    + destruct (addToCluster p (map singleton t)) as [t'|]; simpl.
      * split; [discriminate|]. intro H. inversion H as [|? ? _ Ht]; subst.
        apply IH in Ht. discriminate.
      * split; [|reflexivity]. intros _. constructor; [exact E|].
        apply IH. reflexivity.
Qed.

Lemma cluster_separated_singletons (ps done : list PivotPoint) :
  separated (map pv_price (done ++ ps)) ->
  fold_left clusterStep ps (map singleton done) = map singleton (done ++ ps).
Proof.
  revert done. induction ps as [|p t IH]; intros done H.
  - rewrite app_nil_r. reflexivity.
  - simpl fold_left. unfold clusterStep at 2.
    assert (Hnone : addToCluster p (map singleton done) = None).
    { apply addToCluster_singletons. unfold separated in H.
      rewrite map_app in H. simpl map in H. apply FOP_middle in H.
      rewrite Forall_map in H. exact H. }
    rewrite Hnone.
    change [mkCluster (pv_price p) [p]] with (map singleton [p]).
    rewrite <- map_app.
    replace (done ++ p :: t) with ((done ++ [p]) ++ t) in *
      by (rewrite <- app_assoc; reflexivity).
    apply IH. exact H.
Qed.

(** A pass that ends with as many clusters as it was given pivots never
    joined one: the prices are separated. *)
Lemma cluster_count_separated (ps done : list PivotPoint) :
  length (fold_left clusterStep ps (map singleton done))
  = (length done + length ps)%nat ->
  separated (map pv_price done) ->
  separated (map pv_price (done ++ ps)).
Proof.
  revert done. induction ps as [|p t IH]; intros done H Hdone.
  - rewrite app_nil_r. exact Hdone.
  - simpl fold_left in H. unfold clusterStep at 2 in H.
    destruct (addToCluster p (map singleton done)) as [cs'|] eqn:E.
    + exfalso. apply addToCluster_length in E.
      pose proof (fold_clusterStep_length t cs') as L.
      rewrite length_map in E. cbn [length] in H. lia.
    + change [mkCluster (pv_price p) [p]] with (map singleton [p]) in H.
      rewrite <- map_app in H.
      replace (done ++ p :: t) with ((done ++ [p]) ++ t)
        by (rewrite <- app_assoc; reflexivity).
      apply IH.
      * rewrite H, length_app. cbn [length]. lia.
      * rewrite map_app. simpl map. apply FOP_snoc; [exact Hdone|].
        rewrite Forall_map. apply addToCluster_singletons. exact E.
Qed.

(** One pass over a pivot list leaves every pivot alone in its cluster
    exactly when the prices are separated, and exactly when it makes as many
    clusters as there are pivots. *)
Lemma clusterPivotPoints_singletons_iff (ps : list PivotPoint) :
  clusterPivotPoints ps = map singleton ps <-> separated (map pv_price ps).
Proof.
  unfold clusterPivotPoints. split; intro H.
  - apply (cluster_count_separated ps []); [|constructor].
    cbn [map]. rewrite H, length_map. reflexivity.
  - apply (cluster_separated_singletons ps []). exact H.
Qed.

Lemma clusterPivotPoints_count_iff (ps : list PivotPoint) :
  length (clusterPivotPoints ps) = length ps <-> separated (map pv_price ps).
Proof.
  split; intro H.
  - apply (cluster_count_separated ps []); [exact H|constructor].
  - apply clusterPivotPoints_singletons_iff in H. rewrite H. apply length_map.
Qed.

(** C1, as the code has it.  Clustering a pivot list and then re-clustering
    its cluster means (one pivot per cluster, priced at the cluster's mean)
    produces the same clusters, that is singleton clusters with the means of
    the first pass, exactly when those means are separated: none within
    the tolerance of an earlier one.  The same condition decides whether the
    second pass has the means of the first at all.  The greedy first pass
    does not ensure it. *)
Theorem recluster_means_iff (pivots ps : list PivotPoint) :
  meansOf ps (clusterPivotPoints pivots) ->
  (clusterPivotPoints ps = map singleton ps
   <-> separated (map avgPrice (clusterPivotPoints pivots)))
  /\ (map avgPrice (clusterPivotPoints ps) = map avgPrice (clusterPivotPoints pivots)
      <-> separated (map avgPrice (clusterPivotPoints pivots))).
Proof.
  unfold meansOf. intro Hm. rewrite <- Hm. split.
  - apply clusterPivotPoints_singletons_iff.
  - split; intro H.
    + apply clusterPivotPoints_count_iff.
      apply (f_equal (@length num)) in H. rewrite !length_map in H. exact H.
    + apply clusterPivotPoints_singletons_iff in H. rewrite H, map_map. reflexivity.
Qed.

Lemma recluster_means_iff_witness :
  clusterPivotPoints (meanPivots (clusterPivotPoints settledPivots))
  = map singleton (meanPivots (clusterPivotPoints settledPivots))
  /\ map avgPrice (clusterPivotPoints (meanPivots (clusterPivotPoints settledPivots)))
     = map avgPrice (clusterPivotPoints settledPivots).
Proof.
  assert (Hsep : separated (map avgPrice (clusterPivotPoints settledPivots)))
    by (vm_compute; repeat constructor).
  destruct (recluster_means_iff settledPivots
              (meanPivots (clusterPivotPoints settledPivots)) eq_refl) as [H1 H2].
  split; [apply H1|apply H2]; exact Hsep.
Defined.

(** C1 as stated fails: the two clusters of [driftingPivots] have the means
    1002 and 1006, and a second pass over these means merges them into one
    cluster of mean 1004. *)
Lemma recluster_means_merges :
  meansOf (meanPivots driftingFirst) driftingFirst
  /\ length driftingFirst = 2%nat
  /\ length driftingSecond = 1%nat
  /\ driftingSecond <> map singleton (meanPivots driftingFirst)
  /\ map avgPrice driftingSecond <> map avgPrice driftingFirst.
Proof.
  split; [reflexivity|]. split; [reflexivity|]. split; [reflexivity|].
  split; intro H; apply (f_equal (@length _)) in H; vm_compute in H; discriminate.
Qed.

End Clustering.

(* ===================================================================== *)
(** ** The step of the round numbers (C8) *)
(* ===================================================================== *)

Section RoundStep.

Import SupportResistanceAnalyzer Vocabulary.
Local Open Scope num_scope.

(** [findPsychologicalLevels] runs the loop of round numbers with
    [selectedStep]. *)
Lemma findPsychologicalLevels_step (data : CandleSeries) (levels : list Level) :
  findPsychologicalLevels data = Returns levels ->
  exists last step roundNumbers,
    at_last data = Returns last
    /\ selectedStep data = Returns step
    /\ (let currentPrice := c_close last in
        let priceRange := Num.double (currentPrice * lit 2 10) in
        let minPrice := Num.double (currentPrice - priceRange) in
        let maxPrice := Num.double (currentPrice + priceRange) in
        let start := Num.double (Num.floor (Num.double (minPrice / step)) * step) in
        roundLoop (roundFuel start maxPrice step) start maxPrice step
        = Returns roundNumbers)
    /\ levels
       = flat_map (fun roundPrice =>
                     let touchCount := countTouches roundPrice data in
                     if (2 <=? touchCount)%nat
                     then [psychLevel roundPrice touchCount] else [])
                  roundNumbers.
Proof.
  unfold findPsychologicalLevels, selectedStep, generateRoundNumbers. intro H.
  apply bind_Returns in H. destruct H as (last & Hl & H).
  apply bind_Returns in H. destruct H as (rn & Hrn & H).
  apply Returns_inj in H. subst levels. exists last. rewrite Hl. cbn [bind].
  eexists. exists rn. split; [reflexivity|]. split; [reflexivity|].
  split; [exact Hrn|reflexivity].
Qed.

Lemma roundStep_Fin (m : Q) :
  roundStep (Fin m)
  = if Qlt_le_dec m 1 then lit 1 100
    else if Qlt_le_dec m 10 then lit 1 10
    else if Qlt_le_dec m 100 then Fin 1%Q
    else if Qlt_le_dec m 1000 then Fin 10%Q
    else Fin 100%Q.
Proof.
  unfold roundStep.
  repeat match goal with
         | |- context [Qlt_le_dec ?a ?b] => destruct (Qlt_le_dec a b)
         end;
    repeat match goal with
           | |- context [Fin ?a <? Fin ?b] =>
               let E := fresh "E" in
               destruct (Fin a <? Fin b) eqn:E;
               [apply ltb_Fin in E | apply ltb_Fin_false in E]
           end;
    try reflexivity; exfalso; lra.
Qed.

Lemma double_Fin (q : Q) : Num.double (Fin q) = Num.binary64 q.
Proof. reflexivity. Qed.

(** The upper bound computed from a close [c] that is not negative is
    [1.2 c] up to the rounding of the product and of the sum; it is
    +Infinity only from [10^17]. *)
Lemma upperBound_bounds (c : Q) :
  (0 <= c)%Q ->
  (upperBound (Fin c) = PInf /\ (100000000000000000 <= c)%Q)
  \/ exists m : Q,
       upperBound (Fin c) = Fin m
       /\ ((1199 # 1000) * c - (1 # 1000000) <= m)%Q
       /\ (m <= (1201 # 1000) * c + (1 # 1000000))%Q.
Proof.
  intro Hc. unfold upperBound.
  destruct lit_values as (_ & _ & ->).
  change (Fin c * Fin (3602879701896397 # 18014398509481984))
    with (Fin (c * (3602879701896397 # 18014398509481984))).
  rewrite double_Fin.
  destruct (binary64_nonneg (c * (3602879701896397 # 18014398509481984)))
    as [[-> H]|(r & h & -> & Hr & Hh & H2 & Hl & Hu)]; [lra| |].
  - left. split; [reflexivity|lra].
  - change (Fin c + Fin r) with (Fin (c + r)). rewrite double_Fin.
    destruct (binary64_nonneg (c + r)%Q)
      as [[-> H]|(m & k & -> & Hm & Hk & K2 & Kl & Ku)]; [lra| |].
    + left. split; [reflexivity|lra].
    + right. exists m. split; [reflexivity|]. split; lra.
Qed.

(** C8, as the code has it.  For a non-empty series whose latest close is the
    price [c], the step of the round numbers is read off the upper bound of
    the range, [maxPrice = c + c * 0.2] as the code computes it in doubles,
    and not off the close: 0.01 when that bound is below 1, 0.1 below 10, 1
    below 100, 10 below 1000 and 100 otherwise.  The bound is 1.2 c up to
    its rounding, so that the step is 0.01 for a close from 0 to 0.83, 0.1
    from 0.84 to 8.3, 1 from 8.4 to 83, 10 from 84 to 830 and 100 from 840;
    in between, near 5/6, 25/3, 250/3 and 2500/3, the rounding of the bound
    decides. *)
Theorem psychological_step_from_upper_bound (data : CandleSeries) (last : Candle)
        (c : Q) :
  at_last data = Returns last ->
  c_close last = Fin c ->
  exists step,
    selectedStep data = Returns step
    /\ step = stepOfPrice (upperBound (Fin c))
    /\ ((0 <= c)%Q -> (c <= 83 # 100)%Q -> step = lit 1 100)
    /\ ((84 # 100 <= c)%Q -> (c <= 83 # 10)%Q -> step = lit 1 10)
    /\ ((84 # 10 <= c)%Q -> (c <= 83)%Q -> step = Fin 1%Q)
    /\ ((84 <= c)%Q -> (c <= 830)%Q -> step = Fin 10%Q)
    /\ ((840 <= c)%Q -> step = Fin 100%Q).
Proof.
  intros Hl Hc. unfold selectedStep. rewrite Hl. cbn [bind]. rewrite Hc.
  fold (upperBound (Fin c)).
  eexists. split; [reflexivity|]. split; [reflexivity|].
  assert (H : (0 <= c)%Q ->
              roundStep (upperBound (Fin c)) = Fin 100%Q /\ (100000000000000000 <= c)%Q
              \/ exists m : Q,
                  roundStep (upperBound (Fin c)) = roundStep (Fin m)
                  /\ ((1199 # 1000) * c - (1 # 1000000) <= m)%Q
                  /\ (m <= (1201 # 1000) * c + (1 # 1000000))%Q).
  { intro H0. destruct (upperBound_bounds c H0) as [[-> H]|(m & -> & H)].
    - left. split; [reflexivity|exact H].
    - right. exists m. split; [reflexivity|exact H]. }
  repeat split; intros;
    (destruct H as [[E H]|(m & -> & Hlo & Hhi)]; [lra| |]);
    try (exfalso; lra); try exact E;
    rewrite roundStep_Fin;
    repeat match goal with
           | |- context [Qlt_le_dec ?a ?b] => destruct (Qlt_le_dec a b)
           end;
    try reflexivity; exfalso; lra.
Qed.

(** The five prices of the specification: 0.5, 5, 50, 500 and 5000. *)
Lemma psychological_step_from_upper_bound_witness :
  selectedStep (closingAt (dec 5 10)) = Returns (lit 1 100)
  /\ selectedStep (closingAt (Fin 5%Q)) = Returns (lit 1 10)
  /\ selectedStep (closingAt (Fin 50%Q)) = Returns (Fin 1%Q)
  /\ selectedStep (closingAt (Fin 500%Q)) = Returns (Fin 10%Q)
  /\ selectedStep (closingAt (Fin 5000%Q)) = Returns (Fin 100%Q).
Proof.
  split; [|split; [|split; [|split]]].
  - destruct (psychological_step_from_upper_bound
                (closingAt (dec 5 10)) _ (5 # 10)%Q eq_refl eq_refl)
      as (step & Hs & _ & H & _).
    rewrite Hs, H; [reflexivity| |]; discriminate.
  - destruct (psychological_step_from_upper_bound
                (closingAt (Fin 5%Q)) _ 5%Q eq_refl eq_refl)
      as (step & Hs & _ & _ & H & _).
    rewrite Hs, H; [reflexivity| |]; discriminate.
  - destruct (psychological_step_from_upper_bound
                (closingAt (Fin 50%Q)) _ 50%Q eq_refl eq_refl)
      as (step & Hs & _ & _ & _ & H & _).
    rewrite Hs, H; [reflexivity| |]; discriminate.
  - destruct (psychological_step_from_upper_bound
                (closingAt (Fin 500%Q)) _ 500%Q eq_refl eq_refl)
      as (step & Hs & _ & _ & _ & _ & H & _).
    rewrite Hs, H; [reflexivity| |]; discriminate.
  - destruct (psychological_step_from_upper_bound
                (closingAt (Fin 5000%Q)) _ 5000%Q eq_refl eq_refl)
      as (step & Hs & _ & _ & _ & _ & _ & H).
    rewrite Hs, H; [reflexivity|]. discriminate.
Defined.

(** Between the closes of the theorem the rounding decides.  The double
    83.33333333333333, which is 5864062014805333 / 2^46, is below 250/3; its
    fifth rounds to 16.666666666666668 and the sum to 100 exactly, and the
    step is 10, where the exact bound, below 100, would give 1. *)
Lemma psychological_step_rounded_bound :
  let close := (5864062014805333 # 70368744177664)%Q in
  Num.binary64 close = Fin close
  /\ (close < 250 # 3)%Q
  /\ (close + close * (2 # 10) < 100)%Q
  /\ Num.double (Fin close * lit 2 10) = Fin (4691249611844267 # 281474976710656)
  /\ upperBound (Fin close) = Fin 100
  /\ selectedStep (closingAt (Fin close)) = Returns (Fin 10).
Proof.
  cbv zeta. split; [vm_compute; reflexivity|]. split; [reflexivity|].
  split; [reflexivity|]. repeat split; vm_compute; reflexivity.
Qed.

(** C8 as stated fails: the close 0.9 is below 1, and the step is 0.1, not
    0.01, because the upper bound 1.08 is not below 1; the round numbers of
    the range are 0.7000000000000001, 0.8, 0.9 and 1. *)
Lemma psychological_step_not_from_close :
  at_last (closingAt (lit 9 10)) <> Throws
  /\ lt (lit 9 10) (Fin 1)
  /\ stepOfPrice (lit 9 10) = lit 1 100
  /\ upperBound (lit 9 10) = lit 108 100
  /\ selectedStep (closingAt (lit 9 10)) = Returns (lit 1 10)
  /\ (lit 1 10 =? lit 1 100) = false
  /\ generateRoundNumbers
       (Num.double (lit 9 10 - Num.double (lit 9 10 * lit 2 10)))
       (upperBound (lit 9 10))
     = Returns [Fin (6305039478318695 # 9007199254740992); lit 8 10; lit 9 10; Fin 1].
Proof.
  split; [discriminate|]. repeat split; vm_compute; reflexivity.
Qed.

End RoundStep.

(* ===================================================================== *)
(** ** Touches of the levels (C3) *)
(* ===================================================================== *)

Section Touches.

Import SupportResistanceAnalyzer Vocabulary.

Lemma identifyLevels_touches (ty : LevelType) (pivots : list PivotPoint)
      (data : CandleSeries) (levels : list Level) :
  identifyLevels ty pivots data = Returns levels ->
  forall l, In l levels -> (minTouchCount <= lv_touches l)%nat /\ lv_type l = ty.
Proof.
  unfold identifyLevels. intros H l Hl.
  apply bind_Returns in H. destruct H as (ls & Hm & H). injection H as <-.
  apply sort_desc_In in Hl.
  destruct (mapM_In _ _ _ Hm l Hl) as (cluster & Hc & Hlevel).
  apply filter_In in Hc. destruct Hc as [_ Hc]. apply Nat.leb_le in Hc.
  unfold levelOfCluster in Hlevel.
  apply bind_Returns in Hlevel. destruct Hlevel as (rel & _ & Hlevel).
  injection Hlevel as <-. simpl. auto.
Qed.

Lemma calculateLevelStrength_keeps (levels levels' : list Level) (data : CandleSeries) :
  calculateLevelStrength levels data = Returns levels' ->
  forall l', In l' levels' ->
  exists l, In l levels
            /\ lv_touches l' = lv_touches l
            /\ lv_type l' = lv_type l
            /\ lv_price l' = lv_price l.
Proof.
  unfold calculateLevelStrength. intros H l' Hl'.
  apply bind_Returns in H. destruct H as (last & _ & H). injection H as <-.
  apply in_map_iff in Hl'. destruct Hl' as (l & <- & Hl).
  exists l. simpl. auto.
Qed.

Lemma findPsychologicalLevels_touches (data : CandleSeries) (levels : list Level) :
  findPsychologicalLevels data = Returns levels ->
  forall l, In l levels -> (2 <= lv_touches l)%nat /\ lv_type l = psychological.
Proof.
  unfold findPsychologicalLevels. intros H l Hl.
  apply bind_Returns in H. destruct H as (last & _ & H).
  apply bind_Returns in H. destruct H as (rn & _ & H). injection H as <-.
  apply in_flat_map in Hl. destruct Hl as (roundPrice & _ & Hl).
  cbv zeta in Hl.
  match type of Hl with
  | In _ (if ?b then _ else _) => destruct b eqn:E
  end; [|contradiction].
  destruct Hl as [<-|[]]. simpl. split; [|reflexivity].
  destruct (countTouches roundPrice data) as [|[|n]]; try discriminate. lia.
Qed.

Lemma findVolumeLevels_touches (data : CandleSeries) (levels : list Level) :
  findVolumeLevels data = Returns levels ->
  forall l, In l levels ->
            lv_touches l = countTouches (lv_price l) data /\ lv_type l = volume.
Proof.
  unfold findVolumeLevels. intros H l Hl. cbv zeta in H.
  remember (calculateVolumeProfile data 50) as profile eqn:Ep. clear Ep.
  apply bind_Returns in H. destruct H as (node & _ & H). injection H as <-.
  apply in_flat_map in Hl. destruct Hl as (n & _ & Hl).
  match type of Hl with In _ (if ?b then _ else _) => destruct b end;
    [|contradiction].
  destruct Hl as [<-|[]]. simpl. auto.
Qed.

(** C3, as the code has it.  Every support and resistance level returned by
    [findLevels] and every psychological level among its key levels has
    [touches >= minTouchCount] (2).  A volume level carries the number of
    candles that touch its price, whatever it is: no minimum is asked of
    it. *)
Theorem findLevels_touches (data : CandleSeries) (levels : Levels) :
  findLevels data = Returns levels ->
  (forall l, In l (lvs_support levels ++ lvs_resistance levels) ->
             (minTouchCount <= lv_touches l)%nat)
  /\ (forall l, In l (lvs_keyLevels levels) ->
                lv_type l = psychological \/ lv_type l = volume)
  /\ (forall l, In l (lvs_keyLevels levels) -> lv_type l = psychological ->
                (minTouchCount <= lv_touches l)%nat)
  /\ (forall l, In l (lvs_keyLevels levels) -> lv_type l = volume ->
                lv_touches l = countTouches (lv_price l) data).
Proof.
  unfold findLevels. intro H.
  apply bind_Returns in H. destruct H as (pivots & _ & H).
  apply bind_Returns in H. destruct H as (sup & Hsup & H).
  apply bind_Returns in H. destruct H as (res & Hres & H).
  apply bind_Returns in H. destruct H as (psy & Hpsy & H).
  apply bind_Returns in H. destruct H as (vol & Hvol & H).
  apply bind_Returns in H. destruct H as (sup' & Hsup' & H).
  apply bind_Returns in H. destruct H as (res' & Hres' & H).
  injection H as <-. simpl.
  pose proof (identifyLevels_touches _ _ _ _ Hsup) as Ts.
  pose proof (identifyLevels_touches _ _ _ _ Hres) as Tr.
  pose proof (calculateLevelStrength_keeps _ _ _ Hsup') as Ks.
  pose proof (calculateLevelStrength_keeps _ _ _ Hres') as Kr.
  pose proof (findPsychologicalLevels_touches _ _ Hpsy) as Tp.
  pose proof (findVolumeLevels_touches _ _ Hvol) as Tv.
  split; [|split; [|split]].
  - intros l Hl. apply in_app_or in Hl. destruct Hl as [Hl|Hl].
    + destruct (Ks l Hl) as (l0 & Hl0 & -> & _). apply (Ts l0 Hl0).
    + destruct (Kr l Hl) as (l0 & Hl0 & -> & _). apply (Tr l0 Hl0).
  - intros l Hl. apply in_app_or in Hl. destruct Hl as [Hl|Hl].
    + left. apply (Tp l Hl).
    + right. apply (Tv l Hl).
  - intros l Hl Hty. apply in_app_or in Hl. destruct Hl as [Hl|Hl].
    + apply (Tp l Hl).
    + destruct (Tv l Hl) as [_ E]. congruence.
  - intros l Hl Hty. apply in_app_or in Hl. destruct Hl as [Hl|Hl].
    + destruct (Tp l Hl) as [_ E]. congruence.
    + apply (Tv l Hl).
Qed.

Lemma findLevels_touches_witness :
  exists levels,
    findLevels twoSupportsSeries = Returns levels
    /\ map lv_touches (lvs_support levels) = [2; 3]%nat
    /\ map lv_touches (lvs_resistance levels) = [25]%nat
    /\ (forall l, In l (lvs_support levels ++ lvs_resistance levels) ->
                  (minTouchCount <= lv_touches l)%nat).
Proof.
  eexists. split; [vm_compute; reflexivity|].
  split; [reflexivity|]. split; [reflexivity|].
  refine (proj1 (findLevels_touches twoSupportsSeries _ _)).
  vm_compute. reflexivity.
Defined.

(** C3 as stated fails: on the series of one candle from 100 to 200
    [findLevels] returns fifty volume levels, one per bin, and no candle
    touches any of them. *)
Lemma volume_level_without_touches :
  exists levels l,
    findLevels oneCandleSeries = Returns levels
    /\ In l (lvs_keyLevels levels)
    /\ lv_type l = volume
    /\ lv_touches l = 0%nat
    /\ (lv_touches l < minTouchCount)%nat.
Proof.
  eexists. eexists. split; [vm_compute; reflexivity|].
  split; [left; reflexivity|]. split; [reflexivity|]. split; [reflexivity|].
  unfold minTouchCount. simpl. lia.
Qed.

End Touches.

(* ===================================================================== *)
(** ** Order of the returned levels (C4) *)
(* ===================================================================== *)

Section Order.

Import SupportResistanceAnalyzer Vocabulary.

(** The sort of [identifySupportLevels] runs while every strength is still
    the initial 0. *)
Lemma identifyLevels_strength_zero (ty : LevelType) (pivots : list PivotPoint)
      (data : CandleSeries) (levels : list Level) :
  identifyLevels ty pivots data = Returns levels ->
  forall l, In l levels -> lv_strength l = Fin 0.
Proof.
  unfold identifyLevels. intros H l Hl.
  apply bind_Returns in H. destruct H as (ls & Hm & H). injection H as <-.
  apply sort_desc_In in Hl.
  destruct (mapM_In _ _ _ Hm l Hl) as (cluster & _ & Hlevel).
  unfold levelOfCluster in Hlevel.
  apply bind_Returns in Hlevel. destruct Hlevel as (rel & _ & Hlevel).
  injection Hlevel as <-. reflexivity.
Qed.

Lemma insert_desc_zero (l : list Level) (x : Level) :
  (forall y, In y l -> lv_strength y = Fin 0) ->
  lv_strength x = Fin 0 ->
  insert_desc lv_strength x l = l ++ [x].
Proof.
  intros Hl Hx. induction l as [|y t IH]; [reflexivity|].
  simpl. rewrite (Hl y (or_introl eq_refl)), Hx. simpl.
  f_equal. apply IH. intros z Hz. apply Hl. right. exact Hz.
Qed.

Lemma sort_desc_zero (l : list Level) :
  (forall y, In y l -> lv_strength y = Fin 0) -> sort_desc lv_strength l = l.
Proof.
  intro Hl. unfold sort_desc.
  assert (G : forall acc,
             (forall y, In y acc -> lv_strength y = Fin 0) ->
             fold_left (fun acc x => insert_desc lv_strength x acc) l acc = acc ++ l).
  { induction l as [|x t IH]; intros acc Hacc; simpl.
    - rewrite app_nil_r. reflexivity.
    - rewrite insert_desc_zero; [|exact Hacc|apply Hl; left; reflexivity].
      rewrite IH.
      + rewrite <- app_assoc. reflexivity.
      + intros y Hy. apply Hl. right. exact Hy.
      + intros y Hy. apply in_app_or in Hy. destruct Hy as [Hy|[<-|[]]].
        * apply Hacc. exact Hy.
        * apply Hl. left. reflexivity. }
  apply (G []). intros y [].
Qed.

(** So the sort of [identifySupportLevels] and [identifyResistanceLevels]
    changes nothing: the levels come out in the order in which their clusters
    were created. *)
Lemma identifyLevels_cluster_order (ty : LevelType) (pivots : list PivotPoint)
      (data : CandleSeries) :
  identifyLevels ty pivots data
  = mapM (levelOfCluster ty data)
         (filter (fun cluster => (minTouchCount <=? length (points cluster))%nat)
                 (clusterPivotPoints pivots)).
Proof.
  unfold identifyLevels. cbv zeta.
  destruct (mapM _ _) as [ls| |] eqn:E; cbn [bind]; try reflexivity.
  f_equal. apply sort_desc_zero. intros l Hl.
  destruct (mapM_In _ _ _ E l Hl) as (cluster & _ & Hlevel).
  unfold levelOfCluster in Hlevel.
  apply bind_Returns in Hlevel. destruct Hlevel as (rel & _ & Hlevel).
  injection Hlevel as <-. reflexivity.
Qed.

(** C4.  The support and resistance lists of [findLevels] should be sorted
    in descending order of the final strengths.  On [twoSupportsSeries] the
    support list holds the level at 100 (2 touches, strength 39) before the
    level at 150 (3 touches, strength 58): the lists are sorted before the
    strengths are computed and not after. *)
Theorem support_levels_not_sorted :
  exists levels,
    findLevels twoSupportsSeries = Returns levels
    /\ map lv_touches (lvs_support levels) = [2; 3]%nat
    /\ map lv_strength (lvs_support levels) = [Fin 39%Q; Fin 58%Q]
    /\ ~ descending (map lv_strength (lvs_support levels)).
Proof.
  eexists. split; [vm_compute; reflexivity|].
  split; [reflexivity|]. split; [reflexivity|].
  intros [H _]. vm_compute in H. discriminate.
Qed.

End Order.

(* ===================================================================== *)
(** ** Faults and zero denominators (C6) *)
(* ===================================================================== *)

Section FailSoft.

Import Vocabulary.

(** C6.  The entry points should return a result on every candle series,
    the empty one included, and every ratio with a possibly-zero denominator
    should take an explicit fallback.  On the empty series [findLevels],
    [detectPatterns] and [analyze] raise a TypeError: each reads [close] of
    the missing last candle ([findPsychologicalLevels],
    [detectCandlestickPatterns] through [isDoji], and
    [detectBreakOfStructure]); only [analyzeWave] returns its invalid
    result.  On a candle whose high equals its low the ratio of [isDoji] is
    0/0, which is NaN and compares false: the candle with no body at all is
    not taken for a doji, and no fallback is written. *)
Theorem empty_series_faults :
  SupportResistanceAnalyzer.findLevels [] = Throws
  /\ SupportResistanceAnalyzer.findPsychologicalLevels [] = Throws
  /\ PatternAnalyzer.detectPatterns [] = Throws
  /\ PatternAnalyzer.detectCandlestickPatterns [] = Throws
  /\ SmartMoneyAnalyzer.analyze [] = Throws
  /\ SmartMoneyAnalyzer.detectBreakOfStructure [] [] [] = Throws
  /\ ElliottWaveAnalyzer.analyzeWave [] = Returns invalidWaveResult
  /\ PatternAnalyzer.dojiRatio flatCandle = NaN
  /\ PatternAnalyzer.isDoji flatCandle = false.
Proof. repeat split. Qed.

End FailSoft.

(* ===================================================================== *)
(** ** The calls that always return *)
(* ===================================================================== *)

Lemma foldM_returns {A S} (f : S -> A -> outcome S) (l : list A) :
  (forall s x, In x l -> exists s', f s x = Returns s') ->
  forall s, exists s', foldM f l s = Returns s'.
Proof.
  induction l as [|x t IH]; simpl; intros Hf s.
  - eauto.
  - destruct (Hf s x (or_introl eq_refl)) as (s1 & H1). rewrite H1. simpl.
    apply IH. intros s0 y Hy. apply Hf. right. exact Hy.
Qed.

Lemma mapM_returns {A B} (f : A -> outcome B) (l : list A) :
  (forall x, In x l -> exists y, f x = Returns y) ->
  exists ys, mapM f l = Returns ys.
Proof.
  induction l as [|x t IH]; simpl; intros Hf.
  - eauto.
  - destruct (Hf x (or_introl eq_refl)) as (y & Hy). rewrite Hy. simpl.
    destruct IH as (ys & Hys); [intros z Hz; apply Hf; right; exact Hz|].
    rewrite Hys. simpl. eauto.
Qed.

Lemma at_index_returns {A} (a : list A) (i : nat) :
  (i < length a)%nat -> exists x, at_index a i = Returns x.
Proof.
  intro H. unfold at_index. destruct (nth_error a i) eqn:E; eauto.
  apply nth_error_None in E. lia.
Qed.

(** The centre of the window of half-width [k] around [i] is the candle [i]
    itself, whenever the loop visits [i]. *)
Lemma window_centre {A} (data : list A) (k i : nat) :
  In i (seq k (length data - k - k)) ->
  exists c, at_index (slice data (i - k) (i + k + 1)) k = Returns c
            /\ nth_error data i = Some c.
Proof.
  intro Hi. apply in_seq in Hi.
  assert (Hlt : (i < length data)%nat) by lia.
  destruct (nth_error data i) as [c|] eqn:E;
    [|apply nth_error_None in E; lia].
  exists c. split; [|reflexivity].
  unfold at_index, slice. rewrite nth_error_firstn.
  replace (k <? i + k + 1 - (i - k))%nat with true
    by (symmetry; apply Nat.ltb_lt; lia).
  rewrite nth_error_skipn. replace (i - k + k)%nat with i by lia.
  rewrite E. reflexivity.
Qed.

Section Returns.

Import Vocabulary.

Lemma findPivotPoints_returns (data : CandleSeries) :
  exists pivots, SupportResistanceAnalyzer.findPivotPoints data = Returns pivots.
Proof.
  unfold SupportResistanceAnalyzer.findPivotPoints. apply foldM_returns.
  intros s i Hi. unfold SupportResistanceAnalyzer.pivotStep.
  destruct (window_centre data _ i Hi) as (c & Hc & _). rewrite Hc. simpl. eauto.
Qed.

Lemma findSwingHighsWith_returns (lookback : nat) (data : CandleSeries) :
  exists swings, SmartMoneyAnalyzer.findSwingHighsWith lookback data = Returns swings.
Proof.
  unfold SmartMoneyAnalyzer.findSwingHighsWith. apply foldM_returns.
  intros s i Hi. unfold SmartMoneyAnalyzer.swingHighStep.
  destruct (window_centre data _ i Hi) as (c & Hc & _). rewrite Hc. simpl. eauto.
Qed.

Lemma findSwingLowsWith_returns (lookback : nat) (data : CandleSeries) :
  exists swings, SmartMoneyAnalyzer.findSwingLowsWith lookback data = Returns swings.
Proof.
  unfold SmartMoneyAnalyzer.findSwingLowsWith. apply foldM_returns.
  intros s i Hi. unfold SmartMoneyAnalyzer.swingLowStep.
  destruct (window_centre data _ i Hi) as (c & Hc & _). rewrite Hc. simpl. eauto.
Qed.

Lemma identifySwingPoints_returns (data : CandleSeries) :
  exists swings, ElliottWaveAnalyzer.identifySwingPoints data = Returns swings.
Proof.
  unfold ElliottWaveAnalyzer.identifySwingPoints, ElliottWaveAnalyzer.rawSwingPoints.
  destruct (foldM_returns (ElliottWaveAnalyzer.swingStep data)
              (seq ElliottWaveAnalyzer.lookback
                   (length data - ElliottWaveAnalyzer.lookback
                    - ElliottWaveAnalyzer.lookback))) with (s := @nil ElliottWaveAnalyzer.SwingPoint)
    as (swings & Hs).
  - intros s i Hi. unfold ElliottWaveAnalyzer.swingStep.
    destruct (window_centre data _ i Hi) as (c & Hc & _). rewrite Hc. simpl. eauto.
  - rewrite Hs. simpl. eauto.
Qed.

(** The three neighbours the loops of [findOrderBlocks] and
    [findFairValueGaps] read are candles of the series. *)
Lemma neighbours_defined {A} (data : list A) (i : nat) :
  In i (seq 1 (length data - 1 - 1)) ->
  exists p c n, at_index data (i - 1) = Returns p
                /\ at_index data i = Returns c
                /\ at_index data (i + 1) = Returns n.
Proof.
  intro Hi. apply in_seq in Hi.
  destruct (at_index_returns data (i - 1)) as (p & Hp); [lia|].
  destruct (at_index_returns data i) as (c & Hc); [lia|].
  destruct (at_index_returns data (i + 1)) as (n & Hn); [lia|].
  exists p, c, n. auto.
Qed.

Lemma findOrderBlocks_returns (data : CandleSeries) :
  exists obs, SmartMoneyAnalyzer.findOrderBlocks data = Returns obs.
Proof.
  unfold SmartMoneyAnalyzer.findOrderBlocks, SmartMoneyAnalyzer.rawOrderBlocks.
  match goal with
  | |- context [foldM ?f ?l ?s0] =>
      assert (exists r, foldM f l s0 = Returns r) as (obs & Ho);
      [apply foldM_returns|]
  end.
  - intros s i Hi. unfold SmartMoneyAnalyzer.orderBlockStep.
    destruct (neighbours_defined data i Hi) as (p & c & n & -> & -> & ->).
    simpl. eauto.
  - rewrite Ho. simpl. eauto.
Qed.

Lemma findFairValueGaps_returns (data : CandleSeries) :
  exists fvgs, SmartMoneyAnalyzer.findFairValueGaps data = Returns fvgs.
Proof.
  unfold SmartMoneyAnalyzer.findFairValueGaps.
  match goal with
  | |- context [foldM ?f ?l ?s0] =>
      assert (exists r, foldM f l s0 = Returns r) as (g & Hg);
      [apply foldM_returns|]
  end.
  - intros s i Hi. unfold SmartMoneyAnalyzer.gapStep.
    destruct (neighbours_defined data i Hi) as (p & c & n & -> & -> & ->).
    simpl. eauto.
  - rewrite Hg. simpl. eauto.
Qed.

End Returns.

(* ===================================================================== *)
(** ** The loop of round numbers *)
(* ===================================================================== *)

Section RoundLoop.

Import SupportResistanceAnalyzer Vocabulary.
Local Open Scope num_scope.

Lemma Qfloor_pred (y : Q) : (Qfloor (y - 1) + 1 <= Qfloor y)%Z.
Proof.
  rewrite <- (Qfloor_Z (Qfloor (y - 1) + 1)). apply Qfloor_resp_le.
  rewrite inject_Z_plus. pose proof (Qfloor_le (y - 1)) as H.
  change (inject_Z 1) with 1%Q. lra.
Qed.

Lemma roundLoop_S (fuel : nat) (price maxPrice step : num) :
  roundLoop (S fuel) price maxPrice step
  = if price <=? maxPrice
    then rest <- roundLoop fuel (Num.double (price + step)) maxPrice step ;;
         Returns (if price >? Fin 0 then price :: rest else rest)
    else Returns [].
Proof. reflexivity. Qed.

(** A loop whose test fails at once returns no number. *)
Lemma roundLoop_done (fuel : nat) (price maxPrice step : num) :
  (price <=? maxPrice) = false -> roundLoop fuel price maxPrice step = Returns [].
Proof. intro H. destruct fuel; simpl; rewrite H; reflexivity. Qed.

(** The loop raises nothing. *)
Lemma roundLoop_no_fault (fuel : nat) (price maxPrice step : num) :
  roundLoop fuel price maxPrice step <> Throws.
Proof.
  revert price. induction fuel as [|f IH]; intro price.
  - simpl. destruct (price <=? maxPrice); discriminate.
  - rewrite roundLoop_S. destruct (price <=? maxPrice); [|discriminate].
    specialize (IH (Num.double (price + step))).
    destruct (roundLoop f _ maxPrice step); simpl; congruence.
Qed.

(** Where the step is too small to change the price, the loop never ends:
    no number of iterations is enough. *)
Lemma roundLoop_absorbed (fuel : nat) (price maxPrice step : num) :
  (price <=? maxPrice) = true ->
  Num.double (price + step) = price ->
  roundLoop fuel price maxPrice step = Loops.
Proof.
  intros Ht Ha. induction fuel as [|f IH].
  - simpl. rewrite Ht. reflexivity.
  - rewrite roundLoop_S, Ht, Ha, IH. reflexivity.
Qed.

Lemma binary64_not_NaN (q : Q) : Num.binary64 q <> NaN.
Proof.
  destruct (binary64_spec q) as [[H _]|[[H _]|(r & h & H & _)]]; congruence.
Qed.

(** So it is below an upper bound of +Infinity. *)
Lemma roundLoop_unbounded (fuel : nat) (price : num) (t : Q) :
  price <> NaN -> roundLoop fuel price PInf (Fin t) = Loops.
Proof.
  revert price. induction fuel as [|f IH]; intros price Hp.
  - destruct price; try reflexivity. congruence.
  - rewrite roundLoop_S.
    assert (E : (price <=? PInf) = true) by (destruct price; try reflexivity; congruence).
    rewrite E, IH; [reflexivity|].
    destruct price as [s| | |]; [|discriminate|discriminate|congruence].
    change (Fin s + Fin t) with (Fin (s + t)). rewrite double_Fin.
    apply binary64_not_NaN.
Qed.

Lemma fuel_step (s r m t : Q) :
  (0 < t)%Q -> (s + t * (1 # 2) <= r)%Q ->
  (Qfloor (2 * (m - r) / t) + 1 <= Qfloor (2 * (m - s) / t))%Z.
Proof.
  intros Ht Hr.
  assert (H : (2 * (m - r) / t <= 2 * (m - s) / t - 1)%Q).
  { apply Qle_shift_div_r; [exact Ht|].
    assert (E : ((2 * (m - s) / t - 1) * t == 2 * (m - s) - t)%Q)
      by (field; intro Z; rewrite Z in Ht; apply (Qlt_irrefl 0 Ht)).
    rewrite E. lra. }
  apply Qfloor_resp_le in H. pose proof (Qfloor_pred (2 * (m - s) / t)). lia.
Qed.

(** Between finite bounds the iterations counted by [roundFuel] are enough
    and the loop leaves by its test, where the step is not below the unit in
    the last place of the prices: every price is from [-B] to [B], and
    [2^-52 (B + t)], with the [10^-9] that bounds the unit of the
    subnormals, is at most the step [t].  Every sum then rounds to a double
    half a step above the price at least. *)
Lemma roundLoop_enough (fuel : nat) (s m t B : Q) :
  (0 < t)%Q ->
  (m <= B)%Q ->
  (B <= 100000000000000000)%Q ->
  ((B + t) * (1 # 4503599627370496) + (1 # 1000000000) <= t)%Q ->
  (- B <= s)%Q ->
  (Qfloor (2 * (m - s) / t) + 1 <= Z.of_nat fuel)%Z ->
  exists l, roundLoop fuel (Fin s) (Fin m) (Fin t) = Returns l.
Proof.
  intros Ht Hm HB Hulp. revert s. induction fuel as [|f IH]; intros s Hs Hf;
    destruct (Fin s <=? Fin m) eqn:E;
    try (exists []; apply roundLoop_done; exact E).
  - exfalso. apply leb_Fin in E.
    assert (H0 : (0 <= 2 * (m - s) / t)%Q) by (apply Qle_shift_div_l; [exact Ht|lra]).
    apply Qfloor_resp_le in H0. change (Qfloor 0) with 0%Z in H0. lia.
  - rewrite roundLoop_S, E. apply leb_Fin in E.
    change (Fin s + Fin t) with (Fin (s + t)). rewrite double_Fin.
    assert (Next : Num.binary64 (s + t) = PInf
                   \/ exists r, Num.binary64 (s + t) = Fin r
                                /\ (s + t * (1 # 2) <= r)%Q).
    { destruct (Qlt_le_dec (s + t) 0) as [N|P].
      - destruct (binary64_nonpos (s + t))
          as [[_ H]|(r & h & -> & Hr & Hh & H2 & Hl & Hu)]; [lra|exfalso; lra|].
        right. exists r. split; [reflexivity|lra].
      - destruct (binary64_nonneg (s + t) P)
          as [[-> _]|(r & h & -> & Hr & Hh & H2 & Hl & Hu)].
        + left. reflexivity.
        + right. exists r. split; [reflexivity|lra]. }
    destruct Next as [->|(r & -> & Hr)].
    + rewrite roundLoop_done by reflexivity. cbn [bind]. eauto.
    + destruct (IH r) as (l & ->).
      * lra.
      * pose proof (fuel_step s r m t Ht Hr). lia.
      * cbn [bind]. eauto.
Qed.

Lemma mul_PInf (t : Q) : (0 < t)%Q -> PInf * Fin t = PInf.
Proof.
  intro Ht. destruct t as [n d]. unfold Qlt in Ht. simpl in Ht.
  destruct n; try lia. reflexivity.
Qed.

(** The start of the loop: the multiple of the step at or below
    [minPrice], each operation rounded.  It is not below [-3 t] where
    [minPrice] is not below -0.01 and the step [t] is from 0.0099 to 100. *)
Lemma roundStart_bounds (a t : Q) :
  (99 # 10000 <= t)%Q -> (t <= 100)%Q -> (- (1 # 100) <= a)%Q ->
  Num.double (Num.floor (Num.double (Fin a / Fin t)) * Fin t) = PInf
  \/ exists s : Q,
       Num.double (Num.floor (Num.double (Fin a / Fin t)) * Fin t) = Fin s
       /\ (- (3 * t) <= s)%Q.
Proof.
  intros Ht Ht' Ha.
  assert (Ht0 : (0 < t)%Q) by lra.
  assert (E : Fin a / Fin t = Fin (a / t)).
  { unfold Num.div. destruct (Qeq_bool t 0) eqn:Z; [|reflexivity].
    apply Qeq_bool_iff in Z. exfalso. lra. }
  rewrite E, double_Fin.
  assert (Hx : (- (102 # 100) <= a / t)%Q) by (apply Qle_shift_div_l; lra).
  assert (Q1 : Num.binary64 (a / t) = PInf
               \/ exists q, Num.binary64 (a / t) = Fin q /\ (- (103 # 100) <= q)%Q).
  { destruct (Qlt_le_dec (a / t) 0) as [N|P].
    - destruct (binary64_nonpos (a / t))
        as [[_ H]|(q & h & -> & Hq & Hh & H2 & Hl & Hu)]; [lra|exfalso; lra|].
      right. exists q. split; [reflexivity|lra].
    - destruct (binary64_nonneg (a / t) P)
        as [[-> _]|(q & h & -> & Hq & Hh & H2 & Hl & Hu)].
      + left. reflexivity.
      + right. exists q. split; [reflexivity|lra]. }
  destruct Q1 as [->|(q & -> & Hq)].
  - left. change (Num.floor PInf) with PInf. rewrite (mul_PInf t Ht0). reflexivity.
  - change (Num.floor (Fin q) * Fin t) with (Fin (inject_Z (Qfloor q) * t)).
    rewrite double_Fin.
    assert (Hf : (-2 <= Qfloor q)%Z).
    { change (-2)%Z with (Qfloor (- (103 # 100))). apply Qfloor_resp_le. exact Hq. }
    rewrite Zle_Qle in Hf.
    revert Hf. generalize (inject_Z (Qfloor q)). intros z Hz.
    change (inject_Z (-2)) with (-2)%Q in Hz.
    destruct (Qlt_le_dec (z * t) 0) as [N|P].
    + destruct (binary64_nonpos (z * t))
        as [[_ H]|(s & h & -> & Hs & Hh & H2 & Hl & Hu)]; [lra|exfalso; nra|].
      right. exists s. split; [reflexivity|]. nra.
    + destruct (binary64_nonneg (z * t) P)
        as [[-> _]|(s & h & -> & Hs & Hh & H2 & Hl & Hu)].
      * left. reflexivity.
      * right. exists s. split; [reflexivity|]. lra.
Qed.

Lemma generateRoundNumbers_with_step (a b t B : Q) :
  (99 # 10000 <= t)%Q -> (t <= 100)%Q -> (- (1 # 100) <= a)%Q ->
  (b <= B)%Q -> (3 * t <= B)%Q -> (B <= 100000000000000000)%Q ->
  ((B + t) * (1 # 4503599627370496) + (1 # 1000000000) <= t)%Q ->
  roundStep (Fin b) = Fin t ->
  exists l, generateRoundNumbers (Fin a) (Fin b) = Returns l.
Proof.
  intros Ht Ht' Ha Hb H3 HB Hulp Hstep. unfold generateRoundNumbers. rewrite Hstep.
  cbv zeta.
  destruct (roundStart_bounds a t Ht Ht' Ha) as [->|(s & -> & Hs)].
  - exists []. apply roundLoop_done. reflexivity.
  - apply (roundLoop_enough _ s b t B); try assumption; try lra.
    unfold roundFuel. lia.
Qed.

(** The loop of [generateRoundNumbers] leaves by its test, and the call
    returns, between a lower bound that is not below -0.01 and an upper bound
    of [10^17] at most. *)
Lemma generateRoundNumbers_returns (a b : Q) :
  (- (1 # 100) <= a)%Q -> (b <= 100000000000000000)%Q ->
  exists l, generateRoundNumbers (Fin a) (Fin b) = Returns l.
Proof.
  intros Ha Hb. pose proof (roundStep_Fin b) as Hs.
  destruct lit_values as (L1 & L2 & _). rewrite L1, L2 in Hs.
  repeat match type of Hs with
         | context [Qlt_le_dec ?x ?y] => destruct (Qlt_le_dec x y)
         end.
  - apply (generateRoundNumbers_with_step
             a b (5764607523034235 # 576460752303423488) 1000); try exact Hs; lra.
  - apply (generateRoundNumbers_with_step
             a b (3602879701896397 # 36028797018963968) 1000); try exact Hs; lra.
  - apply (generateRoundNumbers_with_step a b 1 1000); try exact Hs; lra.
  - apply (generateRoundNumbers_with_step a b 10 1000); try exact Hs; lra.
  - apply (generateRoundNumbers_with_step a b 100 100000000000000000);
      try exact Hs; lra.
Qed.

(** It raises nothing, whatever its bounds. *)
Lemma generateRoundNumbers_no_fault (minPrice maxPrice : num) :
  generateRoundNumbers minPrice maxPrice <> Throws.
Proof. unfold generateRoundNumbers. apply roundLoop_no_fault. Qed.

(** The lower bound computed from a close from 0 to [10^17] is a finite
    number that is not below -0.01. *)
Lemma lowerBound_bounds (c : Q) :
  (0 <= c)%Q -> (c <= 100000000000000000)%Q ->
  exists a : Q,
    Num.double (Fin c - Num.double (Fin c * lit 2 10)) = Fin a
    /\ (- (1 # 100) <= a)%Q.
Proof.
  intros Hc Hc'. destruct lit_values as (_ & _ & ->).
  change (Fin c * Fin (3602879701896397 # 18014398509481984))
    with (Fin (c * (3602879701896397 # 18014398509481984))).
  rewrite double_Fin.
  destruct (binary64_nonneg (c * (3602879701896397 # 18014398509481984)))
    as [[_ H]|(r & h & -> & Hr & Hh & H2 & Hl & Hu)]; [lra|exfalso; lra|].
  change (Fin c - Fin r) with (Fin (c + - r)). rewrite double_Fin.
  destruct (Qlt_le_dec (c + - r) 0) as [N|P].
  - destruct (binary64_nonpos (c + - r))
      as [[_ H]|(a & k & -> & Ha & Hk & K2 & Kl & Ku)]; [lra|exfalso; lra|].
    exists a. split; [reflexivity|lra].
  - destruct (binary64_nonneg (c + - r)%Q P)
      as [[_ H]|(a & k & -> & Ha & Hk & K2 & Kl & Ku)]; [exfalso; lra|].
    exists a. split; [reflexivity|lra].
Qed.

(** A close of 10^19.  The range is from 8 10^18 to 1.2 10^19 and the step
    is 100, less than half the unit in the last place of the doubles there,
    which is 1024: the sum of the start and the step rounds to the start,
    and the loop never ends. *)
Lemma generateRoundNumbers_absorbed :
  Num.double (Fin 8000000000000000000 + Fin 100) = Fin 8000000000000000000
  /\ generateRoundNumbers (Fin 8000000000000000000) (Fin 12000000000000000000) = Loops.
Proof.
  split; [vm_compute; reflexivity|].
  unfold generateRoundNumbers. cbv zeta.
  replace (roundStep (Fin 12000000000000000000)) with (Fin 100)
    by (vm_compute; reflexivity).
  replace (Num.double (Num.floor (Num.double (Fin 8000000000000000000 / Fin 100)) * Fin 100))
    with (Fin 8000000000000000000) by (vm_compute; reflexivity).
  apply roundLoop_absorbed; vm_compute; reflexivity.
Qed.

End RoundLoop.

Section LevelsReturn.

Import SupportResistanceAnalyzer Vocabulary.
Local Open Scope num_scope.

Lemma identifyLevels_returns (ty : LevelType) (pivots : list PivotPoint)
      (data : CandleSeries) :
  data <> [] -> exists levels, identifyLevels ty pivots data = Returns levels.
Proof.
  intro Hd. unfold identifyLevels.
  match goal with
  | |- context [mapM ?f ?l] =>
      destruct (mapM_returns f l) as (ls & Hls)
  end.
  - intros cluster _. unfold levelOfCluster, isRelevantLevel.
    destruct (at_last_nonempty data Hd) as (last & ->). cbn [bind]. eauto.
  - rewrite Hls. cbn [bind]. eauto.
Qed.

(** [findPsychologicalLevels] returns on a series whose latest close is a
    price from 0 to 10^9: the bounds of its range are finite and the step
    is far above the unit in the last place of the round numbers. *)
Lemma findPsychologicalLevels_returns (data : CandleSeries) :
  closesInRange data -> exists levels, findPsychologicalLevels data = Returns levels.
Proof.
  intros (last & c & Hl & Hc & H0 & H1). unfold findPsychologicalLevels.
  rewrite Hl. cbn [bind]. rewrite Hc. cbv zeta.
  destruct (lowerBound_bounds c H0 ltac:(lra)) as (a & -> & Ha).
  fold (upperBound (Fin c)).
  destruct (upperBound_bounds c H0) as [[_ H]|(b & -> & _ & Hb)]; [exfalso; lra|].
  destruct (generateRoundNumbers_returns a b Ha ltac:(lra)) as (rn & ->).
  cbn [bind]. eauto.
Qed.

(** On a series that has a candle it raises nothing: it returns, or its
    loop never ends. *)
Lemma findPsychologicalLevels_no_fault (data : CandleSeries) :
  data <> [] -> findPsychologicalLevels data <> Throws.
Proof.
  intro Hd. unfold findPsychologicalLevels.
  destruct (at_last_nonempty data Hd) as (last & ->). cbn [bind]. cbv zeta.
  match goal with
  | |- context [generateRoundNumbers ?a ?b] =>
      pose proof (generateRoundNumbers_no_fault a b) as H;
      destruct (generateRoundNumbers a b)
  end; cbn [bind]; congruence.
Qed.

(** A series whose latest close is 10^19: the loop of the round numbers
    never ends. *)
Lemma findPsychologicalLevels_loops :
  findPsychologicalLevels (closingAt (Fin 10000000000000000000)) = Loops.
Proof.
  unfold findPsychologicalLevels.
  change (at_last (closingAt (Fin 10000000000000000000)))
    with (Returns (mkCandle (Fin 0) (Fin 10000000000000000000) (Fin 10000000000000000000)
                            (Fin 10000000000000000000) (Fin 10000000000000000000)
                            (Fin 1000))).
  cbn [bind c_close]. cbv zeta.
  replace (Num.double (Fin 10000000000000000000
                       - Num.double (Fin 10000000000000000000 * lit 2 10)))
    with (Fin 8000000000000000000) by (vm_compute; reflexivity).
  replace (Num.double (Fin 10000000000000000000
                       + Num.double (Fin 10000000000000000000 * lit 2 10)))
    with (Fin 12000000000000000000) by (vm_compute; reflexivity).
  rewrite (proj2 generateRoundNumbers_absorbed). reflexivity.
Qed.

Lemma calculateVolumeProfile_length (data : CandleSeries) (bins : nat) :
  length (calculateVolumeProfile data bins) = bins.
Proof. unfold calculateVolumeProfile. rewrite length_map, length_seq. reflexivity. Qed.

Lemma findVolumeLevels_returns (data : CandleSeries) :
  exists levels, findVolumeLevels data = Returns levels.
Proof.
  unfold findVolumeLevels. cbv zeta.
  rewrite sort_desc_length, calculateVolumeProfile_length.
  destruct (at_index_returns (sort_desc vn_volume (calculateVolumeProfile data 50)) (50 / 10))
    as (node & Hn).
  - rewrite sort_desc_length, calculateVolumeProfile_length.
    change (50 / 10)%nat with 5%nat. lia.
  - rewrite Hn. cbn [bind]. eauto.
Qed.

Lemma calculateLevelStrength_returns (levels : list Level) (data : CandleSeries) :
  data <> [] -> exists levels', calculateLevelStrength levels data = Returns levels'.
Proof.
  intro Hd. unfold calculateLevelStrength.
  destruct (at_last_nonempty data Hd) as (last & ->). cbn [bind]. eauto.
Qed.

Lemma closesInRange_nonempty (data : CandleSeries) : closesInRange data -> data <> [].
Proof. intros (last & c & Hl & _) ->. discriminate Hl. Qed.

(** Up to its psychological levels [findLevels] returns on every series
    that has a candle, and the call of [findPsychologicalLevels] decides. *)
Lemma findLevels_psychological (data : CandleSeries) :
  data <> [] ->
  (findPsychologicalLevels data = Loops -> findLevels data = Loops)
  /\ (findPsychologicalLevels data = Throws -> findLevels data = Throws)
  /\ ((exists psy, findPsychologicalLevels data = Returns psy) ->
      exists levels, findLevels data = Returns levels).
Proof.
  intro Hd. unfold findLevels.
  destruct (findPivotPoints_returns data) as (pivots & ->). cbn [bind].
  unfold identifySupportLevels, identifyResistanceLevels.
  destruct (identifyLevels_returns support (lows pivots) data Hd) as (sup & ->). cbn [bind].
  destruct (identifyLevels_returns resistance (highs pivots) data Hd) as (res & ->). cbn [bind].
  split; [intros ->; reflexivity|]. split; [intros ->; reflexivity|].
  intros (psy & ->). cbn [bind].
  destruct (findVolumeLevels_returns data) as (vol & ->). cbn [bind].
  destruct (calculateLevelStrength_returns sup data Hd) as (sup' & ->). cbn [bind].
  destruct (calculateLevelStrength_returns res data Hd) as (res' & ->). cbn [bind].
  eauto.
Qed.

(** [findLevels] returns on every series whose latest close is a price from
    0 to 10^9. *)
Lemma findLevels_returns (data : CandleSeries) :
  closesInRange data -> exists levels, findLevels data = Returns levels.
Proof.
  intro Hr. apply findLevels_psychological.
  - apply closesInRange_nonempty. exact Hr.
  - apply findPsychologicalLevels_returns. exact Hr.
Qed.

(** On a series that has a candle it raises nothing. *)
Lemma findLevels_no_fault (data : CandleSeries) :
  data <> [] -> findLevels data <> Throws.
Proof.
  intros Hd H.
  destruct (findLevels_psychological data Hd) as (HL & _ & HR).
  pose proof (findPsychologicalLevels_no_fault data Hd) as HN.
  destruct (findPsychologicalLevels data) as [psy| |].
  - destruct HR as (levels & E); [eauto|]. congruence.
  - congruence.
  - rewrite HL in H by reflexivity. discriminate.
Qed.

(** And on the series of one candle that closes at 10^19 it never returns. *)
Lemma findLevels_loops : findLevels (closingAt (Fin 10000000000000000000)) = Loops.
Proof.
  apply findLevels_psychological; [discriminate|]. exact findPsychologicalLevels_loops.
Qed.

End LevelsReturn.

(* ===================================================================== *)
(** ** [analyzeWave] returns on every series *)
(* ===================================================================== *)

Section WaveReturns.

Import ElliottWaveAnalyzer Vocabulary.

Lemma analyzeImpulseWave_returns (waves : list SwingPoint) :
  exists c, analyzeImpulseWave waves = Returns c
            /\ (wc_isValid c = true -> length waves = 5%nat).
Proof.
  destruct waves as [|w1 [|w2 [|w3 [|w4 [|w5 [|w6 rest]]]]]];
    try (exists invalidCheck; split; [reflexivity|discriminate]).
  unfold analyzeImpulseWave.
  match goal with |- context [if ?b then _ else _] => destruct b end.
  - exists invalidCheck. split; [reflexivity|discriminate].
  - unfold validateElliottRules, checkFibonacciRelationships, calculateWaveRatios.
    destruct (sw_type w1); cbn [bind]; eexists; (split; [reflexivity|reflexivity]).
Qed.

Lemma analyzeCorrectiveWave_valid (waves : list SwingPoint) :
  wc_isValid (analyzeCorrectiveWave waves) = true -> length waves = 3%nat.
Proof.
  destruct waves as [|wA [|wB [|wC [|wD rest]]]]; simpl; try discriminate.
  reflexivity.
Qed.

Lemma impulseCandidates_returns (swings : list SwingPoint) :
  exists impulses,
    impulseCandidates swings = Returns impulses
    /\ Forall wellShaped impulses.
Proof.
  unfold impulseCandidates.
  match goal with
  | |- context [foldM ?f ?l ?s0] =>
      assert (exists r, foldM f l s0 = Returns r) as (r & Hr);
      [apply foldM_returns|]
  end.
  - intros s i _. destruct (analyzeImpulseWave_returns (slice swings i (i + 5)))
      as (c & -> & _). cbn [bind]. eauto.
  - exists r. split; [exact Hr|]. revert Hr.
    apply (foldM_invariant (Forall wellShaped)); [|constructor].
    intros s i s' Hs _ Hstep.
    destruct (analyzeImpulseWave_returns (slice swings i (i + 5))) as (c & Hc & Hv).
    rewrite Hc in Hstep. cbn [bind] in Hstep. injection Hstep as <-.
    destruct (wc_isValid c); [|exact Hs].
    apply Forall_app. split; [exact Hs|]. constructor; [|constructor].
    left. split; [reflexivity|]. apply Hv. reflexivity.
Qed.

Lemma correctiveCandidates_shape (swings : list SwingPoint) :
  Forall wellShaped (correctiveCandidates swings).
Proof.
  unfold correctiveCandidates. apply Forall_forall. intros s Hs.
  apply in_flat_map in Hs. destruct Hs as (i & _ & Hs). cbv zeta in Hs.
  destruct (wc_isValid (analyzeCorrectiveWave (slice swings i (i + 3)))) eqn:E;
    [|contradiction].
  destruct Hs as [<-|[]]. right. split; [reflexivity|].
  apply analyzeCorrectiveWave_valid. exact E.
Qed.

Lemma identifyWaveStructure_returns (swings : list SwingPoint) :
  exists structure,
    identifyWaveStructure swings = Returns structure
    /\ (forall s, structure = Some s -> wellShaped s).
Proof.
  unfold identifyWaveStructure. destruct (length swings <? 5)%nat.
  - exists None. split; [reflexivity|discriminate].
  - destruct (impulseCandidates_returns swings) as (impulses & -> & Hi).
    cbn [bind]. eexists. split; [reflexivity|].
    intros s Hs.
    match type of Hs with
    | hd_error ?l = _ => assert (Hin : In s l) by (destruct l; [discriminate|];
                                                    injection Hs as <-; left; reflexivity)
    end.
    apply sort_desc_In in Hin. apply in_app_or in Hin.
    pose proof (correctiveCandidates_shape swings) as Hc.
    rewrite Forall_forall in Hi, Hc. destruct Hin; auto.
Qed.

Lemma determineCurrentWave_returns (structure : option Structure) (data : CandleSeries) :
  data <> [] -> exists w, determineCurrentWave structure data = Returns w.
Proof.
  intro Hd. unfold determineCurrentWave. destruct structure as [s|]; [|eauto].
  destruct (at_last_nonempty data Hd) as (last & ->). cbn [bind].
  destruct (st_type s).
  - destruct (Nat.eqb (length (st_waves s)) 5) eqn:E; [|eauto].
    apply Nat.eqb_eq in E.
    destruct (at_last_nonempty (st_waves s)) as (lw & ->);
      [intro Z; rewrite Z in E; discriminate|].
    cbn [bind].
    repeat match goal with |- context [if ?b then _ else _] => destruct b end; eauto.
  - destruct (length (st_waves s) <=? 3)%nat; eauto.
Qed.

Lemma calculateWaveProjections_returns (structure : option Structure)
      (data : CandleSeries) :
  data <> [] ->
  (forall s, structure = Some s -> wellShaped s) ->
  exists p, calculateWaveProjections structure data = Returns p.
Proof.
  intros Hd Hshape. unfold calculateWaveProjections.
  destruct structure as [s|]; [|eauto].
  destruct (at_last_nonempty data Hd) as (last & ->). cbn [bind].
  destruct (Hshape s eq_refl) as [[-> Hlen]|[-> Hlen]].
  - unfold calculateImpulseProjections. rewrite Hlen.
    change (3 <=? 5)%nat with true. cbv iota.
    destruct (at_index_returns (st_waves s) 0) as (w0 & ->); [lia|].
    destruct (at_index_returns (st_waves s) 1) as (w1 & ->); [lia|].
    destruct (at_index_returns (st_waves s) 2) as (w2 & ->); [lia|].
    destruct (at_index_returns (st_waves s) 4) as (w4 & ->); [lia|].
    cbn [bind]. eauto.
  - unfold calculateCorrectiveProjections. rewrite Hlen.
    change (2 <=? 3)%nat with true. cbv iota.
    destruct (at_index_returns (st_waves s) 0) as (w0 & ->); [lia|].
    destruct (at_index_returns (st_waves s) 1) as (w1 & ->); [lia|].
    cbn [bind]. eauto.
Qed.

(** [analyzeWave] raises no fault and returns, on every candle series. *)
Lemma analyzeWave_returns (data : CandleSeries) :
  exists r, analyzeWave data = Returns r.
Proof.
  unfold analyzeWave.
  destruct (identifySwingPoints_returns data) as (swings & Hs). rewrite Hs.
  cbn [bind]. destruct (length swings <? 5)%nat eqn:E; [eauto|].
  assert (Hd : data <> []).
  { intro Z. subst data. vm_compute in Hs. injection Hs as <-. discriminate. }
  destruct (identifyWaveStructure_returns swings) as (st & -> & Hshape). cbn [bind].
  destruct (determineCurrentWave_returns st data Hd) as (w & ->). cbn [bind].
  destruct (calculateWaveProjections_returns st data Hd Hshape) as (p & ->).
  cbn [bind]. eauto.
Qed.

End WaveReturns.

(* ===================================================================== *)
(** ** [analyze] and [detectPatterns] return on a series that has a candle *)
(* ===================================================================== *)

Lemma slice_last_length {A} (n : nat) (l : list A) :
  (n <= length l)%nat -> length (slice_last n l) = n.
Proof. intro H. unfold slice_last. rewrite length_skipn. lia. Qed.

Lemma slice_last_nonempty {A} (n : nat) (l : list A) :
  l <> [] -> (0 < n)%nat -> slice_last n l <> [].
Proof.
  intros Hl Hn Z. apply (f_equal (@length A)) in Z.
  unfold slice_last in Z. rewrite length_skipn in Z.
  destruct l; [congruence|]. cbn [length] in Z. lia.
Qed.

Section SmartMoneyReturns.

Import SmartMoneyAnalyzer.

Lemma detectChangeOfCharacter_returns (data : CandleSeries) (hs ls : list Swing) :
  data <> [] -> exists b, detectChangeOfCharacter data hs ls = Returns b.
Proof.
  intro Hd. unfold detectChangeOfCharacter.
  destruct (length hs <? 2)%nat eqn:Eh; [cbn [orb]; eauto|].
  destruct (length ls <? 2)%nat eqn:El; [cbn [orb]; eauto|].
  apply Nat.ltb_ge in Eh, El. cbn [orb]. cbv zeta.
  destruct (at_last_nonempty data Hd) as (last & ->). cbn [bind].
  destruct (at_index_returns (slice_last 2 hs) 0) as (h0 & ->);
    [rewrite slice_last_length; lia|].
  destruct (at_index_returns (slice_last 2 hs) 1) as (h1 & ->);
    [rewrite slice_last_length; lia|].
  cbn [bind]. match goal with |- context [if ?b then _ else _] => destruct b end; [eauto|].
  destruct (at_index_returns (slice_last 2 ls) 0) as (l0 & ->);
    [rewrite slice_last_length; lia|].
  destruct (at_index_returns (slice_last 2 ls) 1) as (l1 & ->);
    [rewrite slice_last_length; lia|].
  cbn [bind]. match goal with |- context [if ?b then _ else _] => destruct b end; eauto.
Qed.

Lemma detectBreakOfStructure_returns (data : CandleSeries) (hs ls : list Swing) :
  data <> [] -> exists b, detectBreakOfStructure data hs ls = Returns b.
Proof.
  intro Hd. unfold detectBreakOfStructure.
  destruct (at_last_nonempty data Hd) as (last & ->). cbn [bind]. cbv zeta.
  destruct (last_opt hs); [|eauto].
  match goal with |- context [if ?b then _ else _] => destruct b end; eauto.
Qed.

Lemma analyzeMarketStructure_returns (data : CandleSeries) :
  data <> [] -> exists m, analyzeMarketStructure data = Returns m.
Proof.
  intro Hd. unfold analyzeMarketStructure, findSwingHighs, findSwingLows.
  destruct (findSwingHighsWith_returns 5 data) as (hs & ->). cbn [bind].
  destruct (findSwingLowsWith_returns 5 data) as (ls & ->). cbn [bind].
  destruct (countRises hs) as [hh lh]. destruct (countRises ls) as [hl ll].
  cbv zeta.
  destruct (detectBreakOfStructure_returns data hs ls Hd) as (b & ->). cbn [bind].
  destruct (detectChangeOfCharacter_returns data hs ls Hd) as (c & ->). cbn [bind].
  eauto.
Qed.

Lemma zonesOf_returns (ty : ZoneType) (groups : list (list Swing)) :
  exists zones, zonesOf ty groups = Returns zones.
Proof.
  unfold zonesOf. apply foldM_returns. intros zones group _.
  destruct (2 <=? length group)%nat eqn:E; [|eauto].
  apply Nat.leb_le in E.
  destruct (at_index_returns group 0) as (first & ->); [lia|]. cbn [bind]. eauto.
Qed.

Lemma findLiquidityZones_returns (data : CandleSeries) :
  data <> [] -> exists zones, findLiquidityZones data = Returns zones.
Proof.
  intro Hd. unfold findLiquidityZones, findSwingHighs, findSwingLows.
  destruct (findSwingHighsWith_returns 5 data) as (hs & ->). cbn [bind].
  destruct (findSwingLowsWith_returns 5 data) as (ls & ->). cbn [bind].
  destruct (zonesOf_returns sell_side (findEqualLevels hs)) as (ss & ->). cbn [bind].
  destruct (zonesOf_returns buy_side (findEqualLevels ls)) as (bs & ->). cbn [bind].
  unfold markSweptLiquidity.
  destruct (at_last_nonempty data Hd) as (last & ->). cbn [bind]. eauto.
Qed.

(** [analyze] returns on every series that has a candle. *)
Lemma analyze_returns (data : CandleSeries) :
  data <> [] -> exists a, analyze data = Returns a.
Proof.
  intro Hd. unfold analyze.
  destruct (analyzeMarketStructure_returns data Hd) as (m & ->). cbn [bind].
  destruct (findOrderBlocks_returns data) as (obs & ->). cbn [bind].
  destruct (findFairValueGaps_returns data) as (fvgs & ->). cbn [bind].
  destruct (findLiquidityZones_returns data Hd) as (lzs & ->). cbn [bind].
  eauto.
Qed.

End SmartMoneyReturns.

Section PatternReturns.

Import PatternAnalyzer.

Variable data : CandleSeries.
Hypothesis nonempty : data <> [].

Ltac read_last :=
  match goal with
  | |- context [at_last data] =>
      let last := fresh "last" in
      destruct (at_last_nonempty data nonempty) as (last & ->); cbn [bind]
  end.

Ltac branch :=
  match goal with
  | |- context [if ?b then _ else _] => destruct b eqn:?
  end.

Lemma calculateTriangleTarget_returns (type : TriangleType) :
  exists t, calculateTriangleTarget data type = Returns t.
Proof. unfold calculateTriangleTarget. read_last. eauto. Qed.

Lemma detectTrianglePatterns_returns :
  exists ps, detectTrianglePatterns data = Returns ps.
Proof.
  unfold detectTrianglePatterns. cbv zeta. branch; [|eauto].
  destruct (calculateTriangleTarget_returns ascending) as (t1 & H1).
  destruct (calculateTriangleTarget_returns descending) as (t2 & H2).
  destruct (calculateTriangleTarget_returns symmetrical) as (t3 & H3).
  rewrite H1, H2, H3. read_last.
  repeat branch; cbn [bind]; eauto.
Qed.

Lemma calculateHSTarget_returns (points : list Peak) :
  length points = 3%nat -> exists t, calculateHSTarget data points = Returns t.
Proof.
  intro H. unfold calculateHSTarget. read_last.
  destruct (at_index_returns points 1) as (p1 & ->); [lia|].
  destruct (at_index_returns points 0) as (p0 & ->); [lia|].
  destruct (at_index_returns points 2) as (p2 & ->); [lia|].
  cbn [bind]. eauto.
Qed.

Lemma detectHeadAndShoulders_returns :
  exists ps, detectHeadAndShoulders data = Returns ps.
Proof.
  unfold detectHeadAndShoulders. cbv zeta.
  destruct (3 <=? length (findPeaks (map c_high data)))%nat eqn:Ep; [|eauto].
  apply Nat.leb_le in Ep.
  destruct (calculateHSTarget_returns (slice_last 3 (findPeaks (map c_high data))))
    as (t1 & H1); [apply slice_last_length; exact Ep|].
  rewrite H1. read_last.
  destruct (3 <=? length (findTroughs (map c_low data)))%nat eqn:Et.
  - apply Nat.leb_le in Et.
    destruct (calculateHSTarget_returns (slice_last 3 (findTroughs (map c_low data))))
      as (t2 & H2); [apply slice_last_length; exact Et|].
    rewrite H2. repeat branch; cbn [bind]; eauto.
  - repeat branch; cbn [bind]; eauto.
Qed.

Lemma detectDoubleTopBottom_returns :
  exists ps, detectDoubleTopBottom data = Returns ps.
Proof.
  unfold detectDoubleTopBottom, checkSupportBreak, checkResistanceBreak,
    calculateDoubleTopTarget, calculateDoubleBottomTarget. cbv zeta. read_last.
  assert (P : exists p1, (if (2 <=? length (findPeaks (map c_high data)))%nat
                          then at_index (slice_last 2 (findPeaks (map c_high data))) 0
                          else Returns (mkPeak 0 NaN None)) = Returns p1).
  { destruct (2 <=? length (findPeaks (map c_high data)))%nat eqn:E; [|eauto].
    apply Nat.leb_le in E. apply at_index_returns. rewrite slice_last_length; lia. }
  assert (T : exists t1, (if (2 <=? length (findTroughs (map c_low data)))%nat
                          then at_index (slice_last 2 (findTroughs (map c_low data))) 0
                          else Returns (mkPeak 0 NaN None)) = Returns t1).
  { destruct (2 <=? length (findTroughs (map c_low data)))%nat eqn:E; [|eauto].
    apply Nat.leb_le in E. apply at_index_returns. rewrite slice_last_length; lia. }
  destruct P as (p1 & P). destruct T as (t1 & T).
  destruct (2 <=? length (findPeaks (map c_high data)))%nat;
    destruct (2 <=? length (findTroughs (map c_low data)))%nat;
    try rewrite P; try rewrite T;
    repeat branch; cbn [bind]; eauto.
Qed.

Lemma flagTrends_returns (recent : CandleSeries) :
  (10 <= length recent)%nat -> exists t, flagTrends recent = Returns t.
Proof.
  intro H. unfold flagTrends. cbv zeta.
  assert (Hhalf : (5 <= length recent / 2 <= length recent)%nat).
  { split.
    - change 5%nat with (10 / 2)%nat. apply Nat.Div0.div_le_mono. exact H.
    - apply Nat.Div0.div_le_upper_bound. lia. }
  assert (L1 : length (slice recent 0 (length recent / 2)) = (length recent / 2)%nat).
  { unfold slice. rewrite Nat.sub_0_r. cbn [skipn]. apply firstn_length_le. lia. }
  assert (L2 : length (skipn (length recent / 2) recent)
               = (length recent - length recent / 2)%nat) by apply length_skipn.
  assert (Hhalf2 : (length recent / 2 < length recent)%nat).
  { apply Nat.Div0.div_lt_upper_bound. lia. }
  destruct (at_last_nonempty (slice recent 0 (length recent / 2))) as (fl & ->).
  { intro Z. rewrite Z in L1. cbn [length] in L1. lia. }
  destruct (at_index_returns (slice recent 0 (length recent / 2)) 0) as (f0 & ->);
    [lia|].
  destruct (at_last_nonempty (skipn (length recent / 2) recent)) as (sl & ->).
  { intro Z. rewrite Z in L2. cbn [length] in L2. lia. }
  destruct (at_index_returns (skipn (length recent / 2) recent) 0) as (s0 & ->);
    [lia|].
  cbn [bind]. eauto.
Qed.

Lemma isBullFlag_returns (recent : CandleSeries) :
  exists b, isBullFlag recent = Returns b.
Proof.
  unfold isBullFlag. destruct (length recent <? 10)%nat eqn:E; [eauto|].
  apply Nat.ltb_ge in E. destruct (flagTrends_returns recent E) as (t & ->).
  cbn [bind]. eauto.
Qed.

Lemma isBearFlag_returns (recent : CandleSeries) :
  exists b, isBearFlag recent = Returns b.
Proof.
  unfold isBearFlag. destruct (length recent <? 10)%nat eqn:E; [eauto|].
  apply Nat.ltb_ge in E. destruct (flagTrends_returns recent E) as (t & ->).
  cbn [bind]. eauto.
Qed.

Lemma detectFlagPatterns_returns :
  exists ps, detectFlagPatterns data = Returns ps.
Proof.
  unfold detectFlagPatterns, calculateFlagTarget. cbv zeta.
  destruct (isBullFlag_returns (slice_last 20 data)) as (b1 & ->). cbn [bind].
  destruct (isBearFlag_returns (slice_last 20 data)) as (b2 & ->).
  read_last. destruct b1, b2; cbn [bind]; eauto.
Qed.

Lemma detectCandlestickPatterns_returns :
  exists ps, detectCandlestickPatterns data = Returns ps.
Proof.
  unfold detectCandlestickPatterns. cbv zeta.
  destruct (at_last_nonempty (slice_last 5 data)) as (lc & Hlc).
  { apply slice_last_nonempty; [exact nonempty|lia]. }
  rewrite Hlc.
  destruct (2 <=? length (slice_last 5 data))%nat eqn:E.
  - apply Nat.leb_le in E.
    destruct (at_index_returns (slice_last 5 data) (length (slice_last 5 data) - 2))
      as (prev & ->); [lia|].
    destruct (at_index_returns (slice_last 5 data) (length (slice_last 5 data) - 1))
      as (curr & ->); [lia|].
    cbn [bind]. eauto.
  - cbn [bind]. eauto.
Qed.

Lemma detectHarmonicPatterns_returns :
  exists ps, detectHarmonicPatterns data = Returns ps.
Proof.
  unfold detectHarmonicPatterns. cbv zeta.
  destruct (5 <=? length (findSwingPoints data))%nat eqn:E; [|eauto].
  apply Nat.leb_le in E.
  pose proof (slice_last_length 5 (findSwingPoints data) E) as L.
  destruct (slice_last 5 (findSwingPoints data)) as [|X [|A [|B [|C [|D rest]]]]];
    try discriminate.
  unfold getHarmonicDirection, calculateHarmonicTarget.
  destruct (at_last_nonempty (X :: A :: B :: C :: D :: rest)) as (ls & ->);
    [discriminate|].
  read_last. repeat branch; cbn [bind]; eauto.
Qed.

(** [detectPatterns] returns on every series that has a candle. *)
Lemma detectPatterns_returns :
  exists ps, detectPatterns data = Returns ps.
Proof.
  unfold detectPatterns.
  destruct detectTrianglePatterns_returns as (p1 & ->). cbn [bind].
  destruct detectHeadAndShoulders_returns as (p2 & ->). cbn [bind].
  destruct detectDoubleTopBottom_returns as (p3 & ->). cbn [bind].
  destruct detectFlagPatterns_returns as (p4 & ->). cbn [bind].
  destruct detectCandlestickPatterns_returns as (p5 & ->). cbn [bind].
  destruct detectHarmonicPatterns_returns as (p6 & ->). cbn [bind].
  eauto.
Qed.

End PatternReturns.

(* ===================================================================== *)
(** ** Where the entry points fault *)
(* ===================================================================== *)

(** On a series that has a candle [detectPatterns], [analyzeWave] and
    [analyze] return and [findLevels] raises nothing: the empty series is
    the only one on which an entry point raises.  [findLevels] returns where
    the latest close is a price from 0 to 10^9; where the step of the round
    numbers is too small to change the doubles of the range, as at a close
    of 10^19 ([findLevels_loops]), its loop never ends. *)
Lemma entry_points_return (data : CandleSeries) :
  data <> [] ->
  SupportResistanceAnalyzer.findLevels data <> Throws
  /\ (Vocabulary.closesInRange data ->
      exists levels, SupportResistanceAnalyzer.findLevels data = Returns levels)
  /\ (exists patterns, PatternAnalyzer.detectPatterns data = Returns patterns)
  /\ (exists wave, ElliottWaveAnalyzer.analyzeWave data = Returns wave)
  /\ (exists analysis, SmartMoneyAnalyzer.analyze data = Returns analysis).
Proof.
  intro Hd. split; [|split; [|split; [|split]]].
  - apply findLevels_no_fault. exact Hd.
  - apply findLevels_returns.
  - apply detectPatterns_returns. exact Hd.
  - apply analyzeWave_returns.
  - apply analyze_returns. exact Hd.
Qed.

Lemma entry_points_return_witness :
  (exists levels,
      SupportResistanceAnalyzer.findLevels [Vocabulary.flatCandle] = Returns levels)
  /\ (exists patterns,
         PatternAnalyzer.detectPatterns [Vocabulary.flatCandle] = Returns patterns)
  /\ (exists wave,
         ElliottWaveAnalyzer.analyzeWave [Vocabulary.flatCandle] = Returns wave)
  /\ (exists analysis,
         SmartMoneyAnalyzer.analyze [Vocabulary.flatCandle] = Returns analysis).
Proof.
  destruct (entry_points_return [Vocabulary.flatCandle]) as (_ & H & R);
    [discriminate|].
  split; [|exact R]. apply H.
  exists Vocabulary.flatCandle, 100. repeat split; discriminate.
Defined.

(* ===================================================================== *)
(** * Further properties of the code *)
(* ===================================================================== *)

(** ** The order of the numbers *)

Section NumOrder.

Local Open Scope num_scope.

Lemma leb_refl (x : num) : x <> NaN -> (x <=? x) = true.
Proof.
  destruct x; try reflexivity; [|congruence].
  intros _. apply leb_Fin. apply Qle_refl.
Qed.

Lemma leb_trans (x y z : num) :
  (x <=? y) = true -> (y <=? z) = true -> (x <=? z) = true.
Proof.
  destruct x, y, z; simpl; try reflexivity; try discriminate.
  intros H1 H2. apply Qle_bool_iff in H1, H2. apply Qle_bool_iff.
  eapply Qle_trans; eauto.
Qed.

Lemma leb_NaN_l (y : num) : (NaN <=? y) = false.
Proof. reflexivity. Qed.

Lemma leb_NaN_r (x : num) : (x <=? NaN) = false.
Proof. destruct x; reflexivity. Qed.

Lemma leb_true_not_NaN (x y : num) : (x <=? y) = true -> x <> NaN /\ y <> NaN.
Proof. destruct x, y; simpl; try discriminate; split; discriminate. Qed.

Lemma ltb_false_leb (x y : num) :
  x <> NaN -> y <> NaN -> (x <? y) = false -> (y <=? x) = true.
Proof.
  destruct x, y; simpl; try reflexivity; try discriminate; try congruence.
  intros _ _ H. apply negb_false_iff in H. exact H.
Qed.

Lemma ltb_leb (x y : num) : (x <? y) = true -> (x <=? y) = true.
Proof.
  destruct x, y; simpl; try reflexivity; try discriminate.
  intro H. apply negb_true_iff in H. apply Qle_bool_iff.
  destruct (Qlt_le_dec q q0) as [L|L]; [apply Qlt_le_weak; exact L|].
  apply Qle_bool_iff in L. congruence.
Qed.

Lemma leb_antisym (x y : num) :
  (x <=? y) = true -> (y <=? x) = true -> (x =? y) = true.
Proof.
  destruct x, y; simpl; try reflexivity; try discriminate.
  intros H1 H2. apply Qle_bool_iff in H1, H2. apply Qeq_bool_iff.
  apply Qle_antisym; assumption.
Qed.

Lemma eqb_leb (x y : num) : (x =? y) = true -> (x <=? y) = true /\ (y <=? x) = true.
Proof.
  destruct x, y; simpl; try discriminate; auto.
  intro H. apply Qeq_bool_iff in H. split; apply Qle_bool_iff; rewrite H; apply Qle_refl.
Qed.

End NumOrder.

Section MaxMin.

Local Open Scope num_scope.

Lemma max_NaN_l (y : num) : Num.max NaN y = NaN.
Proof. reflexivity. Qed.

Lemma max_cases (x y : num) :
  x <> NaN -> y <> NaN ->
  (Num.max x y = y /\ (x <=? y) = true) \/ (Num.max x y = x /\ (y <=? x) = true).
Proof.
  intros Hx Hy. unfold Num.max.
  destruct (x <? y) eqn:E.
  - left. split; [destruct x, y; congruence|]. apply ltb_leb. exact E.
  - right. split; [destruct x, y; congruence|]. apply ltb_false_leb; assumption.
Qed.

Lemma min_cases (x y : num) :
  x <> NaN -> y <> NaN ->
  (Num.min x y = y /\ (y <=? x) = true) \/ (Num.min x y = x /\ (x <=? y) = true).
Proof.
  intros Hx Hy. unfold Num.min.
  destruct (y <? x) eqn:E.
  - left. split; [destruct x, y; congruence|]. apply ltb_leb. exact E.
  - right. split; [destruct x, y; congruence|]. apply ltb_false_leb; assumption.
Qed.

Lemma max_NaN_iff (x y : num) : Num.max x y = NaN <-> x = NaN \/ y = NaN.
Proof.
  split.
  - intro H. destruct x, y; auto; unfold Num.max in H;
      match type of H with (if ?b then _ else _) = _ => destruct b end; discriminate.
  - intros [-> | ->]; [reflexivity|destruct x; reflexivity].
Qed.

Lemma min_NaN_iff (x y : num) : Num.min x y = NaN <-> x = NaN \/ y = NaN.
Proof.
  split.
  - intro H. destruct x, y; auto; unfold Num.min in H;
      match type of H with (if ?b then _ else _) = _ => destruct b end; discriminate.
  - intros [-> | ->]; [reflexivity|destruct x; reflexivity].
Qed.

(** [Math.max(...xs)] is NaN exactly when an argument is, and otherwise an
    upper bound that every bound of the arguments bounds. *)
Lemma fold_max_NaN (l : list num) (acc : num) :
  fold_left Num.max l acc = NaN <-> acc = NaN \/ In NaN l.
Proof.
  revert acc. induction l as [|x t IH]; intro acc; simpl.
  - intuition.
  - rewrite IH, max_NaN_iff. intuition.
Qed.

Lemma fold_max_upper (l : list num) (acc : num) :
  fold_left Num.max l acc <> NaN ->
  (acc <=? fold_left Num.max l acc) = true
  /\ forall x, In x l -> (x <=? fold_left Num.max l acc) = true.
Proof.
  revert acc. induction l as [|x t IH]; intro acc; simpl; intro H.
  - split; [apply leb_refl; exact H|contradiction].
  - destruct (IH _ H) as [Hacc Ht].
    assert (Hm : Num.max acc x <> NaN).
    { intro Z. apply H. apply fold_max_NaN. left. exact Z. }
    assert (Ha : acc <> NaN) by (intro Z; apply Hm; rewrite Z; reflexivity).
    assert (Hx : x <> NaN) by (intro Z; apply Hm; apply max_NaN_iff; auto).
    destruct (max_cases acc x Ha Hx) as [[E L]|[E L]]; rewrite E in *.
    + split; [eapply leb_trans; eauto|]. intros y [<-|Hy]; auto.
    + split; [exact Hacc|]. intros y [<-|Hy]; [eapply leb_trans; eauto|auto].
Qed.

Lemma fold_max_least (l : list num) (acc c : num) :
  (acc <=? c) = true ->
  (forall x, In x l -> (x <=? c) = true) ->
  (fold_left Num.max l acc <=? c) = true.
Proof.
  revert acc. induction l as [|x t IH]; intros acc Ha Hl; simpl; [exact Ha|].
  apply IH; [|intros y Hy; apply Hl; right; exact Hy].
  assert (Hx : (x <=? c) = true) by (apply Hl; left; reflexivity).
  destruct (max_cases acc x) as [[E _]|[E _]];
    try (apply (leb_true_not_NaN _ _ Ha)); try (apply (leb_true_not_NaN _ _ Hx));
    rewrite E; assumption.
Qed.

Lemma fold_min_NaN (l : list num) (acc : num) :
  fold_left Num.min l acc = NaN <-> acc = NaN \/ In NaN l.
Proof.
  revert acc. induction l as [|x t IH]; intro acc; simpl.
  - intuition.
  - rewrite IH, min_NaN_iff. intuition.
Qed.

Lemma fold_min_lower (l : list num) (acc : num) :
  fold_left Num.min l acc <> NaN ->
  (fold_left Num.min l acc <=? acc) = true
  /\ forall x, In x l -> (fold_left Num.min l acc <=? x) = true.
Proof.
  revert acc. induction l as [|x t IH]; intro acc; simpl; intro H.
  - split; [apply leb_refl; exact H|contradiction].
  - destruct (IH _ H) as [Hacc Ht].
    assert (Hm : Num.min acc x <> NaN).
    { intro Z. apply H. apply fold_min_NaN. left. exact Z. }
    assert (Ha : acc <> NaN) by (intro Z; apply Hm; rewrite Z; reflexivity).
    assert (Hx : x <> NaN) by (intro Z; apply Hm; apply min_NaN_iff; auto).
    destruct (min_cases acc x Ha Hx) as [[E L]|[E L]]; rewrite E in *.
    + split; [eapply leb_trans; eauto|]. intros y [<-|Hy]; auto.
    + split; [exact Hacc|]. intros y [<-|Hy]; [eapply leb_trans; eauto|auto].
Qed.

Lemma fold_min_greatest (l : list num) (acc c : num) :
  (c <=? acc) = true ->
  (forall x, In x l -> (c <=? x) = true) ->
  (c <=? fold_left Num.min l acc) = true.
Proof.
  revert acc. induction l as [|x t IH]; intros acc Ha Hl; simpl; [exact Ha|].
  apply IH; [|intros y Hy; apply Hl; right; exact Hy].
  assert (Hx : (c <=? x) = true) by (apply Hl; left; reflexivity).
  destruct (min_cases acc x) as [[E _]|[E _]];
    try (apply (leb_true_not_NaN _ _ Ha)); try (apply (leb_true_not_NaN _ _ Hx));
    rewrite E; assumption.
Qed.

End MaxMin.

(* ===================================================================== *)
(** ** Swings and pivots *)
(* ===================================================================== *)

Lemma every_from_spec {A} (p : A -> nat -> bool) (a : list A) (n : nat) :
  every_from p a n = true
  <-> forall j x, nth_error a j = Some x -> p x (n + j)%nat = true.
Proof.
  revert n. induction a as [|y t IH]; intro n; simpl.
  - split; [|reflexivity]. intros _ j x H. destruct j; discriminate.
  - rewrite andb_true_iff, IH. split.
    + intros [Hy Ht] j x H. destruct j as [|j].
      * injection H as <-. rewrite Nat.add_0_r. exact Hy.
      * replace (n + S j)%nat with (S n + j)%nat by lia. apply (Ht j x H).
    + intro H. split.
      * rewrite <- (Nat.add_0_r n). apply (H 0%nat y). reflexivity.
      * intros j x Hj. replace (S n + j)%nat with (n + S j)%nat by lia.
        apply (H (S j) x). exact Hj.
Qed.

Lemma bool_eq_iff (a b : bool) : (a = true <-> b = true) -> a = b.
Proof. destruct a, b; intuition congruence. Qed.

Section Windows.

Local Open Scope num_scope.

Variable f : Candle -> num.
Variable segment : list Candle.
Variable k : nat.
Variable cur : Candle.
Hypothesis centre : nth_error segment k = Some cur.
Hypothesis wide : (2 <= length segment)%nat.

Lemma other_index : exists j x, j <> k /\ nth_error segment j = Some x.
Proof.
  destruct segment as [|x0 [|x1 t]]; simpl in wide; try lia.
  destruct k as [|k'].
  - exists 1%nat, x1. split; [discriminate|reflexivity].
  - exists 0%nat, x0. split; [discriminate|reflexivity].
Qed.

(** The weak test of [findPivotPoints] and the test against the maximum of
    [findSwingHighs] agree on every window of two candles or more. *)
Lemma window_max_test :
  every_idx (fun candle idx => Nat.eqb idx k || (f candle <=? f cur)) segment
  = (f cur =? Num.max_list (map f segment)).
Proof.
  apply bool_eq_iff. unfold every_idx, Num.max_list. rewrite every_from_spec. split.
  - intro H.
    assert (Hall : forall x, In x (map f segment) -> (x <=? f cur) = true).
    { destruct other_index as (j0 & x0 & Hj0 & Hx0).
      pose proof (H j0 x0 Hx0) as H0. simpl in H0.
      apply Nat.eqb_neq in Hj0. rewrite Hj0 in H0. simpl in H0.
      destruct (leb_true_not_NaN _ _ H0) as [_ Hcur].
      intros y Hy. apply in_map_iff in Hy. destruct Hy as (c & <- & Hc).
      apply In_nth_error in Hc. destruct Hc as (j & Hj).
      pose proof (H j c Hj) as Hjc. simpl in Hjc.
      destruct (Nat.eqb j k) eqn:E; [|exact Hjc].
      apply Nat.eqb_eq in E. subst j. rewrite centre in Hj. injection Hj as <-.
      apply leb_refl. exact Hcur. }
    assert (Hin : In (f cur) (map f segment))
      by (apply in_map; eapply nth_error_In; exact centre).
    pose proof (Hall _ Hin) as Hcc. destruct (leb_true_not_NaN _ _ Hcc) as [Hcur _].
    assert (Hle : (fold_left Num.max (map f segment) NInf <=? f cur) = true).
    { apply fold_max_least; [destruct (f cur); try reflexivity; congruence|exact Hall]. }
    apply leb_antisym; [|exact Hle].
    apply fold_max_upper; [apply (leb_true_not_NaN _ _ Hle)|exact Hin].
  - intros H j x Hj. simpl. apply eqb_leb in H. destruct H as [H1 H2].
    apply orb_true_iff. right. eapply leb_trans; [|exact H2].
    apply fold_max_upper; [apply (leb_true_not_NaN _ _ H2)|].
    apply in_map. eapply nth_error_In. exact Hj.
Qed.

Lemma window_min_test :
  every_idx (fun candle idx => Nat.eqb idx k || (f candle >=? f cur)) segment
  = (f cur =? Num.min_list (map f segment)).
Proof.
  apply bool_eq_iff. unfold every_idx, Num.min_list, Num.geb.
  rewrite every_from_spec. split.
  - intro H.
    assert (Hall : forall x, In x (map f segment) -> (f cur <=? x) = true).
    { destruct other_index as (j0 & x0 & Hj0 & Hx0).
      pose proof (H j0 x0 Hx0) as H0. simpl in H0.
      apply Nat.eqb_neq in Hj0. rewrite Hj0 in H0. simpl in H0.
      destruct (leb_true_not_NaN _ _ H0) as [Hcur _].
      intros y Hy. apply in_map_iff in Hy. destruct Hy as (c & <- & Hc).
      apply In_nth_error in Hc. destruct Hc as (j & Hj).
      pose proof (H j c Hj) as Hjc. simpl in Hjc.
      destruct (Nat.eqb j k) eqn:E; [|exact Hjc].
      apply Nat.eqb_eq in E. subst j. rewrite centre in Hj. injection Hj as <-.
      apply leb_refl. exact Hcur. }
    assert (Hin : In (f cur) (map f segment))
      by (apply in_map; eapply nth_error_In; exact centre).
    pose proof (Hall _ Hin) as Hcc. destruct (leb_true_not_NaN _ _ Hcc) as [Hcur _].
    assert (Hle : (f cur <=? fold_left Num.min (map f segment) PInf) = true).
    { apply fold_min_greatest; [destruct (f cur); try reflexivity; congruence|exact Hall]. }
    apply leb_antisym; [exact Hle|].
    apply fold_min_lower; [apply (leb_true_not_NaN _ _ Hle)|exact Hin].
  - intros H j x Hj. simpl. apply eqb_leb in H. destruct H as [H1 H2].
    apply orb_true_iff. right. eapply leb_trans; [exact H1|].
    apply fold_min_lower; [apply (leb_true_not_NaN _ _ H1)|].
    apply in_map. eapply nth_error_In. exact Hj.
Qed.

End Windows.

Lemma window_wide {A} (data : list A) (i : nat) :
  In i (seq 5 (length data - 5 - 5)) ->
  (2 <= length (slice data (i - 5) (i + 5 + 1)))%nat.
Proof.
  intro Hi. apply in_seq in Hi. unfold slice.
  rewrite length_firstn, length_skipn. lia.
Qed.

Section SwingsArePivots.

Import Vocabulary.

Lemma swings_are_pivots_from (data : CandleSeries) (l : list nat) :
  (forall i, In i l -> In i (seq 5 (length data - 5 - 5))) ->
  forall accH accL accP,
    map swingFields accH = map pivotFields (SupportResistanceAnalyzer.highs accP) ->
    map swingFields accL = map pivotFields (SupportResistanceAnalyzer.lows accP) ->
    exists sh sl pv,
      foldM (SmartMoneyAnalyzer.swingHighStep 5 data) l accH = Returns sh
      /\ foldM (SmartMoneyAnalyzer.swingLowStep 5 data) l accL = Returns sl
      /\ foldM (SupportResistanceAnalyzer.pivotStep data) l accP = Returns pv
      /\ map swingFields sh = map pivotFields (SupportResistanceAnalyzer.highs pv)
      /\ map swingFields sl = map pivotFields (SupportResistanceAnalyzer.lows pv).
Proof.
  induction l as [|i t IH]; intros Hl accH accL accP RH RL.
  - exists accH, accL, accP. simpl. auto.
  - assert (Hi : In i (seq 5 (length data - 5 - 5))) by (apply Hl; left; reflexivity).
    destruct (window_centre data 5 i Hi) as (c & Hc & _).
    pose proof (window_wide data i Hi) as Hw.
    assert (Hn : nth_error (slice data (i - 5) (i + 5 + 1)) 5 = Some c).
    { unfold at_index in Hc.
      destruct (nth_error (slice data (i - 5) (i + 5 + 1)) 5); [|discriminate].
      injection Hc as <-. reflexivity. }
    cbn [foldM].
    unfold SmartMoneyAnalyzer.swingHighStep at 1, SmartMoneyAnalyzer.swingLowStep at 1,
      SupportResistanceAnalyzer.pivotStep at 1.
    unfold SupportResistanceAnalyzer.lookback. rewrite Hc. cbn [bind]. cbv zeta.
    rewrite (window_max_test c_high _ 5 c Hn Hw).
    rewrite (window_min_test c_low _ 5 c Hn Hw).
    apply IH.
    + intros j Hj. apply Hl. right. exact Hj.
    + cbn [SupportResistanceAnalyzer.highs].
      destruct (Num.eqb (c_high c) _); [|exact RH].
      rewrite !map_app, RH. reflexivity.
    + cbn [SupportResistanceAnalyzer.lows].
      destruct (Num.eqb (c_low c) _); [|exact RL].
      rewrite !map_app, RL. reflexivity.
Qed.

(** X1. The swing highs of [findSwingHighs] are exactly the pivot highs of
    [findPivotPoints], and the swing lows of [findSwingLows] exactly its pivot
    lows: on every series the two produce the same indices, prices, times and
    volumes in the same order.  The comparison with every other candle of the
    window and the comparison with the maximum (minimum) of the window pick
    the same candles, equal neighbours and NaN included. *)
Theorem swings_are_pivots (data : CandleSeries) :
  exists sh sl pv,
    SmartMoneyAnalyzer.findSwingHighs data = Returns sh
    /\ SmartMoneyAnalyzer.findSwingLows data = Returns sl
    /\ SupportResistanceAnalyzer.findPivotPoints data = Returns pv
    /\ map swingFields sh = map pivotFields (SupportResistanceAnalyzer.highs pv)
    /\ map swingFields sl = map pivotFields (SupportResistanceAnalyzer.lows pv).
Proof.
  unfold SmartMoneyAnalyzer.findSwingHighs, SmartMoneyAnalyzer.findSwingHighsWith,
    SmartMoneyAnalyzer.findSwingLows, SmartMoneyAnalyzer.findSwingLowsWith,
    SupportResistanceAnalyzer.findPivotPoints, SupportResistanceAnalyzer.lookback.
  apply swings_are_pivots_from; auto.
Qed.

End SwingsArePivots.

Lemma slice_window_nth (data : CandleSeries) (i j : nat) :
  (5 <= i)%nat ->
  nth_error (slice data (i - 5) (i + 5 + 1)) j
  = if (j <? 11)%nat then nth_error data (i - 5 + j) else None.
Proof.
  intro Hi. unfold slice. rewrite nth_error_firstn.
  replace (i + 5 + 1 - (i - 5))%nat with 11%nat by lia.
  rewrite nth_error_skipn. reflexivity.
Qed.

Section PivotWindows.

Import SupportResistanceAnalyzer Vocabulary.

Variable data : CandleSeries.

Lemma window_test_iff (test : Candle -> Candle -> bool) (i : nat) (c : Candle) :
  In i (seq 5 (length data - 5 - 5)) ->
  nth_error data i = Some c ->
  every_idx (fun candle idx => Nat.eqb idx 5 || test candle c)
            (slice data (i - 5) (i + 5 + 1)) = true
  <-> windowPivot test data i c.
Proof.
  intros Hi Hc. apply in_seq in Hi. unfold every_idx, windowPivot.
  rewrite every_from_spec. split.
  - intro H. split; [exact Hc|]. split; [lia|]. split; [lia|].
    intros j cj Hne Hj Hcj.
    specialize (H (j - (i - 5))%nat cj). rewrite slice_window_nth in H by lia.
    replace (j - (i - 5) <? 11)%nat with true in H
      by (symmetry; apply Nat.ltb_lt; lia).
    replace (i - 5 + (j - (i - 5)))%nat with j in H by lia.
    specialize (H Hcj). simpl in H.
    replace (Nat.eqb (j - (i - 5)) 5) with false in H
      by (symmetry; apply Nat.eqb_neq; lia).
    exact H.
  - intros (_ & _ & _ & H) j x Hj. simpl.
    rewrite slice_window_nth in Hj by lia.
    destruct (j <? 11)%nat eqn:E; [|discriminate]. apply Nat.ltb_lt in E.
    destruct (Nat.eqb j 5) eqn:E5; [reflexivity|]. apply Nat.eqb_neq in E5.
    simpl. apply (H (i - 5 + j)%nat x); [lia|lia|exact Hj].
Qed.

(** One turn of the loop of [findPivotPoints] at an index it visits. *)
Lemma pivotStep_at (acc : Pivots) (i : nat) :
  In i (seq 5 (length data - 5 - 5)) ->
  exists c isHigh isLow,
    nth_error data i = Some c
    /\ (isHigh = true <-> windowPivot notHigher data i c)
    /\ (isLow = true <-> windowPivot notLower data i c)
    /\ pivotStep data acc i
       = Returns (mkPivots
                    (if isHigh then highs acc ++ [pivotAt c_high i c] else highs acc)
                    (if isLow then lows acc ++ [pivotAt c_low i c] else lows acc)).
Proof.
  intro Hi. destruct (window_centre data 5 i Hi) as (c & Hc & Hn).
  exists c.
  exists (every_idx (fun candle idx => Nat.eqb idx 5 || notHigher candle c)
                    (slice data (i - 5) (i + 5 + 1))).
  exists (every_idx (fun candle idx => Nat.eqb idx 5 || notLower candle c)
                    (slice data (i - 5) (i + 5 + 1))).
  split; [exact Hn|]. split; [apply window_test_iff; assumption|].
  split; [apply window_test_iff; assumption|].
  unfold pivotStep, lookback. rewrite Hc. reflexivity.
Qed.

Lemma findPivotPoints_from (l : list nat) :
  (forall i, In i l -> In i (seq 5 (length data - 5 - 5))) ->
  forall acc pv,
    foldM (pivotStep data) l acc = Returns pv ->
    (forall p, In p (highs pv)
               <-> In p (highs acc)
                   \/ exists i c, In i l /\ windowPivot notHigher data i c
                                  /\ p = pivotAt c_high i c)
    /\ (forall p, In p (lows pv)
                  <-> In p (lows acc)
                      \/ exists i c, In i l /\ windowPivot notLower data i c
                                     /\ p = pivotAt c_low i c).
Proof.
  induction l as [|i t IH]; intros Hl acc pv H.
  - simpl in H. injection H as <-. split; intro p; split; auto;
      intros [Hp|(i & c & [] & _)]; exact Hp.
  - cbn [foldM] in H.
    destruct (pivotStep_at acc i (Hl i (or_introl eq_refl)))
      as (c & isHigh & isLow & Hc & HH & HL & Hstep).
    rewrite Hstep in H. cbn [bind] in H.
    destruct (IH (fun j Hj => Hl j (or_intror Hj)) _ _ H) as [IHh IHl].
    assert (U : forall test c', windowPivot test data i c' -> c' = c).
    { intros test c' (Hc' & _). congruence. }
    split; intro p.
    + rewrite IHh. cbn [highs]. split.
      * intros [Hp|(j & cj & Hj & Hw & ->)].
        -- destruct isHigh; [|left; exact Hp].
           apply in_app_or in Hp. destruct Hp as [Hp|[<-|[]]]; [left; exact Hp|].
           right. exists i, c. split; [left; reflexivity|].
           split; [apply HH; reflexivity|reflexivity].
        -- right. exists j, cj. split; [right; exact Hj|]. auto.
      * intros [Hp|(j & cj & [<-|Hj] & Hw & ->)].
        -- left. destruct isHigh; [apply in_or_app; left|]; exact Hp.
        -- left. pose proof (U _ _ Hw) as ->. apply HH in Hw.
           rewrite Hw. apply in_or_app. right. left. reflexivity.
        -- right. exists j, cj. auto.
    + rewrite IHl. cbn [lows]. split.
      * intros [Hp|(j & cj & Hj & Hw & ->)].
        -- destruct isLow; [|left; exact Hp].
           apply in_app_or in Hp. destruct Hp as [Hp|[<-|[]]]; [left; exact Hp|].
           right. exists i, c. split; [left; reflexivity|].
           split; [apply HL; reflexivity|reflexivity].
        -- right. exists j, cj. split; [right; exact Hj|]. auto.
      * intros [Hp|(j & cj & [<-|Hj] & Hw & ->)].
        -- left. destruct isLow; [apply in_or_app; left|]; exact Hp.
        -- left. pose proof (U _ _ Hw) as ->. apply HL in Hw.
           rewrite Hw. apply in_or_app. right. left. reflexivity.
        -- right. exists j, cj. auto.
Qed.

(** X2. [findPivotPoints] returns on every series, and a pivot is among its
    highs exactly when it is made from a candle that has five candles on each
    side and whose high every other candle of that window of eleven does not
    exceed; among its lows exactly when no other low of the window is below
    the low of the candle.  The pivot carries the index, the high (low), the
    time and the volume of the candle. *)
Theorem findPivotPoints_characterised :
  exists pv,
    findPivotPoints data = Returns pv
    /\ (forall p, In p (highs pv)
                  <-> exists i c, windowPivot notHigher data i c
                                  /\ p = pivotAt c_high i c)
    /\ (forall p, In p (lows pv)
                  <-> exists i c, windowPivot notLower data i c
                                  /\ p = pivotAt c_low i c).
Proof.
  destruct (findPivotPoints_returns data) as (pv & Hpv). exists pv.
  split; [exact Hpv|].
  unfold findPivotPoints, lookback in Hpv.
  destruct (findPivotPoints_from _ (fun i H => H) _ _ Hpv) as [Hh Hl].
  assert (R : forall test i c, windowPivot test data i c ->
                               In i (seq 5 (length data - 5 - 5))).
  { intros test i c (_ & H1 & H2 & _). apply in_seq. lia. }
  split; intro p.
  - rewrite Hh. cbn [highs]. split.
    + intros [[]|(i & c & _ & Hw & E)]. eauto.
    + intros (i & c & Hw & E). right. exists i, c. eauto.
  - rewrite Hl. cbn [lows]. split.
    + intros [[]|(i & c & _ & Hw & E)]. eauto.
    + intros (i & c & Hw & E). right. exists i, c. eauto.
Qed.

End PivotWindows.

(* ===================================================================== *)
(** ** What the clusterer keeps *)
(* ===================================================================== *)

Section ClusterInvariants.

Import SupportResistanceAnalyzer Vocabulary.

Lemma addToCluster_perm (p : PivotPoint) (cs cs' : list Cluster) :
  addToCluster p cs = Some cs' ->
  Permutation (concat (map points cs')) (p :: concat (map points cs)).
Proof.
  revert cs'. induction cs as [|c t IH]; simpl; intros cs' H; [discriminate|].
  destruct (withinTolerance (pv_price p) (avgPrice c)).
  - injection H as <-. simpl. rewrite <- app_assoc. simpl.
    apply Permutation_sym. apply Permutation_middle.
  - destruct (addToCluster p t) as [t'|]; [|discriminate].
    injection H as <-. simpl.
    eapply Permutation_trans;
      [apply Permutation_app_head; apply IH; reflexivity|].
    apply Permutation_sym. apply Permutation_middle.
Qed.

Lemma fold_clusterStep_perm (ps : list PivotPoint) (cs : list Cluster) :
  Permutation (concat (map points (fold_left clusterStep ps cs)))
              (concat (map points cs) ++ ps).
Proof.
  revert cs. induction ps as [|p t IH]; intro cs; simpl.
  - rewrite app_nil_r. apply Permutation_refl.
  - eapply Permutation_trans; [apply IH|].
    unfold clusterStep. destruct (addToCluster p cs) as [cs'|] eqn:E.
    + eapply Permutation_trans;
        [apply Permutation_app_tail; apply addToCluster_perm; exact E|].
      simpl. apply Permutation_middle.
    + rewrite map_app, concat_app. simpl. rewrite <- app_assoc. apply Permutation_refl.
Qed.

(** X3. [clusterPivotPoints] puts every pivot of its input in exactly one
    cluster and invents none: the members of the clusters, taken together,
    are a rearrangement of the input, and the sizes of the clusters add up to
    the number of pivots. *)
Theorem clusterPivotPoints_partition (pivots : list PivotPoint) :
  Permutation (concat (map points (clusterPivotPoints pivots))) pivots
  /\ list_sum (map (fun c => length (points c)) (clusterPivotPoints pivots))
     = length pivots.
Proof.
  assert (P : Permutation (concat (map points (clusterPivotPoints pivots))) pivots)
    by apply (fold_clusterStep_perm pivots []).
  split; [exact P|].
  rewrite <- (Permutation_length P), length_concat, map_map. reflexivity.
Qed.

Lemma addToCluster_carriesMean (p : PivotPoint) (cs cs' : list Cluster) :
  Forall carriesMean cs -> addToCluster p cs = Some cs' -> Forall carriesMean cs'.
Proof.
  revert cs'. induction cs as [|c t IH]; simpl; intros cs' Hcs H; [discriminate|].
  inversion Hcs as [|? ? Hc Ht]; subst.
  destruct (withinTolerance (pv_price p) (avgPrice c)).
  - injection H as <-. constructor; [|exact Ht].
    unfold carriesMean in *. cbn [points avgPrice].
    destruct (points c) as [|a [|b r]]; [contradiction| |]; reflexivity.
  - destruct (addToCluster p t) as [t'|]; [|discriminate].
    injection H as <-. constructor; [exact Hc|]. apply IH; [exact Ht|reflexivity].
Qed.

(** X4. Every cluster [clusterPivotPoints] returns has at least one member,
    and its [avgPrice] is the arithmetic mean of the prices of all its
    members (the price of the member itself when it has one). *)
Theorem clusterPivotPoints_means (pivots : list PivotPoint) :
  Forall carriesMean (clusterPivotPoints pivots).
Proof.
  unfold clusterPivotPoints.
  assert (G : forall ps cs, Forall carriesMean cs ->
                            Forall carriesMean (fold_left clusterStep ps cs)).
  { induction ps as [|p t IH]; intros cs Hcs; simpl; [exact Hcs|].
    apply IH. unfold clusterStep.
    destruct (addToCluster p cs) as [cs'|] eqn:E.
    - eapply addToCluster_carriesMean; eauto.
    - apply Forall_app. split; [exact Hcs|]. constructor; [|constructor].
      reflexivity. }
  apply G. constructor.
Qed.

End ClusterInvariants.

(* ===================================================================== *)
(** ** Sorting by a key that is never NaN *)
(* ===================================================================== *)

Section SortOrder.

Context {A : Type} (key : A -> num).

Import Vocabulary.

Lemma insert_desc_perm (x : A) (l : list A) :
  Permutation (insert_desc key x l) (x :: l).
Proof.
  induction l as [|y t IH]; simpl; [apply Permutation_refl|].
  destruct (Num.ltb (key y) (key x)); [apply Permutation_refl|].
  eapply Permutation_trans; [apply perm_skip; exact IH|]. apply perm_swap.
Qed.

Lemma sort_desc_perm (l : list A) : Permutation (sort_desc key l) l.
Proof.
  unfold sort_desc.
  assert (G : forall acc, Permutation
                            (fold_left (fun acc x => insert_desc key x acc) l acc)
                            (acc ++ l)).
  { induction l as [|x t IH]; intro acc; simpl.
    - rewrite app_nil_r. apply Permutation_refl.
    - eapply Permutation_trans; [apply IH|].
      eapply Permutation_trans;
        [apply Permutation_app_tail; apply insert_desc_perm|].
      simpl. apply Permutation_middle. }
  apply (G []).
Qed.

Lemma insert_asc_perm (x : A) (l : list A) :
  Permutation (insert_asc key x l) (x :: l).
Proof.
  induction l as [|y t IH]; simpl; [apply Permutation_refl|].
  destruct (Num.ltb (key x) (key y)); [apply Permutation_refl|].
  eapply Permutation_trans; [apply perm_skip; exact IH|]. apply perm_swap.
Qed.

Lemma sort_asc_perm (l : list A) : Permutation (sort_asc key l) l.
Proof.
  unfold sort_asc.
  assert (G : forall acc, Permutation
                            (fold_left (fun acc x => insert_asc key x acc) l acc)
                            (acc ++ l)).
  { induction l as [|x t IH]; intro acc; simpl.
    - rewrite app_nil_r. apply Permutation_refl.
    - eapply Permutation_trans; [apply IH|].
      eapply Permutation_trans;
        [apply Permutation_app_tail; apply insert_asc_perm|].
      simpl. apply Permutation_middle. }
  apply (G []).
Qed.

Lemma insert_desc_sorted (x : A) (l : list A) :
  key x <> NaN -> (forall y, In y l -> key y <> NaN) ->
  StronglySorted (keyGe key) l -> StronglySorted (keyGe key) (insert_desc key x l).
Proof.
  intros Hx Hl Hs. induction Hs as [|y t Ht IH Hy]; simpl.
  - constructor; constructor.
  - destruct (Num.ltb (key y) (key x)) eqn:E.
    + constructor; [constructor; assumption|].
      apply ltb_leb in E. constructor; [exact E|].
      rewrite Forall_forall in *. intros z Hz. unfold Vocabulary.keyGe in *.
      eapply leb_trans; [apply Hy; exact Hz|exact E].
    + constructor.
      * apply IH. intros z Hz. apply Hl. right. exact Hz.
      * rewrite Forall_forall in *. intros z Hz.
        apply (Permutation_in _ (insert_desc_perm x t)) in Hz.
        destruct Hz as [<-|Hz]; [|apply Hy; exact Hz].
        apply ltb_false_leb; [apply Hl; left; reflexivity|exact Hx|exact E].
Qed.

Lemma sort_desc_sorted (l : list A) :
  (forall y, In y l -> key y <> NaN) -> StronglySorted (keyGe key) (sort_desc key l).
Proof.
  intro Hl. unfold sort_desc.
  assert (G : forall acc,
             (forall y, In y acc -> key y <> NaN) ->
             StronglySorted (keyGe key) acc ->
             StronglySorted (keyGe key) (fold_left (fun acc x => insert_desc key x acc) l acc)).
  { induction l as [|x t IH]; intros acc Ha Hs; simpl; [exact Hs|].
    apply IH.
    - intros y Hy. apply Hl. right. exact Hy.
    - intros y Hy. apply (Permutation_in _ (insert_desc_perm x acc)) in Hy.
      destruct Hy as [<-|Hy]; [apply Hl; left; reflexivity|apply Ha; exact Hy].
    - apply insert_desc_sorted; [apply Hl; left; reflexivity|exact Ha|exact Hs]. }
  apply G; [intros y []|constructor].
Qed.

Lemma insert_asc_sorted (x : A) (l : list A) :
  key x <> NaN -> (forall y, In y l -> key y <> NaN) ->
  StronglySorted (keyLe key) l -> StronglySorted (keyLe key) (insert_asc key x l).
Proof.
  intros Hx Hl Hs. induction Hs as [|y t Ht IH Hy]; simpl.
  - constructor; constructor.
  - destruct (Num.ltb (key x) (key y)) eqn:E.
    + constructor; [constructor; assumption|].
      apply ltb_leb in E. constructor; [exact E|].
      rewrite Forall_forall in *. intros z Hz. unfold Vocabulary.keyLe in *.
      eapply leb_trans; [exact E|apply Hy; exact Hz].
    + constructor.
      * apply IH. intros z Hz. apply Hl. right. exact Hz.
      * rewrite Forall_forall in *. intros z Hz.
        apply (Permutation_in _ (insert_asc_perm x t)) in Hz.
        destruct Hz as [<-|Hz]; [|apply Hy; exact Hz].
        apply ltb_false_leb; [exact Hx|apply Hl; left; reflexivity|exact E].
Qed.

Lemma sort_asc_sorted (l : list A) :
  (forall y, In y l -> key y <> NaN) -> StronglySorted (keyLe key) (sort_asc key l).
Proof.
  intro Hl. unfold sort_asc.
  assert (G : forall acc,
             (forall y, In y acc -> key y <> NaN) ->
             StronglySorted (keyLe key) acc ->
             StronglySorted (keyLe key) (fold_left (fun acc x => insert_asc key x acc) l acc)).
  { induction l as [|x t IH]; intros acc Ha Hs; simpl; [exact Hs|].
    apply IH.
    - intros y Hy. apply Hl. right. exact Hy.
    - intros y Hy. apply (Permutation_in _ (insert_asc_perm x acc)) in Hy.
      destruct Hy as [<-|Hy]; [apply Hl; left; reflexivity|apply Ha; exact Hy].
    - apply insert_asc_sorted; [apply Hl; left; reflexivity|exact Ha|exact Hs]. }
  apply G; [intros y []|constructor].
Qed.

Lemma StronglySorted_firstn (R : A -> A -> Prop) (n : nat) (l : list A) :
  StronglySorted R l -> StronglySorted R (firstn n l).
Proof.
  intro H. revert n. induction H as [|x t Ht IH Hx]; intro n.
  - rewrite firstn_nil. constructor.
  - destruct n as [|n]; simpl; [constructor|]. constructor; [apply IH|].
    rewrite Forall_forall in *. intros y Hy. apply Hx.
    rewrite <- (firstn_skipn n t). apply in_or_app. left. exact Hy.
Qed.

Lemma sorted_descending (l : list A) :
  StronglySorted (keyGe key) l -> Vocabulary.descending (map key l).
Proof.
  induction 1 as [|x t Ht IH Hx]; simpl; [exact I|].
  destruct t as [|y r]; simpl; [exact I|]. split; [|exact IH].
  inversion Hx; subst. assumption.
Qed.

Lemma sorted_ascending (l : list A) :
  StronglySorted (keyLe key) l -> Vocabulary.ascending (map key l).
Proof.
  induction 1 as [|x t Ht IH Hx]; simpl; [exact I|].
  destruct t as [|y r]; simpl; [exact I|]. split; [|exact IH].
  inversion Hx; subst. assumption.
Qed.

(** The first of a list sorted in descending order is a greatest element. *)
Lemma sort_desc_head (l : list A) (x : A) :
  (forall y, In y l -> key y <> NaN) ->
  hd_error (sort_desc key l) = Some x ->
  In x l /\ forall y, In y l -> Num.leb (key y) (key x) = true.
Proof.
  intros Hl Hx. pose proof (sort_desc_sorted l Hl) as Hs.
  pose proof (sort_desc_perm l) as Hp.
  destruct (sort_desc key l) as [|z t]; [discriminate|]. injection Hx as ->.
  split; [apply (Permutation_in _ Hp); left; reflexivity|].
  intros y Hy. apply (Permutation_in _ (Permutation_sym Hp)) in Hy.
  inversion Hs as [|? ? _ Hz]; subst.
  destruct Hy as [<-|Hy].
  - apply leb_refl. apply Hl. apply (Permutation_in _ Hp). left. reflexivity.
  - rewrite Forall_forall in Hz. apply Hz. exact Hy.
Qed.

End SortOrder.

Section RankedLevels.

Import SupportResistanceAnalyzer Vocabulary.

(** X5. When no strength is NaN, [getStrongestLevels] returns the levels in
    descending order of strength: the first [count] of a rearrangement of the
    input, [count] of them or all when there are fewer.  The array of the
    caller, which the call sorts in place, is left as that rearrangement. *)
Theorem getStrongestLevels_sorted (levels : list Level) (count : nat) :
  (forall l, In l levels -> lv_strength l <> NaN) ->
  let '(strongest, after) := getStrongestLevels levels count in
  Permutation after levels
  /\ descending (map lv_strength after)
  /\ strongest = firstn count after
  /\ descending (map lv_strength strongest)
  /\ length strongest = Nat.min count (length levels).
Proof.
  intro H. unfold getStrongestLevels. cbv zeta.
  pose proof (sort_desc_sorted lv_strength levels H) as Hs.
  pose proof (sort_desc_perm lv_strength levels) as Hp.
  split; [exact Hp|]. split; [apply sorted_descending; exact Hs|].
  split; [reflexivity|]. split.
  - apply sorted_descending. apply StronglySorted_firstn. exact Hs.
  - rewrite length_firstn, (Permutation_length Hp). reflexivity.
Qed.

Lemma getStrongestLevels_sorted_witness :
  map lv_strength (fst (getStrongestLevels threeLevels 2)) = [Fin 58%Q; Fin 41%Q]
  /\ descending (map lv_strength (fst (getStrongestLevels threeLevels 2))).
Proof.
  split; [reflexivity|].
  assert (H : forall l, In l threeLevels -> lv_strength l <> NaN).
  { intros l [<-|[<-|[<-|[]]]]; discriminate. }
  pose proof (getStrongestLevels_sorted threeLevels 2 H) as G.
  destruct (getStrongestLevels threeLevels 2) as [strongest after].
  apply G.
Defined.

(** X6. [findNearestLevels] returns the levels of its input nearest to the
    price, nearest first: when no distance is NaN the result is in ascending
    order of [distance], each entry is a level of the input with the absolute
    difference of its price and the price asked for, and there are [count]
    entries or all when there are fewer. *)
Theorem findNearestLevels_sorted (price : num) (levels : list Level) (count : nat) :
  (forall l, In l levels -> Num.abs (lv_price l - price) <> NaN) ->
  ascending (map nl_distance (findNearestLevels price levels count))
  /\ (forall n, In n (findNearestLevels price levels count) ->
                In (nl_level n) levels
                /\ nl_distance n = Num.abs (lv_price (nl_level n) - price))
  /\ length (findNearestLevels price levels count) = Nat.min count (length levels).
Proof.
  intro H. unfold findNearestLevels.
  set (near := map (fun level => mkNear level (Num.abs (lv_price level - price))) levels).
  assert (Hn : forall n, In n near -> nl_distance n <> NaN).
  { intros n Hin. apply in_map_iff in Hin. destruct Hin as (l & <- & Hl).
    apply H. exact Hl. }
  pose proof (sort_asc_sorted nl_distance near Hn) as Hs.
  pose proof (sort_asc_perm nl_distance near) as Hp.
  split; [apply sorted_ascending; apply StronglySorted_firstn; exact Hs|]. split.
  - intros n Hin.
    assert (Hin' : In n near).
    { apply (Permutation_in _ Hp). rewrite <- (firstn_skipn count (sort_asc _ _)).
      apply in_or_app. left. exact Hin. }
    apply in_map_iff in Hin'. destruct Hin' as (l & <- & Hl). simpl. auto.
  - rewrite length_firstn, (Permutation_length Hp). unfold near.
    rewrite length_map. reflexivity.
Qed.

Lemma findNearestLevels_sorted_witness :
  map (fun n => lv_price (nl_level n)) (findNearestLevels (Fin 125) threeLevels 2)
  = [Fin 120%Q; Fin 100%Q]
  /\ ascending (map nl_distance (findNearestLevels (Fin 125) threeLevels 2)).
Proof.
  split; [reflexivity|].
  apply (findNearestLevels_sorted (Fin 125) threeLevels 2).
  intros l [<-|[<-|[<-|[]]]]; discriminate.
Defined.

End RankedLevels.

(* ===================================================================== *)
(** ** Confidence of the wave structures *)
(* ===================================================================== *)

Section WaveConfidence.

Import ElliottWaveAnalyzer Vocabulary.
Local Open Scope num_scope.

(** A valid impulse has a confidence from 60 to 95. *)
Lemma analyzeImpulseWave_confidence (waves : list SwingPoint) (c : WaveCheck) :
  analyzeImpulseWave waves = Returns c -> wc_isValid c = true ->
  exists x, wc_confidence c = Some x /\ inBand (Fin 60) (Fin 95) x.
Proof.
  destruct waves as [|w1 [|w2 [|w3 [|w4 [|w5 [|w6 rest]]]]]];
    try (intro H; injection H as <-; discriminate).
  unfold analyzeImpulseWave.
  match goal with |- context [if negb ?b then _ else _] => destruct b end;
    [|intro H; injection H as <-; discriminate].
  unfold validateElliottRules, checkFibonacciRelationships, calculateWaveRatios, award.
  cbn [negb bind].
  destruct (sw_type w1); cbv zeta;
    repeat match goal with |- context [if ?b then _ else _] => destruct b end;
    intro H; injection H as <-; cbn [wc_isValid wc_confidence];
    intro V; vm_compute in V; try discriminate V;
    (eexists; split; [reflexivity|vm_compute; split; reflexivity]).
Qed.

(** A number over itself is 1 or NaN, and neither is within 0.1 of a
    retracement ratio. *)
Lemma self_ratio_not_retracement (x : num) :
  isNearFibRatio (x / x) [dec 5 10; dec 618 1000; dec 786 1000] = false.
Proof.
  destruct x as [q| | |]; try reflexivity.
  unfold Num.div. destruct (Qeq_bool q 0) eqn:E.
  - apply Qeq_bool_iff in E. unfold Qeq in E. simpl in E.
    rewrite Z.mul_1_r in E. unfold Num.sgn. rewrite E. reflexivity.
  - assert (Hq : ~ (q == 0)%Q).
    { intro Z. apply Qeq_bool_iff in Z. congruence. }
    assert (F : forall t : Q, (t + (1 # 10) < 1)%Q ->
                (Num.abs (Fin (q / q) - Fin t) <=? dec 1 10) = false).
    { intros t Ht. unfold Num.sub, Num.neg, Num.add, Num.abs, dec.
      apply leb_Fin_false.
      assert (R : (q / q + - t == 1 - t)%Q) by (field; exact Hq).
      rewrite R. rewrite Qabs_pos; lra. }
    unfold isNearFibRatio, existsb, dec.
    rewrite !F; [reflexivity| | |]; reflexivity.
Qed.

(** The confidence of a correction: 40 when it is valid, and the bonus for
    the retracement of wave B is never given. *)
Lemma analyzeCorrectiveWave_cases (waves : list SwingPoint) :
  (wc_isValid (analyzeCorrectiveWave waves) = false
   /\ wc_confidence (analyzeCorrectiveWave waves) = None)
  \/ (wc_isValid (analyzeCorrectiveWave waves) = false
      /\ wc_confidence (analyzeCorrectiveWave waves) = Some (Fin 20))
  \/ (wc_isValid (analyzeCorrectiveWave waves) = true
      /\ wc_confidence (analyzeCorrectiveWave waves) = Some (Fin 40)
      /\ length waves = 3%nat).
Proof.
  destruct waves as [|wA [|wB [|wC [|wD rest]]]]; try (left; split; reflexivity).
  unfold analyzeCorrectiveWave.
  match goal with |- context [if negb ?b then _ else _] => destruct b end;
    [|left; split; reflexivity].
  cbn [negb]. cbv zeta. rewrite self_ratio_not_retracement.
  match goal with |- context [if ?b then _ else _] => destruct b end.
  - right. right. repeat split.
  - right. left. split; reflexivity.
Qed.

(** X7. The confidence of [analyzeCorrectiveWave] is 20 or 40 whenever it is
    set, never more: the bonus of 15 for the retracement of wave B cannot be
    given, as the code divides the length of wave A by itself.  The correction
    is valid exactly when the confidence is 40. *)
Theorem corrective_wave_confidence (waves : list SwingPoint) :
  (wc_confidence (analyzeCorrectiveWave waves) = None
   \/ wc_confidence (analyzeCorrectiveWave waves) = Some (Fin 20)
   \/ wc_confidence (analyzeCorrectiveWave waves) = Some (Fin 40))
  /\ (wc_isValid (analyzeCorrectiveWave waves) = true
      <-> wc_confidence (analyzeCorrectiveWave waves) = Some (Fin 40)).
Proof.
  destruct (analyzeCorrectiveWave_cases waves) as [[V C]|[[V C]|(V & C & _)]];
    rewrite V, C; (split; [auto|split; intro H; (discriminate H || reflexivity)]).
Qed.

Lemma scored_not_NaN (s : Structure) :
  scored s -> conf_num (st_confidence s) <> NaN.
Proof.
  unfold scored. destruct (st_type s).
  - intros (_ & x & -> & H & _). simpl. apply leb_true_not_NaN in H. apply H.
  - intros (_ & ->). discriminate.
Qed.

Lemma impulseCandidates_scored (swings : list SwingPoint) (impulses : list Structure) :
  impulseCandidates swings = Returns impulses ->
  Forall (fun s => st_type s = impulse /\ scored s) impulses.
Proof.
  unfold impulseCandidates.
  apply (foldM_invariant (Forall (fun s => st_type s = impulse /\ scored s)));
    [|constructor].
  intros s i s' Hs _ Hstep.
  destruct (analyzeImpulseWave_returns (slice swings i (i + 5))) as (c & Hc & Hv).
  rewrite Hc in Hstep. cbn [bind] in Hstep. injection Hstep as <-.
  destruct (wc_isValid c) eqn:V; [|exact Hs].
  apply Forall_app. split; [exact Hs|]. constructor; [|constructor].
  split; [reflexivity|]. unfold scored. cbn [st_type st_waves st_confidence].
  split; [apply Hv; reflexivity|].
  apply (analyzeImpulseWave_confidence _ _ Hc V).
Qed.

Lemma correctiveCandidates_scored (swings : list SwingPoint) :
  Forall (fun s => st_type s = corrective /\ scored s) (correctiveCandidates swings).
Proof.
  unfold correctiveCandidates. apply Forall_forall. intros s Hs.
  apply in_flat_map in Hs. destruct Hs as (i & _ & Hs). cbv zeta in Hs.
  destruct (analyzeCorrectiveWave_cases (slice swings i (i + 3)))
    as [[V C]|[[V C]|(V & C & L)]]; rewrite V in Hs; try contradiction.
  destruct Hs as [<-|[]]. split; [reflexivity|]. unfold scored.
  cbn [st_type st_waves st_confidence]. split; assumption.
Qed.

Lemma candidates_scored (swings : list SwingPoint) (impulses : list Structure) :
  impulseCandidates swings = Returns impulses ->
  forall s, In s (impulses ++ correctiveCandidates swings) -> scored s.
Proof.
  intros Hi s Hs. apply in_app_or in Hs.
  pose proof (impulseCandidates_scored _ _ Hi) as A.
  pose proof (correctiveCandidates_scored swings) as B.
  rewrite Forall_forall in A, B. destruct Hs as [Hs|Hs]; [apply A|apply B]; exact Hs.
Qed.

Lemma identifyWaveStructure_scored (swings : list SwingPoint) :
  exists structure,
    identifyWaveStructure swings = Returns structure
    /\ (forall s, structure = Some s -> scored s).
Proof.
  unfold identifyWaveStructure. destruct (length swings <? 5)%nat.
  - exists None. split; [reflexivity|discriminate].
  - destruct (impulseCandidates_returns swings) as (impulses & Hi & _).
    rewrite Hi. cbn [bind]. eexists. split; [reflexivity|].
    intros s Hs. apply (candidates_scored swings impulses Hi).
    match type of Hs with
    | hd_error ?l = _ => assert (Hin : In s l) by (destruct l; [discriminate|];
                                                    injection Hs as <-; left; reflexivity)
    end.
    apply sort_desc_In in Hin. exact Hin.
Qed.

(** X8. [identifyWaveStructure] returns on every list of swings.  With five
    swings or more it returns a candidate of the greatest confidence among the
    valid impulses and corrections it collected, and a correction only when
    no window of five swings is a valid impulse; it returns null when there
    are fewer than five swings or no candidate at all. *)
Theorem identifyWaveStructure_choice (swings : list SwingPoint) :
  exists impulses choice,
    impulseCandidates swings = Returns impulses
    /\ identifyWaveStructure swings = Returns choice
    /\ match choice with
       | None =>
           (length swings < 5)%nat
           \/ (impulses = [] /\ correctiveCandidates swings = [])
       | Some s =>
           (5 <= length swings)%nat
           /\ In s (impulses ++ correctiveCandidates swings)
           /\ (forall s', In s' (impulses ++ correctiveCandidates swings) ->
                          le (conf_num (st_confidence s')) (conf_num (st_confidence s)))
           /\ (st_type s = corrective <-> impulses = [])
       end.
Proof.
  destruct (impulseCandidates_returns swings) as (impulses & Hi & _).
  exists impulses. unfold identifyWaveStructure. rewrite Hi. cbn [bind].
  destruct (length swings <? 5)%nat eqn:L.
  - exists None. split; [reflexivity|]. split; [reflexivity|].
    left. apply Nat.ltb_lt. exact L.
  - apply Nat.ltb_ge in L. eexists. split; [reflexivity|]. split; [reflexivity|].
    set (key := fun s : Structure => conf_num (st_confidence s)).
    set (all := impulses ++ correctiveCandidates swings).
    assert (Hk : forall y, In y all -> key y <> NaN).
    { intros y Hy. apply scored_not_NaN. apply (candidates_scored swings impulses Hi).
      exact Hy. }
    destruct (hd_error (sort_desc key all)) as [s|] eqn:H.
    + destruct (sort_desc_head key all s Hk H) as (Hin & Hmax).
      split; [exact L|]. split; [exact Hin|]. split; [exact Hmax|].
      pose proof (impulseCandidates_scored _ _ Hi) as A.
      pose proof (correctiveCandidates_scored swings) as B.
      rewrite Forall_forall in A, B. split.
      * intro T. destruct impulses as [|s' rest]; [reflexivity|]. exfalso.
        destruct (A s' (or_introl eq_refl)) as (T' & S').
        assert (Hs : scored s) by (apply (candidates_scored swings _ Hi); exact Hin).
        specialize (Hmax s' (or_introl eq_refl)). unfold key in Hmax.
        unfold scored in S', Hs. rewrite T' in S'. rewrite T in Hs.
        destruct S' as (_ & x & Hx & Hlo & _). destruct Hs as (_ & Hc).
        rewrite Hx, Hc in Hmax. simpl conf_num in Hmax.
        pose proof (leb_trans _ _ _ Hlo Hmax) as Z. vm_compute in Z. discriminate Z.
      * intros ->. apply in_app_or in Hin. destruct Hin as [[]|Hin].
        apply B. exact Hin.
    + right.
      assert (E : sort_desc key all = []) by (destruct (sort_desc key all); [reflexivity|discriminate]).
      pose proof (sort_desc_length key all) as Len. rewrite E in Len.
      unfold all in Len. rewrite length_app in Len. simpl in Len.
      split; [destruct impulses|destruct (correctiveCandidates swings)];
        try reflexivity; simpl in Len; lia.
Qed.

Lemma wave_confidence_clamp (q : Q) :
  (60 <= q)%Q -> (q <= 95)%Q ->
  inBand (Fin 70) (Fin 95) (Num.max (Fin 0) (Num.min (Fin 95) (Fin q + Fin 10)))
  /\ (Num.max (Fin 0) (Num.min (Fin 95) (Fin q + Fin 10)) >=? Fin 60) = true.
Proof.
  intros Lo Hi. unfold Num.add, Num.min, Num.ltb.
  destruct (Qle_bool 95 (q + 10)) eqn:E1; cbn [negb].
  - vm_compute. repeat split.
  - apply leb_Fin_false in E1. unfold Num.max, Num.ltb.
    destruct (Qle_bool (q + 10) 0) eqn:E2; cbn [negb].
    + apply Qle_bool_iff in E2. lra.
    + unfold inBand, le, Num.geb. rewrite !leb_Fin. repeat split; lra.
Qed.

(** What [analyzeWave] reports, by the structure it found. *)
Lemma analyzeWave_shape (data : CandleSeries) :
  exists r,
    analyzeWave data = Returns r
    /\ match wr_waveStructure r with
       | None =>
           wr_isValid r = false /\ wr_confidence r = Fin 0
           /\ wr_currentWave r = None
       | Some s =>
           match st_type s with
           | impulse =>
               wr_isValid r = true
               /\ inBand (Fin 70) (Fin 95) (wr_confidence r)
               /\ (wr_currentWave r = Some "A (corrective)"%string
                   \/ wr_currentWave r = Some "5 (completing)"%string)
               /\ length (st_waves s) = 5%nat
           | corrective =>
               wr_isValid r = false /\ wr_confidence r = Fin 50
               /\ wr_currentWave r = Some "C (corrective)"%string
               /\ length (st_waves s) = 3%nat
           end
       end.
Proof.
  unfold analyzeWave.
  destruct (identifySwingPoints_returns data) as (swings & Hs). rewrite Hs.
  cbn [bind]. destruct (length swings <? 5)%nat eqn:E.
  { eexists. split; [reflexivity|]. cbn. repeat split. }
  assert (Hd : data <> []).
  { intro Z. subst data. vm_compute in Hs. injection Hs as <-. discriminate. }
  destruct (identifyWaveStructure_scored swings) as (st & -> & Hsc). cbn [bind].
  destruct (at_last_nonempty data Hd) as (last & Hlast).
  destruct st as [s|].
  2:{ unfold determineCurrentWave, calculateWaveProjections. cbn [bind].
      eexists. split; [reflexivity|]. cbn. repeat split. }
  specialize (Hsc s eq_refl). unfold scored in Hsc.
  unfold determineCurrentWave, calculateWaveProjections, calculateWaveConfidence.
  rewrite Hlast. cbn [bind].
  destruct (st_type s) eqn:T.
  - destruct Hsc as (Hlen & x & Hx & Hlo & Hhi).
    rewrite Hlen, Hx. cbn [Nat.eqb Nat.ltb Nat.leb conf_num].
    change (5 <? 3)%nat with false. cbv iota.
    destruct (at_last_nonempty (st_waves s)) as (lw & ->);
      [intro Z; rewrite Z in Hlen; discriminate|].
    cbn [bind].
    unfold calculateImpulseProjections. rewrite Hlen.
    change (3 <=? 5)%nat with true. cbv iota.
    destruct (at_index_returns (st_waves s) 0) as (w0 & ->); [lia|].
    destruct (at_index_returns (st_waves s) 1) as (w1 & ->); [lia|].
    destruct (at_index_returns (st_waves s) 2) as (w2 & ->); [lia|].
    destruct (at_index_returns (st_waves s) 4) as (w4 & ->); [lia|].
    cbn [bind].
    assert (exists q, x = Fin q /\ (60 <= q)%Q /\ (q <= 95)%Q) as (q & -> & Lo & Hi).
    { destruct x; try discriminate Hlo; try discriminate Hhi.
      eexists. split; [reflexivity|]. split; apply leb_Fin; assumption. }
    destruct (wave_confidence_clamp q Lo Hi) as (Band & Valid).
    repeat match goal with |- context [if ?b then _ else _] => destruct b end;
      (eexists; split; [reflexivity|]);
      cbn [wr_waveStructure wr_isValid wr_confidence wr_currentWave];
      rewrite T; (split; [exact Valid|split; [exact Band|split; [auto|exact Hlen]]]).
  - destruct Hsc as (Hlen & Hx). rewrite Hlen, Hx.
    unfold calculateCorrectiveProjections. rewrite Hlen.
    change (2 <=? 3)%nat with true. cbv iota.
    destruct (at_index_returns (st_waves s) 0) as (w0 & ->); [lia|].
    destruct (at_index_returns (st_waves s) 1) as (w1 & ->); [lia|].
    cbn [bind]. eexists. split; [reflexivity|].
    cbn [wr_waveStructure wr_isValid wr_confidence wr_currentWave]. rewrite T.
    split; [reflexivity|]. split; [reflexivity|]. split; [reflexivity|exact Hlen].
Qed.

(** X9. [analyzeWave] returns on every series, and what it reports follows
    from the structure it found.  Without a structure the analysis is invalid
    with confidence 0 and no current wave.  With a correction it is invalid
    too, the confidence is 50 and the current wave is C.  Only with a
    five-swing impulse is it valid: the confidence is then from 70 to 95 and
    the current wave is A or 5. *)
Theorem analyzeWave_by_structure (data : CandleSeries) :
  exists r,
    analyzeWave data = Returns r
    /\ match wr_waveStructure r with
       | None =>
           wr_isValid r = false /\ wr_confidence r = Fin 0
           /\ wr_currentWave r = None
       | Some s =>
           match st_type s with
           | impulse =>
               wr_isValid r = true
               /\ inBand (Fin 70) (Fin 95) (wr_confidence r)
               /\ (wr_currentWave r = Some "A (corrective)"%string
                   \/ wr_currentWave r = Some "5 (completing)"%string)
               /\ length (st_waves s) = 5%nat
           | corrective =>
               wr_isValid r = false /\ wr_confidence r = Fin 50
               /\ wr_currentWave r = Some "C (corrective)"%string
               /\ length (st_waves s) = 3%nat
           end
       end.
Proof. exact (analyzeWave_shape data). Qed.

End WaveConfidence.

(* ===================================================================== *)
(** ** The trading levels *)
(* ===================================================================== *)

Section TradingLevels.

Import App Vocabulary.
Local Open Scope num_scope.

Lemma filter_none {A : Type} (p : A -> bool) (l : list A) :
  (forall x, p x = false) -> filter p l = [].
Proof.
  intro H. induction l as [|x t IH]; simpl; [reflexivity|]. rewrite H. exact IH.
Qed.

Lemma same_refl (x : num) : same x x.
Proof. destruct x; simpl; auto. apply Qeq_refl. Qed.

(** Rounding to decimals does not tell two fractions of the same value
    apart. *)
Lemma toFixedParsed_same (f : nat) (x y : num) :
  same x y -> same (toFixedParsed f x) (toFixedParsed f y).
Proof.
  destruct x as [a| | |], y as [b| | |]; try (simpl; tauto).
  intro H. change (a == b)%Q in H. unfold toFixedParsed.
  assert (E1 : Qle_bool (inject_Z (10 ^ 21)) (Qabs a)
               = Qle_bool (inject_Z (10 ^ 21)) (Qabs b)) by (rewrite H; reflexivity).
  assert (E2 : Qle_bool 0 a = Qle_bool 0 b) by (rewrite H; reflexivity).
  assert (E3 : Qfloor (Qabs a * inject_Z (10 ^ Z.of_nat f) + (1 # 2))
               = Qfloor (Qabs b * inject_Z (10 ^ Z.of_nat f) + (1 # 2)))
    by (rewrite H; reflexivity).
  rewrite E1, E2, E3.
  destruct (Qle_bool (inject_Z (10 ^ 21)) (Qabs b)); simpl; [exact H|apply Qeq_refl].
Qed.

Lemma div_zero_zero (a b : Q) : (a == 0)%Q -> (b == 0)%Q -> Fin a / Fin b = NaN.
Proof.
  intros Ha Hb. unfold Num.div.
  apply Qeq_bool_iff in Hb. rewrite Hb.
  unfold Qeq in Ha. simpl in Ha. rewrite Z.mul_1_r in Ha.
  unfold Num.sgn. rewrite Ha. reflexivity.
Qed.

Lemma Qabs_zero (a : Q) : (a == 0)%Q -> (Qabs a == 0)%Q.
Proof. intro H. rewrite H. reflexivity. Qed.

Lemma calculateATR_nil : calculateATR [] 14 = Fin 0.
Proof. reflexivity. Qed.

(** The levels [calculateTradingLevels] returns, all at the price. *)
Lemma calculateTradingLevels_flat
        (currentPrice : num) (signal : PatternAnalyzer.Side)
        (srLevels : SupportResistanceAnalyzer.Levels)
        (smcAnalysis : SmartMoneyAnalyzer.Analysis) :
  exists levels,
    calculateTradingLevels currentPrice signal srLevels smcAnalysis = Returns levels
    /\ entry levels = toFixedParsed 6 currentPrice
    /\ same (stopLoss levels) (entry levels)
    /\ same (takeProfit1 levels) (entry levels)
    /\ same (takeProfit2 levels) (entry levels)
    /\ same (takeProfit3 levels) (entry levels)
    /\ riskReward levels = NaN.
Proof.
  unfold calculateTradingLevels. rewrite calculateATR_nil.
  rewrite (filter_none (fun s => object_to_number s <? currentPrice));
    [|intro x; reflexivity].
  rewrite (filter_none (fun r => object_to_number r >? currentPrice));
    [|intro x; destruct currentPrice; reflexivity].
  change (sort_desc object_to_number []) with (@nil SupportResistanceAnalyzer.Level).
  change (sort_asc object_to_number []) with (@nil SupportResistanceAnalyzer.Level).
  cbv zeta. unfold orPrice. cbn [nth_error].
  assert (R : forall a b : Q, (a == 0)%Q -> (b == 0)%Q ->
              toFixedParsed 2 (Num.abs (Fin a) / Num.abs (Fin b)) = NaN).
  { intros a b Ha Hb. unfold Num.abs.
    rewrite (div_zero_zero _ _ (Qabs_zero a Ha) (Qabs_zero b Hb)). reflexivity. }
  destruct signal, currentPrice as [q| | |];
    cbn [targetFixed bind target_to_number]; eexists; (split; [reflexivity|]);
    cbn [entry stopLoss takeProfit1 takeProfit2 takeProfit3 riskReward];
    (split; [reflexivity|]);
    try (repeat split; exact I);
    (split; [apply toFixedParsed_same; simpl; ring|]);
    (split; [apply toFixedParsed_same; simpl; ring|]);
    (split; [apply toFixedParsed_same; simpl; ring|]);
    (split; [apply toFixedParsed_same; simpl; ring|]);
    apply R; simpl; ring.
Qed.

(** X10. [calculateTradingLevels] never reads the levels or the volatility it
    is given.  The object of [findLevels] has no [ohlcData], so the ATR is 0,
    and the filters compare level objects with the price, so they keep
    nothing.  For every price and signal the call returns with the entry at
    the price rounded to six decimals, the stop loss and the three take
    profits at that same value, and a risk to reward ratio of NaN. *)
Theorem calculateTradingLevels_degenerate
        (currentPrice : num) (signal : PatternAnalyzer.Side)
        (srLevels : SupportResistanceAnalyzer.Levels)
        (smcAnalysis : SmartMoneyAnalyzer.Analysis) :
  exists levels,
    calculateTradingLevels currentPrice signal srLevels smcAnalysis = Returns levels
    /\ entry levels = toFixedParsed 6 currentPrice
    /\ same (stopLoss levels) (entry levels)
    /\ same (takeProfit1 levels) (entry levels)
    /\ same (takeProfit2 levels) (entry levels)
    /\ same (takeProfit3 levels) (entry levels)
    /\ riskReward levels = NaN.
Proof.
  exact (calculateTradingLevels_flat currentPrice signal srLevels smcAnalysis).
Qed.

End TradingLevels.

(* ===================================================================== *)
(** ** Fair value gaps *)
(* ===================================================================== *)

Section FairValueGaps.

Import SmartMoneyAnalyzer Vocabulary.
Local Open Scope num_scope.

Lemma at_index_nth_error {A} (a : list A) (i : nat) (x : A) :
  at_index a i = Returns x <-> nth_error a i = Some x.
Proof.
  unfold at_index. destruct (nth_error a i); split; intro H;
    try discriminate; injection H as <-; reflexivity.
Qed.

Lemma skipn_nth_error_cons {A} (a : list A) (i : nat) (x : A) :
  nth_error a i = Some x -> exists rest, skipn i a = x :: rest.
Proof.
  revert a. induction i as [|i IH]; intros [|y t] H; try discriminate.
  - injection H as <-. eexists. reflexivity.
  - simpl in H. simpl. apply IH. exact H.
Qed.

Lemma lt_le_same (x y : num) : (x <? y) = true -> (x <=? y) = true /\ (y <=? y) = true.
Proof.
  intro H. split; [apply ltb_leb; exact H|]. apply leb_refl.
  destruct x, y; try discriminate H; discriminate.
Qed.

Lemma gapStep_gaps (data : CandleSeries) (fvgs fvgs' : list FairValueGap) (i : nat) :
  Forall (gapBetween data) fvgs ->
  In i (seq 1 (length data - 1 - 1)) ->
  gapStep data fvgs i = Returns fvgs' ->
  Forall (gapBetween data) fvgs'.
Proof.
  intros Hs Hi Hstep. unfold gapStep in Hstep.
  destruct (neighbours_defined data i Hi) as (p & c & n & Hp & Hc & Hn).
  rewrite Hp, Hc, Hn in Hstep. cbn [bind] in Hstep. cbv zeta in Hstep.
  apply Returns_inj in Hstep. subst fvgs'.
  apply at_index_nth_error in Hp, Hn. apply in_seq in Hi.
  assert (Hbull : Forall (gapBetween data)
                    (if c_high p <? c_low n
                     then if (c_low n - c_high p) / c_high p >=? fvgMinSize
                          then fvgs ++ [mkGap bullish (c_low n) (c_high p) i (c_time c)
                                              ((c_low n - c_high p) / c_high p) false]
                          else fvgs
                     else fvgs)).
  { destruct (c_high p <? c_low n) eqn:E1; [|exact Hs].
    destruct ((c_low n - c_high p) / c_high p >=? fvgMinSize) eqn:E2; [|exact Hs].
    apply Forall_app. split; [exact Hs|]. constructor; [|constructor].
    exists p, n. cbn. repeat split; try assumption; lia. }
  destruct (c_low p >? c_high n) eqn:E1; [|exact Hbull].
  destruct ((c_low p - c_high n) / c_high n >=? fvgMinSize) eqn:E2; [|exact Hbull].
  apply Forall_app. split; [exact Hbull|]. constructor; [|constructor].
  exists p, n. cbn. repeat split; try assumption; lia.
Qed.

Lemma findFairValueGaps_gaps (data : CandleSeries) (fvgs : list FairValueGap) :
  findFairValueGaps data = Returns fvgs ->
  Forall (fun g => fvg_filled g = true /\ gapBetween data g) fvgs.
Proof.
  unfold findFairValueGaps. intro H.
  apply bind_Returns in H. destruct H as (raw & Hraw & H).
  apply Returns_inj in H. subst fvgs.
  assert (Hg : Forall (gapBetween data) raw).
  { revert Hraw. apply (foldM_invariant (Forall (gapBetween data))); [|constructor].
    intros s i s' Hs Hi Hstep. exact (gapStep_gaps data s s' i Hs Hi Hstep). }
  unfold markFilledFVGs. rewrite Forall_forall in *. intros g' Hin.
  apply in_map_iff in Hin. destruct Hin as (g & <- & Hin).
  pose proof (Hg g Hin) as G. split; [|exact G].
  destruct G as (prev & next & Hp & Hn & _ & _ & Hlt & Hty).
  destruct (skipn_nth_error_cons _ _ _ Hn) as (rest & ->).
  cbn [set_filled fvg_filled existsb]. apply orb_true_iff. left.
  unfold fillsGap, Num.geb. destruct (fvg_type g); [| |contradiction];
    destruct Hty as (Hh & Hl); unfold lt in Hlt.
  - rewrite <- Hh. apply lt_le_same in Hlt. destruct Hlt as (A & B).
    rewrite A, B. reflexivity.
  - rewrite <- Hl. apply andb_true_iff. split.
    + apply leb_refl. destruct (fvg_low g), (fvg_high g); try discriminate Hlt; discriminate.
    + apply ltb_leb. exact Hlt.
Qed.

(** X11. [findFairValueGaps] returns on every series, and every gap it returns
    is marked as filled.  The search for a candle that fills the gap starts at
    the candle after the gap's index, and that is the candle whose low (for a
    bullish gap) or high (for a bearish one) is the edge of the gap, so it is
    always inside.  Each gap lies between its two neighbours, with its low
    strictly below its high and a size of at least [fvgMinSize]. *)
Theorem fair_value_gaps_always_filled (data : CandleSeries) :
  exists fvgs,
    findFairValueGaps data = Returns fvgs
    /\ Forall (fun g => fvg_filled g = true /\ gapBetween data g) fvgs.
Proof.
  destruct (findFairValueGaps_returns data) as (fvgs & H).
  exists fvgs. split; [exact H|]. apply findFairValueGaps_gaps. exact H.
Qed.

Lemma filter_Forall_none {A : Type} (p : A -> bool) (l : list A) :
  Forall (fun x => p x = false) l -> filter p l = [].
Proof.
  induction 1 as [|x t Hx _ IH]; simpl; [reflexivity|]. rewrite Hx. exact IH.
Qed.

(** X12. The fair value gaps have no part in the bias or the key levels of
    [analyze].  Both read only the gaps that are not filled, and there are
    none: the bias is the one computed without any gap, the key levels are
    those of the order blocks and the liquidity zones alone, and no key level
    is a fair value gap. *)
Theorem analyze_ignores_gaps (data : CandleSeries) (a : Analysis) :
  analyze data = Returns a ->
  an_bias a = determineBias (an_marketStructure a) (an_orderBlocks a) []
  /\ an_keyLevels a = identifyKeyLevels (an_orderBlocks a) [] (an_liquidityZones a)
  /\ Forall (fun k => kl_type k <> fair_value_gap) (an_keyLevels a).
Proof.
  unfold analyze. intro H.
  apply bind_Returns in H. destruct H as (ms & _ & H).
  apply bind_Returns in H. destruct H as (obs & _ & H).
  apply bind_Returns in H. destruct H as (fvgs & Hf & H).
  apply bind_Returns in H. destruct H as (lzs & _ & H).
  cbv zeta in H. apply Returns_inj in H. subst a.
  cbn [an_bias an_keyLevels an_marketStructure an_orderBlocks an_liquidityZones].
  assert (E : filter (fun fvg => negb (fvg_filled fvg)) fvgs = []).
  { apply filter_Forall_none. pose proof (findFairValueGaps_gaps _ _ Hf) as G.
    rewrite Forall_forall in *. intros g Hg. destruct (G g Hg) as (-> & _). reflexivity. }
  assert (K : identifyKeyLevels obs fvgs lzs = identifyKeyLevels obs [] lzs).
  { unfold identifyKeyLevels. cbv zeta. rewrite E. reflexivity. }
  split; [unfold determineBias; cbv zeta; rewrite E; reflexivity|].
  split; [exact K|]. rewrite K. unfold identifyKeyLevels. cbv zeta.
  apply Forall_forall. intros k Hk. apply sort_desc_In in Hk.
  cbn [filter map app] in Hk. apply in_app_or in Hk.
  destruct Hk as [Hk|Hk]; apply in_map_iff in Hk; destruct Hk as (x & <- & _);
    discriminate.
Qed.

Lemma analyze_ignores_gaps_witness :
  exists a, analyze gapSeries = Returns a
            /\ length (an_fairValueGaps a) = 1%nat
            /\ Forall (fun k => kl_type k <> fair_value_gap) (an_keyLevels a).
Proof.
  eexists. split; [vm_compute; reflexivity|]. split; [reflexivity|].
  apply (analyze_ignores_gaps gapSeries). vm_compute. reflexivity.
Defined.

End FairValueGaps.

(* ===================================================================== *)
(** ** The catalogue of patterns *)
(* ===================================================================== *)

Section PatternCatalogue.

Import PatternAnalyzer Vocabulary.
Local Open Scope num_scope.

Lemma at_last_nth_error {A} (a : list A) (x : A) :
  at_last a = Returns x <-> (a <> [] /\ nth_error a (length a - 1) = Some x).
Proof.
  unfold at_last. destruct a as [|y t].
  - split; [discriminate|]. intros (H & _). congruence.
  - rewrite at_index_nth_error. split; [intro H; split; [discriminate|exact H]|tauto].
Qed.

(** The last of the last [n] candles is the last candle. *)
Lemma at_last_slice_last {A} (n : nat) (a : list A) (x : A) :
  at_last (slice_last n a) = Returns x -> at_last a = Returns x.
Proof.
  intro H. apply at_last_nth_error in H. destruct H as (Hne & H).
  unfold slice_last in *. rewrite nth_error_skipn in H. rewrite length_skipn in H.
  assert (L : (length a - (length a - n) <> 0)%nat).
  { intro Z. apply Hne. apply length_zero_iff_nil. rewrite length_skipn. exact Z. }
  apply at_last_nth_error. split.
  - intro Z. subst a. simpl in L. lia.
  - replace (length a - 1)%nat with (length a - n + (length a - (length a - n) - 1))%nat
      by lia. exact H.
Qed.

Lemma at_index_last {A} (a : list A) (x : A) :
  (1 <= length a)%nat -> at_index a (length a - 1) = Returns x -> at_last a = Returns x.
Proof.
  intros L H. apply at_last_nth_error. split.
  - intro Z. subst a. simpl in L. lia.
  - apply at_index_nth_error. exact H.
Qed.

Variable data : CandleSeries.
Variable last : Candle.
Hypothesis Hlast : at_last data = Returns last.

Ltac unbind :=
  repeat match goal with
         | H : Returns _ = Returns _ |- _ => apply Returns_inj in H; subst
         | H : Throws = Returns _ |- _ => discriminate H
         | H : bind _ _ = Returns _ |- _ =>
             apply bind_Returns in H; destruct H as (? & ? & H); cbv beta in H
         | H : (if ?c then _ else _) = Returns _ |- _ => destruct c eqn:?
         | H : at_last data = Returns ?x |- _ =>
             lazymatch x with
             | last => fail
             | _ => rewrite Hlast in H; apply Returns_inj in H; subst x
             end
         end.

Ltac listed :=
  repeat (apply Forall_app; split);
  repeat match goal with
         | |- Forall _ (if ?c then _ else _) => destruct c
         end;
  repeat (apply Forall_cons || apply Forall_nil);
  try (cbv [catalogued fixedConfirmation name direction confidence entry
            breakoutConfirmed determineBreakoutDirection];
       repeat match goal with
              | |- context [if ?c then _ else _] => destruct c
              end;
       (split; [reflexivity|split; [cbn [In knownShapes]|first [exact I|reflexivity]]]);
       repeat first [left; reflexivity|right]).

Lemma triangles_catalogued (ps : list Pattern) :
  detectTrianglePatterns data = Returns ps -> Forall (catalogued (c_close last)) ps.
Proof.
  unfold detectTrianglePatterns, calculateTriangleTarget. cbv zeta. intro H.
  unbind; listed.
Qed.

Lemma headAndShoulders_catalogued (ps : list Pattern) :
  detectHeadAndShoulders data = Returns ps -> Forall (catalogued (c_close last)) ps.
Proof.
  unfold detectHeadAndShoulders, calculateHSTarget. cbv zeta. intro H.
  unbind; listed.
Qed.

Lemma doubles_catalogued (ps : list Pattern) :
  detectDoubleTopBottom data = Returns ps -> Forall (catalogued (c_close last)) ps.
Proof.
  unfold detectDoubleTopBottom, checkSupportBreak, checkResistanceBreak,
    calculateDoubleTopTarget, calculateDoubleBottomTarget. cbv zeta. intro H.
  unbind; listed.
Qed.

Lemma flags_catalogued (ps : list Pattern) :
  detectFlagPatterns data = Returns ps -> Forall (catalogued (c_close last)) ps.
Proof.
  unfold detectFlagPatterns, calculateFlagTarget. cbv zeta. intro H.
  unbind; listed.
Qed.

Lemma harmonics_catalogued (ps : list Pattern) :
  detectHarmonicPatterns data = Returns ps -> Forall (catalogued (c_close last)) ps.
Proof.
  unfold detectHarmonicPatterns, getHarmonicDirection. cbv zeta. intro H.
  unbind; listed.
Qed.

Lemma candlesticks_catalogued (ps : list Pattern) :
  detectCandlestickPatterns data = Returns ps -> Forall (catalogued (c_close last)) ps.
Proof.
  unfold detectCandlestickPatterns. cbv zeta. intro H.
  apply bind_Returns in H. destruct H as (p1 & H1 & H).
  apply bind_Returns in H. destruct H as (lastCandle & Hl & H).
  apply at_last_slice_last in Hl. rewrite Hlast in Hl.
  apply Returns_inj in Hl. subst lastCandle.
  apply Returns_inj in H. subst ps.
  apply Forall_app. split; [|listed].
  destruct (2 <=? length (slice_last 5 data))%nat eqn:E;
    [|apply Returns_inj in H1; subst p1; constructor].
  apply Nat.leb_le in E.
  apply bind_Returns in H1. destruct H1 as (prev & _ & H1).
  apply bind_Returns in H1. destruct H1 as (curr & Hc & H1).
  apply at_index_last in Hc; [|lia]. apply at_last_slice_last in Hc.
  rewrite Hlast in Hc. apply Returns_inj in Hc. subst curr.
  apply Returns_inj in H1. subst p1. listed.
Qed.

End PatternCatalogue.

Section PatternsDetected.

Import PatternAnalyzer Vocabulary.

Lemma catalogued_confidence (close : num) (p : Pattern) :
  catalogued close p -> (60 <=? confidence p)%nat = true.
Proof.
  intros (_ & H & _). cbn [In knownShapes] in H.
  repeat (destruct H as [H|H]; [injection H as _ _ <-; reflexivity|]).
  contradiction.
Qed.

(** A pattern that passes the filter of [analyzeSymbol] is long or short. *)
Lemma catalogued_valid (close : num) (p : Pattern) :
  catalogued close p -> App.isValidPattern p = true ->
  (direction p = long \/ direction p = short)
  /\ (70 <= confidence p <= 80)%nat.
Proof.
  intros (_ & H & _) V. unfold App.isValidPattern in V.
  apply andb_true_iff in V. destruct V as (V & _).
  cbn [In knownShapes] in H.
  repeat (destruct H as [H|H];
          [injection H as _ D C; rewrite <- C in *; rewrite <- D;
           first [discriminate V|split; [auto|lia]]|]).
  contradiction.
Qed.

Lemma filter_Forall_all {A : Type} (p : A -> bool) (l : list A) :
  Forall (fun x => p x = true) l -> filter p l = l.
Proof.
  induction 1 as [|x t Hx _ IH]; simpl; [reflexivity|]. rewrite Hx, IH. reflexivity.
Qed.

Lemma detectPatterns_parts (data : CandleSeries) (ps : list Pattern) :
  detectPatterns data = Returns ps ->
  exists last,
    at_last data = Returns last
    /\ Forall (catalogued (c_close last)) ps
    /\ exists t h d f c m,
         detectTrianglePatterns data = Returns t
         /\ detectHeadAndShoulders data = Returns h
         /\ detectDoubleTopBottom data = Returns d
         /\ detectFlagPatterns data = Returns f
         /\ detectCandlestickPatterns data = Returns c
         /\ detectHarmonicPatterns data = Returns m
         /\ ps = t ++ h ++ d ++ f ++ c ++ m.
Proof.
  unfold detectPatterns. intro H.
  apply bind_Returns in H. destruct H as (t & Ht & H).
  apply bind_Returns in H. destruct H as (h & Hh & H).
  apply bind_Returns in H. destruct H as (d & Hd & H).
  apply bind_Returns in H. destruct H as (f & Hf & H).
  apply bind_Returns in H. destruct H as (c & Hc & H).
  apply bind_Returns in H. destruct H as (m & Hm & H).
  apply Returns_inj in H.
  assert (exists last, at_last data = Returns last) as (last & Hlast).
  { unfold detectCandlestickPatterns in Hc. cbv zeta in Hc.
    apply bind_Returns in Hc. destruct Hc as (p1 & _ & Hc).
    apply bind_Returns in Hc. destruct Hc as (lc & Hl & _).
    exists lc. apply (at_last_slice_last 5 data). exact Hl. }
  exists last. split; [exact Hlast|].
  assert (All : Forall (catalogued (c_close last)) (t ++ h ++ d ++ f ++ c ++ m)).
  { repeat (apply Forall_app; split).
    - apply (triangles_catalogued data last Hlast); assumption.
    - apply (headAndShoulders_catalogued data last Hlast); assumption.
    - apply (doubles_catalogued data last Hlast); assumption.
    - apply (flags_catalogued data last Hlast); assumption.
    - apply (candlesticks_catalogued data last Hlast); assumption.
    - apply (harmonics_catalogued data last Hlast); assumption. }
  rewrite filter_Forall_all in H.
  - subst ps. split; [exact All|]. exists t, h, d, f, c, m. repeat split; assumption.
  - rewrite Forall_forall in *. intros p Hp.
    apply (catalogued_confidence (c_close last)). apply All. exact Hp.
Qed.

(** X13. Whatever [detectPatterns] returns is made of patterns of a fixed
    catalogue: each has one of fourteen names, with the direction and the
    confidence (60 to 80) that go with the name, and its entry is the close of
    the last candle.  An engulfing pattern is always marked as confirmed and a
    doji never.  The final filter on a confidence of 60 removes nothing: the
    result is the patterns of the six detectors, in their order. *)
Theorem detectPatterns_catalogue (data : CandleSeries) (ps : list Pattern) :
  detectPatterns data = Returns ps ->
  exists last,
    at_last data = Returns last
    /\ Forall (catalogued (c_close last)) ps
    /\ exists t h d f c m,
         detectTrianglePatterns data = Returns t
         /\ detectHeadAndShoulders data = Returns h
         /\ detectDoubleTopBottom data = Returns d
         /\ detectFlagPatterns data = Returns f
         /\ detectCandlestickPatterns data = Returns c
         /\ detectHarmonicPatterns data = Returns m
         /\ ps = t ++ h ++ d ++ f ++ c ++ m.
Proof. apply detectPatterns_parts. Qed.

Lemma detectPatterns_catalogue_witness :
  exists ps,
    detectPatterns engulfingSeries = Returns ps
    /\ map name ps = ["Bullish Engulfing"%string]
    /\ Forall (catalogued (Fin 101)) ps.
Proof.
  eexists. split; [vm_compute; reflexivity|]. split; [reflexivity|].
  match goal with
  | |- Forall _ ?ps =>
      destruct (detectPatterns_catalogue engulfingSeries ps) as (last & Hl & Hc & _)
  end.
  - vm_compute. reflexivity.
  - vm_compute in Hl. injection Hl as <-. exact Hc.
Defined.

End PatternsDetected.

(* ===================================================================== *)
(** ** The signals of [analyzeSymbol] *)
(* ===================================================================== *)

Section Signals.

Import App Vocabulary.
Local Open Scope num_scope.

Lemma analyze_confidence (data : CandleSeries) (a : SmartMoneyAnalyzer.Analysis) :
  SmartMoneyAnalyzer.analyze data = Returns a ->
  (SmartMoneyAnalyzer.an_confidence a <= 95)%nat.
Proof.
  unfold SmartMoneyAnalyzer.analyze. intro H.
  apply bind_Returns in H. destruct H as (ms & _ & H).
  apply bind_Returns in H. destruct H as (obs & _ & H).
  apply bind_Returns in H. destruct H as (fvgs & _ & H).
  apply bind_Returns in H. destruct H as (lzs & _ & H).
  cbv zeta in H. apply Returns_inj in H. subst a.
  cbn [SmartMoneyAnalyzer.an_confidence].
  unfold SmartMoneyAnalyzer.calculateConfidence. cbv zeta. apply Nat.le_min_r.
Qed.

Lemma weighted_band (qp qs e : Q) :
  (inject_Z 70 <= qp)%Q -> (qp <= inject_Z 80)%Q ->
  (inject_Z 0 <= qs)%Q -> (qs <= inject_Z 95)%Q ->
  (70 <= e)%Q -> (e <= 95)%Q ->
  (49 <= qp * (4 # 10) + e * (3 # 10) + qs * (3 # 10))%Q
  /\ (qp * (4 # 10) + e * (3 # 10) + qs * (3 # 10) <= 89)%Q.
Proof.
  intros P1 P2 S1 S2 Lo Hi.
  change (inject_Z 70) with 70%Q in P1. change (inject_Z 80) with 80%Q in P2.
  change (inject_Z 0) with 0%Q in S1. change (inject_Z 95) with 95%Q in S2.
  split; lra.
Qed.

(** The weighted confidence of a signal is from 49 to 89; the cap at 95 is
    never reached. *)
Lemma combinedConfidence_band (p s : nat) (e : Q) :
  (70 <= p <= 80)%nat -> (s <= 95)%nat -> (70 <= e)%Q -> (e <= 95)%Q ->
  inBand (Fin 49) (Fin 89)
         (Num.min (Fin 95)
                  (Num.round (Num.of_nat p * dec 4 10 + Fin e * dec 3 10
                              + Num.of_nat s * dec 3 10))).
Proof.
  intros Hp Hs Lo Hi. unfold Num.of_nat, dec, Num.mul, Num.add, Num.round.
  set (x := (inject_Z (Z.of_nat p) * (4 # 10) + e * (3 # 10)
             + inject_Z (Z.of_nat s) * (3 # 10))%Q).
  assert (Px : (inject_Z 70 <= inject_Z (Z.of_nat p))%Q) by (rewrite <- Zle_Qle; lia).
  assert (Px' : (inject_Z (Z.of_nat p) <= inject_Z 80)%Q) by (rewrite <- Zle_Qle; lia).
  assert (Sx : (inject_Z 0 <= inject_Z (Z.of_nat s))%Q) by (rewrite <- Zle_Qle; lia).
  assert (Sx' : (inject_Z (Z.of_nat s) <= inject_Z 95)%Q) by (rewrite <- Zle_Qle; lia).
  assert (Bx : (49 <= x)%Q /\ (x <= 89)%Q) by (apply weighted_band; assumption).
  destruct Bx as (B1 & B2).
  assert (F1 : (49 <= Qfloor (x + (1 # 2)))%Z).
  { change 49%Z with (Qfloor (49 + (1 # 2))). apply Qfloor_resp_le. lra. }
  assert (F2 : (Qfloor (x + (1 # 2)) <= 89)%Z).
  { change 89%Z with (Qfloor (89 + (1 # 2))). apply Qfloor_resp_le. lra. }
  assert (Q1 : (49 <= inject_Z (Qfloor (x + (1 # 2))))%Q)
    by (change 49%Q with (inject_Z 49); rewrite <- Zle_Qle; exact F1).
  assert (Q2 : (inject_Z (Qfloor (x + (1 # 2))) <= 89)%Q)
    by (change 89%Q with (inject_Z 89); rewrite <- Zle_Qle; exact F2).
  unfold Num.min, Num.ltb.
  destruct (Qle_bool 95 (inject_Z (Qfloor (x + (1 # 2))))) eqn:E; cbn [negb].
  - apply Qle_bool_iff in E. lra.
  - unfold inBand, le. rewrite !leb_Fin. split; assumption.
Qed.

(** X14. Every signal of [analyzeSymbol] has these properties.  Its direction
    is long or short, the direction of the first pattern that passed the
    filter, and it goes with the trend of BTC unless that is neutral.  The
    wave analysis is valid, with a confidence from 70 to 95, and the overall
    confidence is from 49 to 89.  The trading levels carry no information:
    entry, stop loss and the three take profits are all the last close
    rounded to six decimals, and the risk to reward ratio is NaN. *)
Theorem analyzeSymbol_signal (data : CandleSeries) (btcTrend : Trend)
        (a : SignalAnalysis) :
  analyzeSymbol data btcTrend = Returns (Some a) ->
  exists last primary others,
    at_last data = Returns last
    /\ sa_patterns a = primary :: others
    /\ Forall (fun p => isValidPattern p = true /\ catalogued (c_close last) p)
              (sa_patterns a)
    /\ sa_signal a = PatternAnalyzer.direction primary
    /\ alignedWith btcTrend (sa_signal a)
    /\ ElliottWaveAnalyzer.wr_isValid (sa_elliottWave a) = true
    /\ inBand (Fin 70) (Fin 95) (ElliottWaveAnalyzer.wr_confidence (sa_elliottWave a))
    /\ inBand (Fin 49) (Fin 89) (sa_confidence a)
    /\ flatLevels (c_close last) (sa_levels a).
Proof.
  unfold analyzeSymbol. intro H.
  apply bind_Returns in H. destruct H as (ps & Hps & H). cbv zeta in H.
  destruct (detectPatterns_parts data ps Hps) as (last & Hlast & Hcat & _).
  exists last.
  destruct (filter isValidPattern ps) as [|primary others] eqn:Ev; [discriminate H|].
  assert (Hvalid : Forall (fun p => isValidPattern p = true /\ catalogued (c_close last) p)
                          (primary :: others)).
  { rewrite <- Ev. apply Forall_forall. intros p Hp. apply filter_In in Hp.
    destruct Hp as (Hp & V). split; [exact V|].
    rewrite Forall_forall in Hcat. apply Hcat. exact Hp. }
  assert (Hprim : isValidPattern primary = true /\ catalogued (c_close last) primary).
  { inversion Hvalid; assumption. }
  destruct Hprim as (Vp & Cp).
  destruct (catalogued_valid _ _ Cp Vp) as (Dir & Conf).
  apply bind_Returns in H. destruct H as (ew & Hew & H).
  destruct (ElliottWaveAnalyzer.wr_isValid ew) eqn:Vw; [|discriminate H].
  cbn [negb] in H.
  apply bind_Returns in H. destruct H as (sr & _ & H).
  apply bind_Returns in H. destruct H as (smc & Hsmc & H).
  assert (Hwave : exists e, ElliottWaveAnalyzer.wr_confidence ew = Fin e
                            /\ (70 <= e)%Q /\ (e <= 95)%Q).
  { destruct (analyzeWave_shape data) as (r & Hr & Shape). rewrite Hew in Hr.
    apply Returns_inj in Hr. subst r.
    destruct (ElliottWaveAnalyzer.wr_waveStructure ew) as [s|].
    - destruct (ElliottWaveAnalyzer.st_type s).
      + destruct Shape as (_ & (Lo & Hi) & _). unfold le in Lo, Hi.
        destruct (ElliottWaveAnalyzer.wr_confidence ew) as [e| | |];
          try discriminate Lo; try discriminate Hi.
        exists e. split; [reflexivity|]. split; apply leb_Fin; assumption.
      + destruct Shape as (F & _). congruence.
    - destruct Shape as (F & _). congruence. }
  destruct Hwave as (e & He & Lo & Hi).
  pose proof (analyze_confidence _ _ Hsmc) as Hs.
  assert (Go : forall k : outcome (option SignalAnalysis),
             k = Returns (Some a) ->
             (last0 <- at_last data ;;
              levels <- calculateTradingLevels (c_close last0)
                          (PatternAnalyzer.direction primary) sr smc ;;
              Returns (Some {| sa_signal := PatternAnalyzer.direction primary;
                               sa_confidence := combinedConfidence primary ew smc;
                               sa_patterns := primary :: others;
                               sa_elliottWave := ew;
                               sa_supportResistance := sr;
                               sa_smartMoney := smc;
                               sa_levels := levels |})) = k ->
             alignedWith btcTrend (PatternAnalyzer.direction primary) ->
             exists primary0 others0,
               at_last data = Returns last
               /\ sa_patterns a = primary0 :: others0
               /\ Forall (fun p => isValidPattern p = true /\ catalogued (c_close last) p)
                         (sa_patterns a)
               /\ sa_signal a = PatternAnalyzer.direction primary0
               /\ alignedWith btcTrend (sa_signal a)
               /\ ElliottWaveAnalyzer.wr_isValid (sa_elliottWave a) = true
               /\ inBand (Fin 70) (Fin 95)
                         (ElliottWaveAnalyzer.wr_confidence (sa_elliottWave a))
               /\ inBand (Fin 49) (Fin 89) (sa_confidence a)
               /\ flatLevels (c_close last) (sa_levels a)).
  { intros k Hk Hdef Hal. rewrite <- Hdef in Hk. rewrite Hlast in Hk. cbn [bind] in Hk.
    destruct (calculateTradingLevels_flat (c_close last)
                (PatternAnalyzer.direction primary) sr smc) as (lv & Hlv & Flat).
    rewrite Hlv in Hk. cbn [bind] in Hk. apply Returns_inj in Hk.
    injection Hk as <-.
    cbn [sa_signal sa_confidence sa_patterns sa_elliottWave sa_levels].
    exists primary, others.
    split; [exact Hlast|]. split; [reflexivity|]. split; [exact Hvalid|].
    split; [reflexivity|]. split; [exact Hal|]. split; [exact Vw|].
    split; [rewrite He; unfold inBand, le; rewrite !leb_Fin; split; assumption|].
    split; [|exact Flat].
    unfold combinedConfidence. rewrite He.
    apply combinedConfidence_band; assumption. }
  destruct btcTrend, (PatternAnalyzer.direction primary) eqn:D;
    try discriminate H;
    try (destruct Dir as [Dir|Dir]; discriminate Dir);
    (eapply Go; [exact H|reflexivity|cbn; auto]).
Qed.

Lemma analyzeSymbol_signal_witness :
  exists a,
    analyzeSymbol signalSeries neutral = Returns (Some a)
    /\ sa_signal a = PatternAnalyzer.long
    /\ sa_confidence a = Fin 71
    /\ flatLevels (Fin 152) (sa_levels a).
Proof.
  eexists. split; [vm_compute; reflexivity|].
  split; [reflexivity|]. split; [reflexivity|].
  match goal with
  | |- flatLevels _ (sa_levels ?a) =>
      destruct (analyzeSymbol_signal signalSeries neutral a)
        as (last & primary & others & Hl & _ & _ & _ & _ & _ & _ & _ & Flat)
  end.
  - vm_compute. reflexivity.
  - vm_compute in Hl. injection Hl as <-. exact Flat.
Defined.

End Signals.

(* ===================================================================== *)
(** ** Breaks of structure and changes of character *)
(* ===================================================================== *)

Section MarketStructure.

Import SmartMoneyAnalyzer Vocabulary.
Local Open Scope num_scope.

Lemma ltb_trans (x y z : num) :
  (x <? y) = true -> (y <? z) = true -> (x <? z) = true.
Proof.
  destruct x as [a| | |], y as [b| | |], z as [c| | |]; simpl;
    try reflexivity; try discriminate.
  intros H1 H2. apply ltb_Fin in H1. apply ltb_Fin in H2. apply ltb_Fin.
  eapply Qlt_trans; eauto.
Qed.

Lemma last_opt_nth_error {A} (l : list A) :
  l <> [] -> last_opt l = nth_error l (length l - 1).
Proof.
  intro Hne. destruct (exists_last Hne) as (l' & a & ->).
  rewrite length_app. cbn [length].
  replace (length l' + 1 - 1)%nat with (length l') by lia.
  rewrite nth_error_app2 by lia. rewrite Nat.sub_diag. cbn [nth_error].
  destruct l' as [|x t]; [reflexivity|].
  cbn [app last_opt]. rewrite last_last. reflexivity.
Qed.

(** The second of the last two is the last. *)
Lemma last_two_second {A} (l : list A) (x : A) :
  (2 <= length l)%nat -> at_index (slice_last 2 l) 1 = Returns x -> last_opt l = Some x.
Proof.
  intros L H. apply at_index_nth_error in H. unfold slice_last in H.
  rewrite nth_error_skipn in H. rewrite last_opt_nth_error.
  - replace (length l - 1)%nat with (length l - 2 + 1)%nat by lia. exact H.
  - intro Z. subst l. simpl in L. lia.
Qed.

Lemma choch_with_bos (data : CandleSeries) (swingHighs swingLows : list Swing)
      (b : option Break) (c : Break) :
  detectBreakOfStructure data swingHighs swingLows = Returns b ->
  detectChangeOfCharacter data swingHighs swingLows = Returns (Some c) ->
  exists b', b = Some b'
             /\ (br_type c = bullish ->
                 br_type b' = bullish /\ lt (br_level b') (br_level c)).
Proof.
  unfold detectBreakOfStructure, detectChangeOfCharacter. intros Hb Hc.
  destruct ((length swingHighs <? 2)%nat || (length swingLows <? 2)%nat) eqn:G;
    [discriminate Hc|].
  apply orb_false_iff in G. destruct G as (G1 & G2).
  apply Nat.ltb_ge in G1, G2.
  apply bind_Returns in Hb. destruct Hb as (last & Hl & Hb). rewrite Hl in Hc.
  cbn [bind] in Hc. cbv zeta in Hb.
  apply bind_Returns in Hc. destruct Hc as (h0 & _ & Hc).
  apply bind_Returns in Hc. destruct Hc as (h1 & Hh1 & Hc).
  apply (last_two_second _ _ G1) in Hh1. rewrite Hh1 in Hb.
  destruct ((sw_price h1 <? sw_price h0) && (c_close last >? sw_price h0)) eqn:E.
  - apply andb_true_iff in E. destruct E as (E1 & E2). unfold Num.gtb in E2.
    apply Returns_inj in Hc. injection Hc as <-.
    pose proof (ltb_trans _ _ _ E1 E2) as T. unfold Num.gtb in Hb. rewrite T in Hb.
    apply Returns_inj in Hb. subst b. eexists. split; [reflexivity|].
    intros _. split; [reflexivity|exact E1].
  - apply bind_Returns in Hc. destruct Hc as (l0 & _ & Hc).
    apply bind_Returns in Hc. destruct Hc as (l1 & Hl1 & Hc).
    apply (last_two_second _ _ G2) in Hl1. rewrite Hl1 in Hb.
    destruct ((sw_price l1 >? sw_price l0) && (c_close last <? sw_price l0)) eqn:E';
      [|discriminate Hc].
    apply andb_true_iff in E'. destruct E' as (E1 & E2). unfold Num.gtb in E1.
    apply Returns_inj in Hc. injection Hc as <-.
    pose proof (ltb_trans _ _ _ E2 E1) as T. rewrite T in Hb.
    destruct (c_close last >? sw_price h1); apply Returns_inj in Hb; subst b;
      (eexists; split; [reflexivity|]); cbn; discriminate.
Qed.

(** X15. In the market structure of [analyzeMarketStructure] a change of
    character never comes alone: whenever one is reported, a break of
    structure is reported too.  A bullish change of character comes with a
    bullish break of structure at a lower level, the last swing high. *)
Theorem change_of_character_with_break (data : CandleSeries) (ms : MarketStructure)
        (c : Break) :
  analyzeMarketStructure data = Returns ms ->
  changeOfCharacter ms = Some c ->
  exists b, breakOfStructure ms = Some b
            /\ (br_type c = bullish ->
                br_type b = bullish /\ lt (br_level b) (br_level c)).
Proof.
  unfold analyzeMarketStructure. intros H Hc.
  apply bind_Returns in H. destruct H as (highs & _ & H).
  apply bind_Returns in H. destruct H as (lows & _ & H).
  destruct (countRises highs) as (hh & lh). destruct (countRises lows) as (hl & ll).
  cbv zeta in H.
  apply bind_Returns in H. destruct H as (bos & Hbos & H).
  apply bind_Returns in H. destruct H as (choch & Hchoch & H).
  apply Returns_inj in H. subst ms.
  cbn [changeOfCharacter breakOfStructure] in *. subst choch.
  exact (choch_with_bos data highs lows bos c Hbos Hchoch).
Qed.

Lemma change_of_character_with_break_witness :
  exists ms c,
    analyzeMarketStructure chochSeries = Returns ms
    /\ changeOfCharacter ms = Some c
    /\ br_level c = Fin 151
    /\ exists b, breakOfStructure ms = Some b
                 /\ (br_type c = bullish ->
                     br_type b = bullish /\ lt (br_level b) (br_level c)).
Proof.
  eexists. eexists. split; [vm_compute; reflexivity|].
  split; [reflexivity|]. split; [reflexivity|].
  apply (change_of_character_with_break chochSeries);
    [vm_compute; reflexivity|reflexivity].
Defined.

End MarketStructure.

(* ===================================================================== *)
(** ** Opposite patterns *)
(* ===================================================================== *)

Section OppositePatterns.

Import PatternAnalyzer Vocabulary.
Local Open Scope num_scope.

Lemma engulfing_exclusive (prev curr : Candle) :
  isBullishEngulfing prev curr = true -> isBearishEngulfing prev curr = true -> False.
Proof.
  unfold isBullishEngulfing, isBearishEngulfing, Num.gtb. intros B S.
  repeat (apply andb_true_iff in B; destruct B as (B & ?)).
  repeat (apply andb_true_iff in S; destruct S as (S & ?)).
  pose proof (ltb_trans _ _ _ B S) as Z. rewrite ltb_irrefl in Z. discriminate Z.
Qed.

Lemma flags_exclusive (recent : CandleSeries) :
  isBullFlag recent = Returns true -> isBearFlag recent = Returns true -> False.
Proof.
  unfold isBullFlag, isBearFlag. destruct (length recent <? 10)%nat; [discriminate|].
  destruct (flagTrends recent) as [t| |]; cbn [bind]; try discriminate.
  intros B S. apply Returns_inj in B. apply Returns_inj in S.
  apply andb_true_iff in B. destruct B as (B & _).
  apply andb_true_iff in S. destruct S as (S & _). unfold Num.gtb in B.
  pose proof (ltb_trans _ _ _ B S) as Z. vm_compute in Z. discriminate Z.
Qed.

Lemma harmonics_exclusive (swings : list Peak) :
  isGartleyPattern swings = true -> isButterflyPattern swings = true -> False.
Proof.
  unfold isGartleyPattern, isButterflyPattern.
  destruct swings as [|X [|A [|B [|C [|D rest]]]]]; try discriminate.
  cbv zeta. unfold Num.geb. intros G F.
  repeat (apply andb_true_iff in G; destruct G as (G & ?)).
  repeat (apply andb_true_iff in F; destruct F as (F & ?)).
  match goal with
  | H1 : (?r <=? dec 68 100) = true, H2 : (dec 75 100 <=? ?r) = true |- _ =>
      pose proof (leb_trans _ _ _ H2 H1) as Z
  end.
  vm_compute in Z. discriminate Z.
Qed.

(** X16. The detectors never report two opposite patterns together: no result
    of [detectFlagPatterns] holds both a bull and a bear flag, no result of
    [detectHarmonicPatterns] both a Gartley and a Butterfly, and no result of
    [detectCandlestickPatterns] both a bullish and a bearish engulfing. *)
Theorem opposite_patterns_exclusive (data : CandleSeries) :
  (forall ps, detectFlagPatterns data = Returns ps ->
              ~ (In "Bull Flag"%string (map name ps)
                 /\ In "Bear Flag"%string (map name ps)))
  /\ (forall ps, detectHarmonicPatterns data = Returns ps ->
                 ~ (In "Gartley"%string (map name ps)
                    /\ In "Butterfly"%string (map name ps)))
  /\ (forall ps, detectCandlestickPatterns data = Returns ps ->
                 ~ (In "Bullish Engulfing"%string (map name ps)
                    /\ In "Bearish Engulfing"%string (map name ps))).
Proof.
  split; [|split]; intros ps H (A & B).
  - unfold detectFlagPatterns in H. cbv zeta in H.
    apply bind_Returns in H. destruct H as (isBull & Hbull & H).
    apply bind_Returns in H. destruct H as (p1 & H1 & H).
    apply bind_Returns in H. destruct H as (isBear & Hbear & H).
    apply bind_Returns in H. destruct H as (p2 & H2 & H).
    apply Returns_inj in H. subst ps.
    destruct isBull, isBear;
      try (exact (flags_exclusive _ Hbull Hbear));
      repeat match goal with
             | H : bind _ _ = Returns _ |- _ =>
                 apply bind_Returns in H; destruct H as (? & ? & H)
             | H : Returns _ = Returns _ |- _ => apply Returns_inj in H; subst
             end;
      cbn in A, B; intuition discriminate.
  - unfold detectHarmonicPatterns in H. cbv zeta in H.
    destruct (5 <=? length (findSwingPoints data))%nat;
      [|apply Returns_inj in H; subst ps; destruct A].
    apply bind_Returns in H. destruct H as (p1 & H1 & H).
    apply bind_Returns in H. destruct H as (p2 & H2 & H).
    apply Returns_inj in H. subst ps.
    destruct (isGartleyPattern (slice_last 5 (findSwingPoints data))) eqn:G,
             (isButterflyPattern (slice_last 5 (findSwingPoints data))) eqn:F;
      try (exact (harmonics_exclusive _ G F));
      repeat match goal with
             | H : bind _ _ = Returns _ |- _ =>
                 apply bind_Returns in H; destruct H as (? & ? & H)
             | H : Returns _ = Returns _ |- _ => apply Returns_inj in H; subst
             end;
      cbn in A, B; intuition discriminate.
  - unfold detectCandlestickPatterns in H. cbv zeta in H.
    apply bind_Returns in H. destruct H as (p1 & H1 & H).
    apply bind_Returns in H. destruct H as (lc & _ & H).
    apply Returns_inj in H. subst ps.
    destruct (2 <=? length (slice_last 5 data))%nat.
    + apply bind_Returns in H1. destruct H1 as (prev & _ & H1).
      apply bind_Returns in H1. destruct H1 as (curr & _ & H1).
      apply Returns_inj in H1. subst p1.
      destruct (isBullishEngulfing prev curr) eqn:G,
               (isBearishEngulfing prev curr) eqn:F;
        try (exact (engulfing_exclusive _ _ G F));
        destruct (isDoji lc); cbn in A, B; intuition discriminate.
    + apply Returns_inj in H1. subst p1.
      destruct (isDoji lc); cbn in A, B; intuition discriminate.
Qed.

End OppositePatterns.

(* ===================================================================== *)
(** ** The swings of the wave analysis *)
(* ===================================================================== *)

Section WaveSwings.

Import ElliottWaveAnalyzer Vocabulary.
Local Open Scope num_scope.

Lemma subsequence_refl {A} (l : list A) : subsequence l l.
Proof. induction l; constructor; assumption. Qed.

Lemma subsequence_nil {A} (l : list A) : subsequence [] l.
Proof. induction l; constructor; assumption. Qed.

Lemma subsequence_app {A} (l1 m1 l2 m2 : list A) :
  subsequence l1 m1 -> subsequence l2 m2 -> subsequence (l1 ++ l2) (m1 ++ m2).
Proof.
  intros H1 H2. induction H1; simpl; [exact H2| |]; constructor; assumption.
Qed.

Lemma subsequence_trans {A} (l m n : list A) :
  subsequence l m -> subsequence m n -> subsequence l n.
Proof.
  intros H1 H2. revert l H1. induction H2; intros l0 H1.
  - exact H1.
  - constructor. apply IHsubsequence. exact H1.
  - inversion H1; subst.
    + apply sub_skip. apply IHsubsequence. assumption.
    + apply sub_keep. apply IHsubsequence. assumption.
Qed.

Lemma subsequence_removelast {A} (l : list A) : subsequence (removelast l) l.
Proof.
  induction l as [|x t IH]; [constructor|].
  destruct t as [|y t']; [repeat constructor|].
  change (removelast (x :: y :: t')) with (x :: removelast (y :: t')).
  apply sub_keep. exact IH.
Qed.

Lemma subsequence_snoc_skip {A} (l m : list A) (x : A) :
  subsequence l m -> subsequence l (m ++ [x]).
Proof.
  intro H. rewrite <- (app_nil_r l). apply subsequence_app; [exact H|].
  repeat constructor.
Qed.

Lemma subsequence_In {A} (l m : list A) (x : A) :
  subsequence l m -> In x l -> In x m.
Proof.
  induction 1; simpl; intro Hx; auto. destruct Hx; auto.
Qed.

Lemma subsequence_length {A} (l m : list A) :
  subsequence l m -> (length l <= length m)%nat.
Proof. induction 1; simpl; lia. Qed.

Lemma subsequence_sorted {A} (R : A -> A -> Prop) (l m : list A) :
  subsequence l m -> StronglySorted R m -> StronglySorted R l.
Proof.
  induction 1; intro Hs; [constructor| |].
  - inversion Hs; subst. auto.
  - inversion Hs; subst. constructor; [auto|].
    rewrite Forall_forall in *. intros y Hy. apply H3.
    eapply subsequence_In; eauto.
Qed.

Lemma filterStep_subsequence (filtered seen : list SwingPoint) (current : SwingPoint) :
  subsequence filtered seen ->
  subsequence (filterStep filtered current) (seen ++ [current]).
Proof.
  intro H. unfold filterStep.
  assert (K : subsequence (filtered ++ [current]) (seen ++ [current]))
    by (apply subsequence_app; [exact H|apply subsequence_refl]).
  assert (S : subsequence filtered (seen ++ [current]))
    by (apply subsequence_snoc_skip; exact H).
  assert (R : subsequence (removelast filtered ++ [current]) (seen ++ [current])).
  { apply subsequence_app; [|apply subsequence_refl].
    eapply subsequence_trans; [apply subsequence_removelast|exact H]. }
  destruct (last_opt filtered); [|exact K]. cbv zeta.
  repeat match goal with |- context [if ?b then _ else _] => destruct b end;
    assumption.
Qed.

Lemma filterStep_nonempty (filtered : list SwingPoint) (current : SwingPoint) :
  filterStep filtered current <> [].
Proof.
  unfold filterStep. destruct filtered as [|x t].
  - discriminate.
  - cbn [last_opt]. cbv zeta.
    repeat match goal with |- context [if ?b then _ else _] => destruct b end;
      try discriminate;
      intro Z; apply app_eq_nil in Z; destruct Z as (_ & Z); discriminate Z.
Qed.

Lemma filterSignificantSwings_subsequence (swings : list SwingPoint) :
  subsequence (filterSignificantSwings swings) swings
  /\ (filterSignificantSwings swings = [] <-> swings = []).
Proof.
  unfold filterSignificantSwings.
  assert (G : forall rest acc seen,
             subsequence acc seen ->
             subsequence (fold_left filterStep rest acc) (seen ++ rest)
             /\ (fold_left filterStep rest acc = [] -> acc = [] /\ rest = [])).
  { induction rest as [|x t IH]; intros acc seen H; simpl.
    - rewrite app_nil_r. auto.
    - destruct (IH (filterStep acc x) (seen ++ [x]) (filterStep_subsequence _ _ x H))
        as (S & E).
      rewrite <- app_assoc in S. split; [exact S|].
      intro Z. destruct (E Z) as (F & _). exfalso. exact (filterStep_nonempty _ _ F). }
  destruct (G swings [] [] sub_nil) as (S & E). split; [exact S|].
  split; [intro Z; apply E; exact Z|intros ->; reflexivity].
Qed.

Lemma sorted_app {A} (R : A -> A -> Prop) (l m : list A) :
  StronglySorted R l -> StronglySorted R m ->
  (forall a, In a l -> forall b, In b m -> R a b) ->
  StronglySorted R (l ++ m).
Proof.
  induction 1 as [|y t Ht IH Hy]; intros Hm F; simpl; [exact Hm|].
  constructor.
  - apply IH; [exact Hm|]. intros a Ha. apply F. right. exact Ha.
  - apply Forall_app. split; [exact Hy|]. apply Forall_forall.
    intros b Hb. apply (F y (or_introl eq_refl) b Hb).
Qed.

(** What one turn of the loop of [identifySwingPoints] adds at an index it
    visits. *)
Lemma swingStep_at (data : CandleSeries) (swings : list SwingPoint) (i : nat) :
  In i (seq 5 (length data - 5 - 5)) ->
  exists added,
    swingStep data swings i = Returns (swings ++ added)
    /\ Forall (fun s => sw_index s = i /\ swingAt data s) added.
Proof.
  intro Hi. destruct (window_centre data 5 i Hi) as (c & Hc & Hn).
  pose proof (window_wide data i Hi) as Hw.
  assert (Hs : nth_error (slice data (i - 5) (i + 5 + 1)) 5 = Some c)
    by (apply at_index_nth_error; exact Hc).
  unfold swingStep, lookback. rewrite Hc. cbn [bind]. cbv zeta.
  rewrite <- (window_max_test c_high _ 5 c Hs Hw).
  rewrite <- (window_min_test c_low _ 5 c Hs Hw).
  pose proof (window_test_iff data notHigher i c Hi Hn) as TH.
  pose proof (window_test_iff data notLower i c Hi Hn) as TL.
  unfold notHigher in TH at 1. unfold notLower in TL at 1.
  destruct (every_idx (fun candle idx => Nat.eqb idx 5 || (c_high candle <=? c_high c)) _);
    destruct (every_idx (fun candle idx => Nat.eqb idx 5 || (c_low candle >=? c_low c)) _).
  - exists [mkSwing i (c_high c) high (c_time c); mkSwing i (c_low c) low (c_time c)].
    split; [rewrite <- app_assoc; reflexivity|].
    repeat constructor; exists c; cbn; (split; [reflexivity|split; [|reflexivity]]);
      [apply TH|apply TL]; reflexivity.
  - exists [mkSwing i (c_high c) high (c_time c)]. split; [reflexivity|].
    repeat constructor; exists c; cbn; (split; [reflexivity|split; [|reflexivity]]).
    apply TH. reflexivity.
  - exists [mkSwing i (c_low c) low (c_time c)]. split; [reflexivity|].
    repeat constructor; exists c; cbn; (split; [reflexivity|split; [|reflexivity]]).
    apply TL. reflexivity.
  - exists []. split; [rewrite app_nil_r; reflexivity|constructor].
Qed.

Lemma rawSwingPoints_from (data : CandleSeries) (n start : nat) (acc raw : list SwingPoint) :
  (forall i, In i (seq start n) -> In i (seq 5 (length data - 5 - 5))) ->
  StronglySorted indexLe acc ->
  Forall (fun s => (sw_index s < start)%nat /\ swingAt data s) acc ->
  foldM (swingStep data) (seq start n) acc = Returns raw ->
  StronglySorted indexLe raw /\ Forall (swingAt data) raw.
Proof.
  revert start acc. induction n as [|n IH]; intros start acc Hr Hs Ha H.
  - apply Returns_inj in H. subst raw. split; [exact Hs|].
    rewrite Forall_forall in *. intros s Hin. apply Ha. exact Hin.
  - cbn [seq foldM] in H.
    destruct (swingStep_at data acc start) as (added & Hstep & Hadd);
      [apply Hr; left; reflexivity|].
    rewrite Hstep in H. cbn [bind] in H.
    apply (IH (S start) (acc ++ added)); [| | |exact H].
    + intros i Hi. apply Hr. right. exact Hi.
    + apply sorted_app; [exact Hs| |].
      * clear Hstep H. induction Hadd as [|x t (Hx & _) Ht IHt]; constructor; [exact IHt|].
        rewrite Forall_forall in *. intros y Hy. unfold indexLe.
        destruct (Ht y Hy) as (Ey & _). lia.
      * rewrite Forall_forall in *. intros a Hin b Hb. unfold indexLe.
        destruct (Ha a Hin) as (L & _). destruct (Hadd b Hb) as (E & _). lia.
    + apply Forall_app. split.
      * rewrite Forall_forall in *. intros y Hy. destruct (Ha y Hy). split; [lia|assumption].
      * rewrite Forall_forall in *. intros y Hy. destruct (Hadd y Hy) as (E & S).
        split; [lia|exact S].
Qed.

(** X17. [identifySwingPoints] returns on every series.  Its swings are what
    is left of the window extremes after the filter drops some of them: the
    filter adds and reorders nothing.  Each swing is a high (low) at a candle
    whose high (low) no candle within five on either side exceeds
    (undercuts), with the price and time of that candle; the indices never
    decrease; and there is no swing only when there is no window extreme. *)
Theorem identifySwingPoints_swings (data : CandleSeries) :
  exists raw swings,
    rawSwingPoints data = Returns raw
    /\ identifySwingPoints data = Returns swings
    /\ subsequence swings raw
    /\ Forall (swingAt data) swings
    /\ StronglySorted indexLe swings
    /\ (swings = [] <-> raw = []).
Proof.
  destruct (identifySwingPoints_returns data) as (swings & Hs).
  unfold identifySwingPoints in *.
  destruct (rawSwingPoints data) as [raw| |] eqn:Hraw; try discriminate Hs.
  cbn [bind] in Hs. apply Returns_inj in Hs. subst swings.
  exists raw, (filterSignificantSwings raw).
  destruct (filterSignificantSwings_subsequence raw) as (Sub & Empty).
  unfold rawSwingPoints, lookback in Hraw.
  destruct (rawSwingPoints_from data _ 5 [] raw (fun i H => H)
              (SSorted_nil _) (Forall_nil _) Hraw) as (Sorted & At).
  split; [reflexivity|]. split; [reflexivity|]. split; [exact Sub|]. split.
  - rewrite Forall_forall in *. intros s Hin. apply At.
    exact (subsequence_In _ _ s Sub Hin).
  - split; [exact (subsequence_sorted _ _ _ Sub Sorted)|exact Empty].
Qed.

End WaveSwings.

(* ===================================================================== *)
(** ** The strength of the order blocks *)
(* ===================================================================== *)

Section OrderBlockStrength.

Import SmartMoneyAnalyzer Vocabulary.
Local Open Scope num_scope.

Lemma sum_volumes (data : CandleSeries) :
  Forall finiteCandle data ->
  exists s, Num.sum (map c_volume data) = Fin s /\ (0 <= s)%Q.
Proof.
  unfold Num.sum. intro H.
  assert (G : forall a, (0 <= a)%Q ->
              exists s, fold_left Num.add (map c_volume data) (Fin a) = Fin s /\ (0 <= s)%Q).
  { induction H as [|c t Hc _ IH]; intros a Ha; simpl; [eauto|].
    destruct Hc as (tm & o & h & l & cl & v & -> & Hv). cbn [c_volume Num.add].
    apply IH. lra. }
  apply G. lra.
Qed.

Lemma average_volume (data : CandleSeries) :
  Forall finiteCandle data -> data <> [] ->
  exists a, Num.sum (map c_volume data) / Num.of_nat (length data) = Fin a /\ (0 <= a)%Q.
Proof.
  intros H Hne. destruct (sum_volumes data H) as (s & -> & Hs).
  unfold Num.of_nat, Num.div.
  assert (Hn : (0 < inject_Z (Z.of_nat (length data)))%Q).
  { change 0%Q with (inject_Z 0). rewrite <- Zlt_Qlt.
    destruct data; [congruence|]. simpl length. lia. }
  destruct (Qeq_bool (inject_Z (Z.of_nat (length data))) 0) eqn:E.
  - apply Qeq_bool_iff in E. rewrite E in Hn. lra.
  - eexists. split; [reflexivity|]. apply Qle_shift_div_l; [exact Hn|]. lra.
Qed.

Lemma sgn_pos (q : Q) : (0 < q)%Q -> Num.inf_of_sign (Num.sgn (Fin q)) = PInf.
Proof.
  intro H. unfold Num.sgn. unfold Qlt in H. simpl in H. rewrite Z.mul_1_r in H.
  destruct (Qnum q); try lia. reflexivity.
Qed.

(** A sum of a part above 36 (or infinite) and a part above 12 (or infinite)
    rounds to more than 30. *)
Lemma strong_sum (x y : num) :
  (x = PInf \/ exists a, x = Fin a /\ (36 < a)%Q) ->
  (y = PInf \/ exists b, y = Fin b /\ (12 < b)%Q) ->
  (Fin 30 <? Num.round (x + y)) = true.
Proof.
  intros [->|(a & -> & Ha)] [->|(b & -> & Hb)]; try reflexivity.
  unfold Num.add, Num.round. apply ltb_Fin.
  assert (F : (48 <= Qfloor (a + b + (1 # 2)))%Z).
  { change 48%Z with (Qfloor 48). apply Qfloor_resp_le. lra. }
  assert (Q48 : (48 <= inject_Z (Qfloor (a + b + (1 # 2))))%Q)
    by (change 48%Q with (inject_Z 48); rewrite <- Zle_Qle; exact F).
  lra.
Qed.

Lemma volume_part (v a : Q) :
  (0 <= a)%Q -> (Fin v >? Fin a * dec 12 10) = true ->
  Fin v / Fin a * Fin 30 = PInf
  \/ exists x, Fin v / Fin a * Fin 30 = Fin x /\ (36 < x)%Q.
Proof.
  intros Ha H. unfold Num.gtb, Num.mul, dec in H. apply ltb_Fin in H.
  unfold Num.div. destruct (Qeq_bool a 0) eqn:E.
  - left. apply Qeq_bool_iff in E. rewrite sgn_pos; [reflexivity|]. rewrite E in H. lra.
  - right. assert (Hpos : (0 < a)%Q).
    { destruct (Qlt_le_dec 0 a) as [L|L]; [exact L|].
      assert (Z : (a == 0)%Q) by lra. apply Qeq_bool_iff in Z. congruence. }
    eexists. split; [reflexivity|].
    assert (D : ((12 # 10) < v / a)%Q).
    { apply Qlt_shift_div_l; [exact Hpos|]. lra. }
    lra.
Qed.

Lemma body_part (body absbody range : Q) :
  (0 < body)%Q -> (absbody == body)%Q ->
  (Fin body / Fin range >? dec 6 10) = true ->
  Fin absbody / Fin range * Fin 20 = PInf
  \/ exists y, Fin absbody / Fin range * Fin 20 = Fin y /\ (12 < y)%Q.
Proof.
  intros Hb Eb H. unfold Num.gtb, Num.div in *.
  destruct (Qeq_bool range 0) eqn:E.
  - left. rewrite sgn_pos; [reflexivity|]. rewrite Eb. exact Hb.
  - right. unfold dec in H. apply ltb_Fin in H. eexists. split; [reflexivity|].
    assert (R : (absbody / range == body / range)%Q) by (rewrite Eb; reflexivity).
    rewrite R. lra.
Qed.

Lemma order_block_strong (prev c next : Candle) (a : Q) :
  finiteCandle c -> (0 <= a)%Q ->
  isBullishOrderBlock prev c next (Fin a) = true
  \/ isBearishOrderBlock prev c next (Fin a) = true ->
  (Fin 30 <? calculateOrderBlockStrength c (Fin a)) = true.
Proof.
  intros (t & o & h & l & cl & v & -> & Hv) Ha H.
  unfold calculateOrderBlockStrength. cbv zeta. cbn [c_volume c_close c_open c_high c_low].
  unfold isBullishOrderBlock, isBearishOrderBlock in H. cbv zeta in H.
  cbn [c_volume c_close c_open c_high c_low] in H.
  change (Fin cl - Fin o) with (Fin (cl + - o)) in *.
  change (Fin o - Fin cl) with (Fin (o + - cl)) in *.
  change (Fin h - Fin l) with (Fin (h + - l)) in *.
  unfold Num.abs.
  destruct H as [H|H];
    repeat (apply andb_true_iff in H; destruct H as (H & ?));
    (apply strong_sum; [apply volume_part; assumption|]).
  - unfold Num.gtb in H. apply ltb_Fin in H.
    apply (body_part (cl + - o)); [lra|rewrite Qabs_pos; [reflexivity|lra]|assumption].
  - apply ltb_Fin in H.
    apply (body_part (o + - cl)); [lra| |assumption].
    rewrite Qabs_neg; [ring|lra].
Qed.

(** X18. On candles with finite numbers and volumes that are not negative,
    every order block [findOrderBlocks] returns has a strength above 30: a
    block needs more than 1.2 times the average volume and a body of more than
    0.6 of its range, which alone give a strength of 48.  The tests on a
    strength above 30 in [calculateConfidence] and [identifyKeyLevels]
    therefore let every order block through. *)
Theorem order_blocks_all_strong (data : CandleSeries) (obs : list OrderBlock) :
  Forall finiteCandle data ->
  findOrderBlocks data = Returns obs ->
  Forall (fun ob => lt (Fin 30) (ob_strength ob)) obs
  /\ filter (fun ob => ob_strength ob >? Fin 30) obs = obs.
Proof.
  intros Hfin H.
  assert (S : Forall (fun ob => lt (Fin 30) (ob_strength ob)) obs).
  { unfold findOrderBlocks, rawOrderBlocks in H. cbv zeta in H.
    apply bind_Returns in H. destruct H as (raw & Hraw & H).
    apply Returns_inj in H. subst obs.
    destruct data as [|c0 rest] eqn:D.
    { apply Returns_inj in Hraw. subst raw. constructor. }
    rewrite <- D in *.
    destruct (average_volume data Hfin) as (a & Ea & Ha); [rewrite D; discriminate|].
    rewrite Ea in Hraw.
    assert (R : Forall (fun ob => lt (Fin 30) (ob_strength ob)) raw).
    { revert Hraw.
      apply (foldM_invariant (Forall (fun ob => lt (Fin 30) (ob_strength ob))));
        [|constructor].
      intros acc i acc' Hacc _ Hstep. unfold orderBlockStep in Hstep.
      apply bind_Returns in Hstep. destruct Hstep as (prev & _ & Hstep).
      apply bind_Returns in Hstep. destruct Hstep as (cur & Hcur & Hstep).
      apply bind_Returns in Hstep. destruct Hstep as (next & _ & Hstep).
      cbv zeta in Hstep. apply Returns_inj in Hstep. subst acc'.
      assert (Fc : finiteCandle cur).
      { apply at_index_nth_error in Hcur. apply nth_error_In in Hcur.
        rewrite Forall_forall in Hfin. apply Hfin. exact Hcur. }
      destruct (isBullishOrderBlock prev cur next (Fin a)) eqn:B;
        destruct (isBearishOrderBlock prev cur next (Fin a)) eqn:S;
        repeat (apply Forall_app; split); try exact Hacc;
        constructor; try constructor; unfold lt; cbn [ob_strength];
        apply (order_block_strong prev cur next a Fc Ha); auto. }
    unfold markTestedOrderBlocks. rewrite Forall_forall in *.
    intros ob Hob. apply in_map_iff in Hob. destruct Hob as (ob0 & <- & Hin).
    cbn [set_tested ob_strength]. apply R. exact Hin. }
  split; [exact S|]. apply filter_Forall_all.
  rewrite Forall_forall in *. intros ob Hob. apply S. exact Hob.
Qed.

Lemma order_blocks_all_strong_witness :
  exists obs,
    findOrderBlocks engulfedBlockSeries = Returns obs
    /\ map ob_strength obs = [Fin 95]
    /\ Forall (fun ob => lt (Fin 30) (ob_strength ob)) obs.
Proof.
  eexists. split; [vm_compute; reflexivity|]. split; [reflexivity|].
  apply (order_blocks_all_strong engulfedBlockSeries); [|vm_compute; reflexivity].
  repeat constructor;
    (eexists _, _, _, _, _, _; split; [reflexivity|vm_compute; discriminate]).
Defined.

End OrderBlockStrength.

(* ===================================================================== *)
(** ** The number of volume levels *)
(* ===================================================================== *)

Section VolumeLevels.

Import SupportResistanceAnalyzer Vocabulary.
Local Open Scope num_scope.

(** The volume a bin collects from finite candles is finite, whatever the
    bounds of the bin. *)
Lemma binVolume_finite (binLow binHigh : num) (q : Q) (c : Candle) :
  finiteCandle c -> exists q', binVolume binLow binHigh (Fin q) c = Fin q'.
Proof.
  intros (t & o & h & l & cl & v & -> & _). unfold binVolume.
  cbn [c_low c_high c_volume]. cbv zeta.
  destruct ((Fin l <=? binHigh) && (Fin h >=? binLow)) eqn:E; [|eauto].
  apply andb_true_iff in E. destruct E as (E1 & E2). unfold Num.geb in E2.
  destruct (Fin h - Fin l >? Fin 0) eqn:R.
  - change (Fin h - Fin l) with (Fin (h + - l)) in *.
    unfold Num.gtb in R. apply ltb_Fin in R.
    assert (Z : Qeq_bool (h + - l) 0 = false).
    { destruct (Qeq_bool (h + - l) 0) eqn:Z; [|reflexivity].
      apply Qeq_bool_iff in Z. lra. }
    destruct binHigh as [bh| | |], binLow as [bl| | |];
      try discriminate E1; try discriminate E2;
      unfold Num.min, Num.max, Num.ltb;
      repeat match goal with |- context [if ?b then _ else _] => destruct b end;
      unfold Num.sub, Num.neg, Num.add, Num.div; rewrite Z;
      unfold Num.mul; eauto.
  - unfold Num.mul, Num.add. eauto.
Qed.

Lemma bin_total_finite (binLow binHigh : num) (data : CandleSeries) :
  Forall finiteCandle data ->
  exists q, fold_left (binVolume binLow binHigh) data (Fin 0) = Fin q.
Proof.
  intro H. generalize 0%Q.
  induction H as [|c t Hc _ IH]; intro q; simpl; [eauto|].
  destruct (binVolume_finite binLow binHigh q c Hc) as (q' & ->). apply IH.
Qed.

Lemma profile_volumes (data : CandleSeries) (bins : nat) :
  Forall finiteCandle data ->
  forall node, In node (calculateVolumeProfile data bins) -> vn_volume node <> NaN.
Proof.
  intros H node Hin. unfold calculateVolumeProfile in Hin. cbv zeta in Hin.
  apply in_map_iff in Hin. destruct Hin as (i & <- & _). cbn [vn_volume].
  match goal with
  | |- fold_left (binVolume ?lo ?hi) _ _ <> _ =>
      destruct (bin_total_finite lo hi data H) as (q & ->)
  end.
  discriminate.
Qed.

Lemma sorted_nth {A} (R : A -> A -> Prop) (l : list A) (i j : nat) (a b : A) :
  StronglySorted R l -> (i < j)%nat ->
  nth_error l i = Some a -> nth_error l j = Some b -> R a b.
Proof.
  intro H. revert i j. induction H as [|x t Ht IH Hx]; intros i j Hij Ha Hb.
  - destruct i; discriminate.
  - destruct j as [|j]; [lia|]. destruct i as [|i].
    + injection Ha as <-. rewrite Forall_forall in Hx. apply Hx.
      eapply nth_error_In. exact Hb.
    + apply (IH i j); [lia|exact Ha|exact Hb].
Qed.

Lemma filter_length_perm {A} (p : A -> bool) (l m : list A) :
  Permutation l m -> length (filter p l) = length (filter p m).
Proof.
  induction 1; simpl; try reflexivity.
  - destruct (p x); simpl; congruence.
  - destruct (p x), (p y); reflexivity.
  - congruence.
Qed.

Lemma filter_length_prefix {A} (p : A -> bool) (l : list A) (n : nat) :
  (n <= length l)%nat ->
  (forall i x, (i < n)%nat -> nth_error l i = Some x -> p x = true) ->
  (n <= length (filter p l))%nat.
Proof.
  revert l. induction n as [|n IH]; intros l Hn Hp; [lia|].
  destruct l as [|x t]; [simpl in Hn; lia|]. simpl.
  rewrite (Hp 0%nat x); [|lia|reflexivity]. simpl.
  apply le_n_S. apply IH; [simpl in Hn; lia|].
  intros i y Hi Hy. apply (Hp (S i) y); [lia|exact Hy].
Qed.

Lemma flat_map_option_length {A B} (p : A -> bool) (g : A -> B) (l : list A) :
  length (flat_map (fun x => if p x then [g x] else []) l) = length (filter p l).
Proof.
  induction l as [|x t IH]; simpl; [reflexivity|].
  destruct (p x); simpl; rewrite ?IH; reflexivity.
Qed.

(** X19. On candles with finite numbers [findVolumeLevels] returns at least
    six levels and at most fifty, all of type volume, whatever the prices do:
    the threshold is the sixth largest volume of the fifty bins, and the six
    bins that reach it pass.  A level needs no touch to be reported. *)
Theorem volume_levels_at_least_six (data : CandleSeries) :
  Forall finiteCandle data ->
  exists levels,
    findVolumeLevels data = Returns levels
    /\ (6 <= length levels <= 50)%nat
    /\ Forall (fun l => lv_type l = volume) levels.
Proof.
  intro H. unfold findVolumeLevels. cbv zeta.
  set (profile := calculateVolumeProfile data 50).
  assert (Lp : length profile = 50%nat) by apply calculateVolumeProfile_length.
  assert (Hk : forall y, In y profile -> vn_volume y <> NaN)
    by (apply profile_volumes; exact H).
  pose proof (sort_desc_sorted vn_volume profile Hk) as Hs.
  pose proof (sort_desc_perm vn_volume profile) as Hp.
  assert (Ls : length (sort_desc vn_volume profile) = 50%nat)
    by (rewrite (Permutation_length Hp); exact Lp).
  rewrite Ls. change (50 / 10)%nat with 5%nat.
  destruct (at_index_returns (sort_desc vn_volume profile) 5) as (node & Hn); [lia|].
  rewrite Hn. cbn [bind]. eexists. split; [reflexivity|].
  apply at_index_nth_error in Hn.
  split.
  - rewrite (flat_map_option_length
               (fun x => vn_volume x >=? vn_volume node)
               (fun x => volumeLevel x (countTouches (vn_price x) data))).
    split.
    + rewrite (filter_length_perm _ _ _ (Permutation_sym Hp)).
      apply filter_length_prefix; [lia|].
      intros i x Hi Hx. unfold Num.geb.
      destruct (Nat.eq_dec i 5) as [->|Hne].
      * rewrite Hn in Hx. injection Hx as <-. apply leb_refl. apply Hk.
        apply (Permutation_in _ Hp). eapply nth_error_In. exact Hn.
      * apply (sorted_nth _ _ i 5 x node Hs); [lia|exact Hx|exact Hn].
    + rewrite <- Lp. apply filter_length_le.
  - apply Forall_forall. intros l Hl. apply in_flat_map in Hl.
    destruct Hl as (x & _ & Hl).
    destruct (vn_volume x >=? vn_volume node); [|contradiction].
    destruct Hl as [<-|[]]. reflexivity.
Qed.

Lemma volume_levels_at_least_six_witness :
  exists levels,
    findVolumeLevels engulfedBlockSeries = Returns levels
    /\ (6 <= length levels <= 50)%nat.
Proof.
  destruct (volume_levels_at_least_six engulfedBlockSeries) as (levels & Hl & Hn & _).
  - repeat constructor;
      (eexists _, _, _, _, _, _; split; [reflexivity|vm_compute; discriminate]).
  - exists levels. split; assumption.
Defined.

End VolumeLevels.

(* ===================================================================== *)
(** ** Liquidity zones *)
(* ===================================================================== *)

Section LiquidityZones.

Import SmartMoneyAnalyzer Vocabulary.
Local Open Scope num_scope.

Lemma addToGroup_members (swing : Swing) (groups groups' : list (list Swing)) :
  addToGroup swing groups = Some groups' ->
  (forall g s, In g groups' -> In s g ->
               s = swing \/ exists g0, In g0 groups /\ In s g0)
  /\ groupTotal groups' = S (groupTotal groups).
Proof.
  revert groups'. induction groups as [|g t IH]; intros groups' H; [discriminate H|].
  cbn [addToGroup] in H. cbv zeta in H.
  match type of H with (if ?b then _ else _) = _ => destruct b end.
  - injection H as <-. split.
    + intros g0 s [<-|Hg] Hs.
      * apply in_app_or in Hs. destruct Hs as [Hs|[<-|[]]]; [|left; reflexivity].
        right. exists g. split; [left; reflexivity|exact Hs].
      * right. exists g0. split; [right; exact Hg|exact Hs].
    + unfold groupTotal. simpl. rewrite length_app. simpl. lia.
  - destruct (addToGroup swing t) as [t'|] eqn:E; [|discriminate H].
    injection H as <-. destruct (IH t' eq_refl) as (M & T). split.
    + intros g0 s [<-|Hg] Hs.
      * right. exists g. split; [left; reflexivity|exact Hs].
      * destruct (M g0 s Hg Hs) as [->|(g1 & Hg1 & Hs1)]; [left; reflexivity|].
        right. exists g1. split; [right; exact Hg1|exact Hs1].
    + unfold groupTotal in *. simpl. lia.
Qed.

Lemma filter_sum_le {A} (f : A -> nat) (p : A -> bool) (l : list A) :
  (list_sum (map f (filter p l)) <= list_sum (map f l))%nat.
Proof.
  induction l as [|x t IH]; simpl; [lia|]. destruct (p x); simpl; lia.
Qed.

Lemma findEqualLevels_members (swings : list Swing) :
  (forall g s, In g (findEqualLevels swings) -> In s g -> In s swings)
  /\ Forall (fun g => (2 <= length g)%nat) (findEqualLevels swings)
  /\ (groupTotal (findEqualLevels swings) <= length swings)%nat.
Proof.
  unfold findEqualLevels. cbv zeta.
  set (step := fun (groups : list (list Swing)) (swing : Swing) =>
                 match addToGroup swing groups with
                 | Some groups' => groups'
                 | None => groups ++ [[swing]]
                 end).
  assert (G : forall rest acc,
             (forall g s, In g (fold_left step rest acc) -> In s g ->
                          In s rest \/ exists g0, In g0 acc /\ In s g0)
             /\ groupTotal (fold_left step rest acc) = (groupTotal acc + length rest)%nat).
  { induction rest as [|x t IH]; intro acc; simpl.
    - split; [|lia]. intros g s Hg Hs. right. exists g. auto.
    - destruct (IH (step acc x)) as (M & T). split.
      + intros g s Hg Hs. destruct (M g s Hg Hs) as [Hin|(g0 & Hg0 & Hs0)]; [auto|].
        unfold step in Hg0. destruct (addToGroup x acc) as [acc'|] eqn:E.
        * destruct (addToGroup_members _ _ _ E) as (M' & _).
          destruct (M' g0 s Hg0 Hs0) as [->|?]; auto.
        * apply in_app_or in Hg0. destruct Hg0 as [Hg0|[<-|[]]].
          -- right. exists g0. auto.
          -- destruct Hs0 as [<-|[]]. auto.
      + rewrite T. unfold step. destruct (addToGroup x acc) as [acc'|] eqn:E.
        * destruct (addToGroup_members _ _ _ E) as (_ & ->). lia.
        * unfold groupTotal. rewrite map_app, list_sum_app. simpl. lia. }
  destruct (G swings []) as (M & T). split; [|split].
  - intros g s Hg Hs. apply filter_In in Hg. destruct Hg as (Hg & _).
    destruct (M g s Hg Hs) as [?|(g0 & [] & _)]. assumption.
  - apply Forall_forall. intros g Hg. apply filter_In in Hg. destruct Hg as (_ & Hg).
    apply Nat.leb_le. exact Hg.
  - unfold groupTotal in *. simpl in T. rewrite <- T.
    apply filter_sum_le.
Qed.

Lemma zonesOf_zones (ty : ZoneType) (groups : list (list Swing)) (zones : list LiquidityZone) :
  zonesOf ty groups = Returns zones ->
  Forall (fun z => lz_type z = ty /\ (2 <= lz_count z)%nat
                   /\ lz_strength z = Num.of_nat (lz_count z) * Fin 15
                   /\ lz_swept z = false
                   /\ exists g s, In g groups /\ In s g /\ lz_level z = sw_price s)
         zones
  /\ (list_sum (map lz_count zones) <= groupTotal groups)%nat.
Proof.
  unfold zonesOf.
  assert (G : forall gs acc zs,
             foldM (fun zones group =>
                      if (2 <=? length group)%nat
                      then first <- at_index group 0 ;;
                           Returns (zones ++ [mkZone ty (sw_price first) (length group)
                                                     (Num.of_nat (length group) * Fin 15)
                                                     false])
                      else Returns zones) gs acc = Returns zs ->
             exists added,
               zs = acc ++ added
               /\ Forall (fun z => lz_type z = ty /\ (2 <= lz_count z)%nat
                                   /\ lz_strength z = Num.of_nat (lz_count z) * Fin 15
                                   /\ lz_swept z = false
                                   /\ exists g s, In g gs /\ In s g
                                                  /\ lz_level z = sw_price s) added
               /\ (list_sum (map lz_count added) <= groupTotal gs)%nat).
  { induction gs as [|g t IH]; intros acc zs H.
    - apply Returns_inj in H. subst zs. exists []. rewrite app_nil_r.
      split; [reflexivity|]. split; [constructor|]. simpl. lia.
    - cbn [foldM] in H. apply bind_Returns in H. destruct H as (acc1 & H1 & H).
      destruct (IH _ _ H) as (added & -> & Fa & La).
      assert (Fa' : Forall (fun z => lz_type z = ty /\ (2 <= lz_count z)%nat
                                     /\ lz_strength z = Num.of_nat (lz_count z) * Fin 15
                                     /\ lz_swept z = false
                                     /\ exists g0 s, In g0 (g :: t) /\ In s g0
                                                     /\ lz_level z = sw_price s) added).
      { rewrite Forall_forall in *. intros z Hz.
        destruct (Fa z Hz) as (A & B & C & D & g0 & s & Hg & Hs & E).
        repeat split; try assumption. exists g0, s. split; [right; exact Hg|]. auto. }
      destruct (2 <=? length g)%nat eqn:E2.
      + apply Nat.leb_le in E2.
        apply bind_Returns in H1. destruct H1 as (first & Hf & H1).
        apply Returns_inj in H1. subst acc1.
        exists (mkZone ty (sw_price first) (length g)
                       (Num.of_nat (length g) * Fin 15) false :: added).
        split; [rewrite <- app_assoc; reflexivity|]. split.
        * constructor; [|exact Fa']. cbn. repeat split; try assumption.
          exists g, first. split; [left; reflexivity|]. split; [|reflexivity].
          apply at_index_nth_error in Hf. eapply nth_error_In. exact Hf.
        * unfold groupTotal in *. simpl. lia.
      + apply Returns_inj in H1. subst acc1. exists added.
        split; [reflexivity|]. split; [exact Fa'|].
        unfold groupTotal in *. simpl. lia. }
  intro H. destruct (G groups [] zones H) as (added & -> & F & L). auto.
Qed.

Lemma zoneSwings_app (ty : ZoneType) (l m : list LiquidityZone) :
  zoneSwings ty (l ++ m) = (zoneSwings ty l + zoneSwings ty m)%nat.
Proof.
  unfold zoneSwings. rewrite filter_app, map_app, list_sum_app. reflexivity.
Qed.

Lemma zoneSwings_same (ty : ZoneType) (l : list LiquidityZone) :
  Forall (fun z => lz_type z = ty) l -> zoneSwings ty l = list_sum (map lz_count l).
Proof.
  unfold zoneSwings. intro H. rewrite filter_Forall_all; [reflexivity|].
  rewrite Forall_forall in *. intros z Hz. unfold zoneIs. rewrite (H z Hz).
  destruct ty; reflexivity.
Qed.

Lemma zoneSwings_other (ty ty' : ZoneType) (l : list LiquidityZone) :
  ty <> ty' -> Forall (fun z => lz_type z = ty') l -> zoneSwings ty l = 0%nat.
Proof.
  unfold zoneSwings. intros Hne H. rewrite filter_Forall_none; [reflexivity|].
  rewrite Forall_forall in *. intros z Hz. unfold zoneIs. rewrite (H z Hz).
  destruct ty, ty'; congruence.
Qed.

Lemma zoneSwings_swept (ty : ZoneType) (f : LiquidityZone -> bool) (l : list LiquidityZone) :
  zoneSwings ty (map (fun z => set_swept z (f z)) l) = zoneSwings ty l.
Proof.
  unfold zoneSwings. induction l as [|z t IH]; [reflexivity|].
  cbn [map filter].
  change (zoneIs ty (set_swept z (f z))) with (zoneIs ty z).
  destruct (zoneIs ty z); simpl; simpl in IH; rewrite ?IH; reflexivity.
Qed.

(** X20. Every liquidity zone [findLiquidityZones] returns stands for two or
    more swings of nearly the same price: its count is at least 2, its
    strength 15 times the count, and its level the price of a swing high of
    the series (sell side) or of a swing low (buy side).  It is marked as
    swept exactly when the last close is above a sell side level or below a
    buy side level.  The zones of a side never stand for more swings than the
    series has on that side. *)
Theorem liquidity_zones_from_swings (data : CandleSeries) (zones : list LiquidityZone) :
  findLiquidityZones data = Returns zones ->
  exists highs lows last,
    findSwingHighs data = Returns highs
    /\ findSwingLows data = Returns lows
    /\ at_last data = Returns last
    /\ Forall (zoneFrom highs lows (c_close last)) zones
    /\ (zoneSwings sell_side zones <= length highs)%nat
    /\ (zoneSwings buy_side zones <= length lows)%nat.
Proof.
  unfold findLiquidityZones. intro H.
  apply bind_Returns in H. destruct H as (highs & Hh & H).
  apply bind_Returns in H. destruct H as (lows & Hl & H).
  apply bind_Returns in H. destruct H as (ss & Hss & H).
  apply bind_Returns in H. destruct H as (bs & Hbs & H).
  unfold markSweptLiquidity in H.
  apply bind_Returns in H. destruct H as (last & Hlast & H).
  cbv zeta in H. apply Returns_inj in H. subst zones.
  exists highs, lows, last. split; [exact Hh|]. split; [exact Hl|]. split; [exact Hlast|].
  destruct (zonesOf_zones _ _ _ Hss) as (Fs & Ls).
  destruct (zonesOf_zones _ _ _ Hbs) as (Fb & Lb).
  destruct (findEqualLevels_members highs) as (Mh & _ & Th).
  destruct (findEqualLevels_members lows) as (Ml & _ & Tl).
  assert (Ts : Forall (fun z => lz_type z = sell_side) ss).
  { rewrite Forall_forall in *. intros z Hz. apply (Fs z Hz). }
  assert (Tb : Forall (fun z => lz_type z = buy_side) bs).
  { rewrite Forall_forall in *. intros z Hz. apply (Fb z Hz). }
  split; [|split].
  - apply Forall_forall. intros z' Hz'. apply in_map_iff in Hz'.
    destruct Hz' as (z & <- & Hz). unfold zoneFrom.
    cbn [set_swept lz_count lz_strength lz_type lz_level lz_swept].
    apply in_app_or in Hz. rewrite Forall_forall in Fs, Fb.
    destruct Hz as [Hz|Hz].
    + destruct (Fs z Hz) as (T & C & S & _ & g & s & Hg & Hs & E). rewrite T.
      split; [exact C|]. split; [exact S|]. split; [|reflexivity].
      exists s. split; [exact (Mh g s Hg Hs)|exact E].
    + destruct (Fb z Hz) as (T & C & S & _ & g & s & Hg & Hs & E). rewrite T.
      split; [exact C|]. split; [exact S|]. split; [|reflexivity].
      exists s. split; [exact (Ml g s Hg Hs)|exact E].
  - rewrite zoneSwings_swept, zoneSwings_app, (zoneSwings_same _ _ Ts),
      (zoneSwings_other sell_side buy_side bs); [lia|discriminate|exact Tb].
  - rewrite zoneSwings_swept, zoneSwings_app, (zoneSwings_same _ _ Tb),
      (zoneSwings_other buy_side sell_side ss); [lia|discriminate|exact Ts].
Qed.

Lemma liquidity_zones_from_swings_witness :
  exists zones,
    findLiquidityZones signalSeries = Returns zones
    /\ map lz_level zones = [Fin 111]
    /\ map lz_count zones = [2%nat]
    /\ (zoneSwings buy_side zones <= 3)%nat.
Proof.
  eexists. split; [vm_compute; reflexivity|].
  split; [reflexivity|]. split; [reflexivity|].
  match goal with
  | |- (zoneSwings _ ?zones <= _)%nat =>
      destruct (liquidity_zones_from_swings signalSeries zones)
        as (highs & lows & last & _ & Hl & _ & _ & _ & B)
  end.
  - vm_compute. reflexivity.
  - vm_compute in Hl. injection Hl as <-. exact B.
Defined.

End LiquidityZones.

(* ===================================================================== *)
(** ** Where [analyzeSymbol] faults *)
(* ===================================================================== *)

Section SignalReturns.

Import App Vocabulary.

(** After its patterns and its wave [analyzeSymbol] returns where
    [findLevels] does, and does not end where [findLevels] does not. *)
Lemma analyzeSymbol_cases (data : CandleSeries) (btcTrend : Trend) :
  data <> [] ->
  (exists r, analyzeSymbol data btcTrend = Returns r)
  \/ (analyzeSymbol data btcTrend = Loops
      /\ SupportResistanceAnalyzer.findLevels data = Loops).
Proof.
  intro Hd. unfold analyzeSymbol.
  destruct (detectPatterns_returns data Hd) as (ps & ->). cbn [bind]. cbv zeta.
  destruct (filter isValidPattern ps) as [|primary others]; [eauto|].
  destruct (analyzeWave_returns data) as (ew & ->). cbn [bind].
  destruct (negb (ElliottWaveAnalyzer.wr_isValid ew)); [eauto|].
  pose proof (findLevels_no_fault data Hd) as HN.
  destruct (SupportResistanceAnalyzer.findLevels data) as [sr| |];
    [|congruence|right; split; reflexivity].
  left. cbn [bind].
  destruct (analyze_returns data Hd) as (smc & ->). cbn [bind].
  destruct (at_last_nonempty data Hd) as (last & Hlast).
  destruct (calculateTradingLevels_flat (c_close last)
              (PatternAnalyzer.direction primary) sr smc) as (lv & Hlv & _).
  destruct btcTrend, (PatternAnalyzer.direction primary) eqn:Dir;
    try (eexists; reflexivity);
    rewrite Hlast; cbn [bind]; rewrite Hlv; cbn [bind]; eauto.
Qed.

(** X21. [analyzeSymbol] raises a TypeError on the empty series and on no
    other.  On a series whose latest close is a price from 0 to 10^9, and
    for every trend of BTC, the pattern, wave, level and smart money
    analyses and the trading levels all return, and the call ends with a
    signal or with null.  On any series it fails to end only where
    [findLevels] does, in the loop of the round numbers, whose step can be
    too small to change a large double. *)
Theorem analyzeSymbol_faults_only_on_empty (data : CandleSeries) (btcTrend : Trend) :
  (analyzeSymbol data btcTrend = Throws <-> data = [])
  /\ (closesInRange data -> exists r, analyzeSymbol data btcTrend = Returns r)
  /\ (analyzeSymbol data btcTrend = Loops ->
      SupportResistanceAnalyzer.findLevels data = Loops).
Proof.
  split; [split|split].
  - intro H. destruct data as [|c0 rest]; [reflexivity|]. exfalso.
    destruct (analyzeSymbol_cases (c0 :: rest) btcTrend) as [(r & E)|(E & _)];
      [discriminate|congruence|congruence].
  - intros ->. reflexivity.
  - intro Hr. pose proof (closesInRange_nonempty data Hr) as Hd.
    destruct (analyzeSymbol_cases data btcTrend Hd) as [E|(_ & E)]; [exact E|].
    destruct (findLevels_returns data Hr) as (levels & E'). congruence.
  - intro H. destruct data as [|c0 rest]; [discriminate H|].
    destruct (analyzeSymbol_cases (c0 :: rest) btcTrend) as [(r & E)|(_ & E)];
      [discriminate|congruence|exact E].
Qed.

(** The series of the long signal closes at 152. *)
Lemma analyzeSymbol_faults_only_on_empty_witness :
  closesInRange signalSeries
  /\ exists r, analyzeSymbol signalSeries neutral = Returns r.
Proof.
  assert (H : closesInRange signalSeries).
  { eexists. eexists. split; [vm_compute; reflexivity|].
    split; [reflexivity|]. split; discriminate. }
  split; [exact H|].
  apply (analyzeSymbol_faults_only_on_empty signalSeries neutral). exact H.
Defined.

End SignalReturns.
